(** * Canton LedgerView: a shallow embedding of the client-side data layer

    The development follows the TypeScript sources:
    - [services/cantonClient.ts]  (module [CantonClient])
    - [services/store.ts]         (module [Store])
    - [pages/ScanExplorer.tsx]    (module [ScanExplorer])
    - [types/canton.ts], [types/scan.ts], [types/cantonScan.ts] (module [Types])

    JavaScript is single threaded: an [async] function runs synchronously
    up to its first pending [await], and resumes atomically when the awaited
    promise settles.  Exceptions are modelled by the [outcome] monad, the
    zustand store by explicit state passing, and promises that are still
    pending by an explicit list of in-flight requests.

    TypeScript types are erased at run time.  What [JSON.parse] returns
    is therefore an untyped document ([JsonValue]), and every property
    read, truthiness test, iteration and spread the code makes on a
    response is made on the document, [null] included: the document
    decides whether a statement throws and which branch is taken.  The
    typed records of [Types] give the values the store and the pages go
    on with. *)

From Stdlib Require Import ZArith String Ascii List Lia.
From stdpp Require Import base option list strings gmap pretty.

Local Open Scope string_scope.
Local Open Scope Z_scope.

(** ** JavaScript values, exceptions and string primitives *)

Module Js.

(** What the platform itself throws or rejects with ([fetch],
    [response.text()], [JSON.parse], property access on [null]):
    [NativeError] is an instance of [Error] ([TypeError], [SyntaxError],
    ...), [NonError] any thrown value that is not. *)
Inductive native : Type :=
| NativeError (message : string)
| NonError.

(** Values handed to [catch]: a platform failure, or the
    [CantonAPIError] class declared in [cantonClient.ts]. *)
Inductive thrown : Type :=
| CantonAPIError (status : Z) (message : string) (path : string)
| Native (e : native).

(** A platform operation: it yields a value or fails natively. *)
Inductive io (A : Type) : Type :=
| Ok (a : A)
| Fail (e : native).
Arguments Ok {A} a.
Arguments Fail {A} e.

(** Application code: it returns or throws. *)
Inductive outcome (A : Type) : Type :=
| Return (a : A)
| Throw (e : thrown).
Arguments Return {A} a.
Arguments Throw {A} e.

Definition lift {A} (m : io A) : outcome A :=
  match m with
  | Ok a => Return a
  | Fail e => Throw (Native e)
  end.

#[global] Instance outcome_ret : MRet outcome := fun A a => Return a.
#[global] Instance outcome_bind : MBind outcome := fun A B f m =>
  match m with
  | Return a => f a
  | Throw e => Throw e
  end.
#[global] Instance outcome_fmap : FMap outcome := fun A B f m =>
  match m with
  | Return a => Return (f a)
  | Throw e => Throw e
  end.

(** [try { m } catch (error) { h error }] *)
Definition try_catch {A} (m : outcome A) (h : thrown -> outcome A) : outcome A :=
  match m with
  | Return a => Return a
  | Throw e => h e
  end.

(** [super(`Canton API Error (${status}): ${message} [${path}]`)] *)
Definition CantonAPIError_message (status : Z) (message path : string) : string :=
  "Canton API Error (" +:+ pretty status +:+ "): " +:+ message +:+ " [" +:+ path +:+ "]".

(** [error instanceof Error ? error.message : fallback] *)
Definition message_or (fallback : string) (e : thrown) : string :=
  match e with
  | CantonAPIError st m p => CantonAPIError_message st m p
  | Native (NativeError m) => m
  | Native NonError => fallback
  end.

(** [error instanceof CantonAPIError && error.status === 404] *)
Definition is_not_found (e : thrown) : bool :=
  match e with
  | CantonAPIError st _ _ => bool_decide (st = 404)
  | Native _ => false
  end.

(** Truthiness of a possibly absent string: [undefined] and [''] are falsy. *)
Definition truthy_string (o : option string) : option string :=
  match o with
  | Some "" => None
  | other => other
  end.

(** [a || b] where [a] may be absent and [b] is a string. *)
Definition or_string (a : option string) (b : string) : string :=
  default b (truthy_string a).

(** [a || []] where [a] is a possibly absent array (arrays are truthy). *)
Definition or_empty {A} (a : option (list A)) : list A := default [] a.

(** JSON documents: what [JSON.parse] returns, and the values the client
    passes through (contract payloads, contract keys, choice arguments).
    Numbers are kept as integers; a fractional number behaves in every
    operation below like a non-zero integer. *)
#[local] Set Warnings "-register-all".
Inductive JsonValue : Type :=
| JNull
| JBool (b : bool)
| JNumber (n : Z)
| JString (s : string)
| JArray (items : list JsonValue)
| JObject (fields : list (string * JsonValue)).

(** What the JavaScript engine supplies: [JSON.parse] on every text but
    the literal [null], and the wording of the two [TypeError]s met in
    this development (reading property [p] of [null]; iterating the
    value of an expression when that value is not iterable). *)
Class Engine : Type := {
  JSON_parse_document : string -> io JsonValue;
  null_property_message : string -> string;
  not_iterable_message : string -> string
}.

(** [JSON.parse(text)].  Nothing checks the document against the type
    its caller expects; in particular the text [null] is a document. *)
Definition JSON_parse `{!Engine} (text : string) : io JsonValue :=
  if String.eqb text "null" then Ok JNull else JSON_parse_document text.

Definition TypeError (message : string) : thrown := Native (NativeError message).

(** The own property [p] of an object with the given members; a member
    written later in the document replaces an earlier one of that name. *)
Fixpoint own_property (fields : list (string * JsonValue)) (p : string)
    : option JsonValue :=
  match fields with
  | [] => None
  | (k, v) :: rest =>
      match own_property rest p with
      | Some later => Some later
      | None => if String.eqb k p then Some v else None
      end
  end.

(** [v.p] for a parsed document [v]; [None] is [undefined].  Reading a
    property of [null] throws.  The names read in this development are
    neither indices nor members of a built-in prototype, so only objects
    have them. *)
Definition get_property `{!Engine} (v : JsonValue) (p : string)
    : outcome (option JsonValue) :=
  match v with
  | JNull => Throw (TypeError (null_property_message p))
  | JObject fields => Return (own_property fields p)
  | _ => Return None
  end.

(** Truthiness of a document: [null], [false], [0] and [''] are falsy. *)
Definition truthy (v : JsonValue) : bool :=
  match v with
  | JNull => false
  | JBool b => b
  | JNumber n => negb (n =? 0)
  | JString s => negb (String.eqb s "")
  | JArray _ | JObject _ => true
  end.

(** A possibly [undefined] value, when it is truthy. *)
Definition truthy_value (a : option JsonValue) : option JsonValue :=
  match a with
  | Some v => if truthy v then Some v else None
  | None => None
  end.

(** [a || b] *)
Definition or_value (a : option JsonValue) (b : JsonValue) : JsonValue :=
  default b (truthy_value a).

(** [v?.p] *)
Definition optional_property (v : option JsonValue) (p : string)
    : option JsonValue :=
  match v with
  | Some (JObject fields) => own_property fields p
  | _ => None
  end.

(** The values that [for (const item of e)] and [[...e]] draw from the
    value [v] of the expression [e]: the elements of an array, the
    characters of a string.  Nothing else that a document holds is
    iterable, and neither is [undefined]. *)
Definition iterate `{!Engine} (e : string) (v : option JsonValue)
    : outcome (list JsonValue) :=
  match v with
  | Some (JArray items) => Return items
  | Some (JString s) =>
      Return (map (fun c => JString (String c "")) (list_ascii_of_string s))
  | _ => Throw (TypeError (not_iterable_message e))
  end.

(** [s.toLowerCase()].  Only the ASCII capitals are mapped; no character
    outside ASCII lower-cases to an ASCII letter of the needles used in
    this development. *)
Definition lower_ascii (c : ascii) : ascii :=
  let n := nat_of_ascii c in
  if (Nat.leb 65 n && Nat.leb n 90)%bool then ascii_of_nat (n + 32) else c.

Fixpoint toLowerCase (s : string) : string :=
  match s with
  | EmptyString => EmptyString
  | String c rest => String (lower_ascii c) (toLowerCase rest)
  end.

(** [hay.includes(needle)] *)
Fixpoint includes (needle hay : string) : bool :=
  if String.prefix needle hay then true
  else match hay with
       | EmptyString => false
       | String _ rest => includes needle rest
       end.

(** [s.split(sep).pop()]: the segment after the last occurrence of the
    one-character separator (the whole string when there is none). *)
Fixpoint split_pop_from (sep : ascii) (seg : string) (s : string) : string :=
  match s with
  | EmptyString => String.rev seg
  | String c rest =>
      if Ascii.eqb c sep then split_pop_from sep EmptyString rest
      else split_pop_from sep (String c seg) rest
  end.

Definition split_pop (sep : ascii) (s : string) : string :=
  split_pop_from sep EmptyString s.

(** [s.replace(/\/$/, '')]: drop one trailing slash. *)
Fixpoint strip_trailing_slash (s : string) : string :=
  match s with
  | EmptyString => EmptyString
  | String c EmptyString => if Ascii.eqb c "/"%char then EmptyString else s
  | String c rest => String c (strip_trailing_slash rest)
  end.

End Js.
Export Js.

(** ** Domain records ([types/canton.ts], [types/scan.ts]) *)

Module Types.

Definition PartyId := string.
Definition ContractId := string.
Definition TemplateId := string.
Definition PackageId := string.
Definition UpdateId := string.
Definition LedgerOffset := Z.

Record Party : Type := {
  partyId : PartyId;
  displayName : option string;
  isLocal : bool;
  identityProviderId : option string
}.

Record Contract : Type := {
  contractId : ContractId;
  templateId : TemplateId;
  payload : JsonValue;
  stakeholders : list PartyId;
  observers : list PartyId;
  signatories : list PartyId;
  createdAt : string;
  offset : LedgerOffset;
  contractKey : option JsonValue;
  createdEventBlob : option string
}.

(** [DamlType] descriptions are carried as JSON; nothing inspects them. *)
Record Choice : Type := {
  ch_name : string;
  ch_consuming : bool;
  selfConsuming : bool;
  controllers : list string;
  ch_observers : list string;
  argType : JsonValue;
  returnType : JsonValue
}.

Record Template : Type := {
  tpl_templateId : TemplateId;
  tpl_packageId : PackageId;
  tpl_moduleName : string;
  tpl_entityName : string;
  tpl_choices : list Choice
}.

Record Package : Type := {
  packageId : PackageId;
  packageSize : Z;
  knownSince : string;
  sourceDescription : string
}.

Record BaseEvent : Type := {
  eventId : string;
  ev_contractId : ContractId;
  ev_templateId : TemplateId;
  ev_offset : LedgerOffset;
  nodeId : Z
}.

Record CreatedEvent : Type := {
  created_base : BaseEvent;
  createArguments : JsonValue;
  ev_contractKey : option JsonValue;
  ev_signatories : list PartyId;
  ev_observers : list PartyId;
  ev_createdEventBlob : option string
}.

Record ExercisedEvent : Type := {
  exercised_base : BaseEvent;
  choice : string;
  choiceArgument : JsonValue;
  actingParties : list PartyId;
  consuming : bool;
  childEventIds : list string;
  exerciseResult : option JsonValue
}.

(** [type Event = CreatedEvent | ExercisedEvent | ArchivedEvent] *)
Inductive Event : Type :=
| Created (e : CreatedEvent)
| Exercised (e : ExercisedEvent)
| Archived (e : BaseEvent).

Record Transaction : Type := {
  updateId : UpdateId;
  tx_offset : LedgerOffset;
  effectiveAt : string;
  commandId : option string;
  workflowId : option string;
  events : list Event
}.

(** [IdentifierFilter]: the three clause shapes of a cumulative filter. *)
Inductive IdentifierFilter : Type :=
| WildcardFilter (includeCreatedEventBlob : option bool)
| TemplateFilter (templateId : TemplateId) (includeCreatedEventBlob : option bool)
| InterfaceFilter (interfaceId : string) (includeInterfaceView : option bool)
                  (includeCreatedEventBlob : option bool).

Record PartyFilter : Type := { pf_cumulative : option (list IdentifierFilter) }.
Record AnyPartyFilter : Type := { apf_cumulative : list IdentifierFilter }.

Record TransactionFilter : Type := {
  filtersByParty : gmap string PartyFilter;
  filtersForAnyParty : option AnyPartyFilter
}.

Inductive ContractStatus : Type := StatusActive | StatusArchived | StatusAll.

Record ContractQuery : Type := {
  q_templateId : option TemplateId;
  q_partyId : option PartyId;
  q_status : option ContractStatus;
  q_fromOffset : option LedgerOffset;
  q_toOffset : option LedgerOffset;
  q_searchText : option string;
  q_limit : option Z
}.

Record LedgerEnd : Type := { le_offset : option LedgerOffset }.

Record ConnectionConfig : Type := {
  cfg_endpoint : string;
  authToken : option string;
  useTls : option bool;
  tlsCertPath : option string
}.

Record ConnectionStatus : Type := {
  connected : bool;
  endpoint : string;
  ledgerEnd : option LedgerOffset;
  participantId : option string;
  st_error : option string
}.

(** [types/scan.ts] *)
Record ScanEventSummary : Type := {
  template_id : option string;
  event_type : option string;
  ev_choice : option string
}.

(** [events_by_id] is a JavaScript object; it is kept as the list of its
    entries in the order [Object.values] enumerates them. *)
Record ScanUpdateSummary : Type := {
  update_id : string;
  record_time : string;
  migration_id : Z;
  synchronizer_id : string;
  root_event_ids : list string;
  events_by_id : option (list (string * ScanEventSummary))
}.

Record ScanEndpoint : Type := { publicUrl : string; svName : string }.
Record ScanDomainEntry : Type := { domainId : string; de_scans : list ScanEndpoint }.
Record ScanScansResponse : Type := { scans : option (list ScanDomainEntry) }.
Record ScanUpdatesResponse : Type := { transactions : option (list ScanUpdateSummary) }.

End Types.
Export Types.

(** ** The ledger client ([services/cantonClient.ts]) *)

Module CantonClient.

(** What [fetch] resolves to: the status line and the body, whose reading
    ([response.text()]) is itself an awaited step that may reject. *)
Record HttpResponse : Type := {
  status : Z;
  statusText : string;
  text : io string
}.

(** [response.ok] *)
Definition ok (r : HttpResponse) : bool :=
  bool_decide (200 <= status r <= 299).

(** The objects handed to [JSON.stringify] by the calls below (the
    constant [eventFormat: null] of the active-contracts request is left
    out). *)
Inductive RequestBody : Type :=
| ContractLookupBody (contractId : ContractId) (requestingParties : list PartyId)
| TransactionByIdBody (updateId : UpdateId) (requestingParties : list PartyId)
| ActiveContractsBody (filter : TransactionFilter) (verbose : bool)
                      (activeAtOffset : option LedgerOffset)
| UpdatesBody (filter : TransactionFilter) (beginExclusive : LedgerOffset)
              (endInclusive : option LedgerOffset) (verbose : bool).

Record HttpRequest : Type := {
  url : string;
  method : string;
  headers : list (string * string);
  body : option RequestBody
}.

(** An asynchronous call that awaits one [fetch]: the request it sends and
    the code that runs once the fetch has settled. *)
Record Call (T : Type) : Type := {
  call_request : HttpRequest;
  call_resume : io HttpResponse -> outcome T
}.
Arguments call_request {T} _.
Arguments call_resume {T} _ _.

(** Running a call to completion against a network. *)
Definition run {T} (fetch : HttpRequest -> io HttpResponse) (c : Call T) : outcome T :=
  call_resume c (fetch (call_request c)).

(** Code placed after [await c]. *)
Definition after {A B} (c : Call A) (k : outcome A -> outcome B) : Call B :=
  {| call_request := call_request c;
     call_resume := fun r => k (call_resume c r) |}.

(** [value as T]: a document handed on at the TypeScript type [T].  The
    cast does nothing at run time.  It gives the typed records that the
    store and the pages work with; whether a statement of the client
    throws, and which branch it takes, is decided on the document
    itself. *)
Class JsonType (T : Type) : Type := { of_json : JsonValue -> T }.

(** The two fields read from the parsed body of an error response. *)
Record ErrorJson : Type := {
  ej_message : option string;
  ej_error : option string
}.

Record Client : Type := {
  cl_endpoint : string;
  cl_headers : list (string * string)
}.

(** [constructor(config)] and [createCantonClient] *)
Definition createCantonClient (config : ConnectionConfig) : Client :=
  {| cl_endpoint := strip_trailing_slash (cfg_endpoint config);
     cl_headers :=
       ("Content-Type", "application/json") ::
       match truthy_string (authToken config) with
       | Some token => [("Authorization", "Bearer " +:+ token)]
       | None => []
       end |}.

(** Response shapes local to the client. *)
Record ContractEntry : Type := { createdEvent : option CreatedEvent }.

Record ActiveContractsStreamItem : Type := {
  aci_offset : LedgerOffset;
  aci_workflowId : option string;
  contractEntry : option ContractEntry
}.

Record TransactionsStreamItem : Type := {
  tsi_transaction : option Transaction
}.

(** [buildTransactionFilter(partyId, templateIds?)] *)
Definition buildTransactionFilter (partyId : PartyId)
    (templateIds : option (list TemplateId)) : TransactionFilter :=
  match templateIds with
  | None | Some [] =>
      {| filtersByParty := ∅;
         filtersForAnyParty :=
           Some {| apf_cumulative := [WildcardFilter (Some true)] |} |}
  | Some ids =>
      {| filtersByParty :=
           {[ partyId :=
                {| pf_cumulative :=
                     Some (map (fun templateId => TemplateFilter templateId (Some true)) ids) |} ]};
         filtersForAnyParty := None |}
  end.

(** [eventToContract(event, offset)]; [now] is the value of
    [new Date().toISOString()] at the call. *)
Definition eventToContract (now : string) (event : CreatedEvent)
    (offset : LedgerOffset) : Contract :=
  {| contractId := ev_contractId (created_base event);
     templateId := ev_templateId (created_base event);
     payload := createArguments event;
     stakeholders := (ev_signatories event ++ ev_observers event)%list;
     observers := ev_observers event;
     signatories := ev_signatories event;
     createdAt := now;
     offset := offset;
     contractKey := ev_contractKey event;
     createdEventBlob := ev_createdEventBlob event |}.

(** [array.slice(0, n)] for an integral [n]. *)
Definition slice0 {A} (n : Z) (l : list A) : list A :=
  if n <? 0 then take (Z.to_nat (Z.of_nat (length l) + n)) l
  else take (Z.to_nat n) l.

Section Methods.
Context `{!Engine}.
(** The first two statements of the [try] block of [request] on the body
    of a failed response: the body parsed and its [message] and [error]
    fields read; it fails when [JSON.parse] throws or yields [null]. *)
Context (parse_error_body : string -> io ErrorJson).
Context (this : Client).

(** The message given to the [CantonAPIError] of a failed response. *)
Definition errorMessage_of (errorBody statusText : string) : string :=
  match parse_error_body errorBody with
  | Ok errorJson =>
      or_string (ej_message errorJson) (or_string (ej_error errorJson) errorBody)
  | Fail _ => or_string (Some errorBody) statusText
  end.

(** The last three statements of [request]: an empty body is [{}], any
    other body is whatever [JSON.parse] makes of it. *)
Definition parse_body (text : string) : io JsonValue :=
  if String.eqb text "" then Ok (JObject []) else JSON_parse text.

(** The part of [request] that runs after [await fetch(url, ...)]. *)
Definition request_resume (path : string) (fetched : io HttpResponse)
    : outcome JsonValue :=
  response ← lift fetched;
  if negb (ok response) then
    errorBody ← lift (text response);
    let errorMessage := errorMessage_of errorBody (statusText response) in
    Throw (CantonAPIError (status response) errorMessage path)
  else
    text ← lift (text response);
    lift (parse_body text).

Definition request (path : string) (method : string)
    (body : option RequestBody) : Call JsonValue :=
  {| call_request :=
       {| url := cl_endpoint this +:+ path;
          method := method;
          headers := cl_headers this;
          body := body |};
     call_resume := request_resume path |}.

Definition get (path : string) : Call JsonValue :=
  request path "GET" None.

Definition post (path : string) (body : RequestBody) : Call JsonValue :=
  request path "POST" (Some body).

(** [ping()] *)
Definition ping : Call JsonValue :=
  get "/v2/state/ledger-end".

(** [getConnectionStatus()] *)
Definition getConnectionStatus `{!JsonType LedgerOffset} : Call ConnectionStatus :=
  after ping (fun pinged =>
    try_catch
      (ledgerEnd ← pinged;
       offset ← get_property ledgerEnd "offset";
       Return {| connected := true;
                 endpoint := cl_endpoint this;
                 ledgerEnd := of_json <$> offset;
                 participantId := None;
                 st_error := None |})
      (fun error =>
         Return {| connected := false;
                   endpoint := cl_endpoint this;
                   ledgerEnd := None;
                   participantId := None;
                   st_error := Some (message_or "Unknown error" error) |})).

(** [getParties()] *)
Definition getParties `{!JsonType (list Party)} : Call (list Party) :=
  after (get "/v2/parties") (fun got =>
    response ← got;
    partyDetails ← get_property response "partyDetails";
    Return match truthy_value partyDetails with
           | Some parties => of_json parties
           | None => []
           end).

(** The two spreads of [eventToContract], [[...event.signatories,
    ...event.observers]]: they throw unless both fields can be iterated.
    Nothing else in [eventToContract] can throw on an event that is not
    [null]. *)
Definition event_spreads (event : JsonValue) : outcome unit :=
  signatories ← get_property event "signatories";
  _ ← iterate "event.signatories" signatories;
  observers ← get_property event "observers";
  _ ← iterate "event.observers" observers;
  Return tt.

(** What the loops over a response stream see.  The response must be
    iterable.  For each item in turn, [body item] tells whether the loop
    body throws on it; if not, the loop goes on with the item read at its
    type.  The loops have no effect but on their local result, so a throw
    discards what was collected. *)
Definition stream_items {Item} `{!JsonType Item} (body : JsonValue -> outcome unit)
    (response : JsonValue) : outcome (list Item) :=
  items ← iterate "response" (Some response);
  mapM (fun item => _ ← body item; Return (of_json item)) items.

(** The statements of the loop body of [getActiveContracts] that can
    throw: the read of [item.contractEntry], and the spreads when the
    item carries a created event. *)
Definition contract_item (item : JsonValue) : outcome unit :=
  contractEntry ← get_property item "contractEntry";
  match truthy_value (optional_property contractEntry "createdEvent") with
  | Some event => event_spreads event
  | None => Return tt
  end.

(** The statement of the loop body of [getTransactions] that can throw:
    the read of [item.transaction]. *)
Definition transaction_item (item : JsonValue) : outcome unit :=
  _ ← get_property item "transaction"; Return tt.

(** The loop of [getActiveContracts] over the response; [clock k] is
    the reading of [new Date()] taken for the [k]-th contract pushed. *)
Definition collect_contracts (clock : nat -> string)
    (response : list ActiveContractsStreamItem) : list Contract :=
  fold_left
    (fun contracts item =>
       match contractEntry item ≫= createdEvent with
       | Some event =>
           (contracts ++
              [eventToContract (clock (length contracts)) event (aci_offset item)])%list
       | None => contracts
       end)
    response [].

(** [getActiveContracts(partyId, options)] *)
Definition getActiveContracts `{!JsonType ActiveContractsStreamItem}
    (clock : nat -> string) (partyId : PartyId)
    (templateIds : option (list TemplateId)) (offset : option LedgerOffset)
    (verbose : option bool) : Call (list Contract) :=
  let filter := buildTransactionFilter partyId templateIds in
  after
    (post "/v2/state/active-contracts"
          (ActiveContractsBody filter (default false verbose) offset))
    (fun posted =>
       response ← posted;
       items ← stream_items contract_item response;
       Return (collect_contracts clock items)).

(** [getContract(contractId, partyId)] *)
Definition getContract `{!JsonType CreatedEvent}
    (now : string) (contractId : ContractId) (partyId : PartyId)
    : Call (option Contract) :=
  after
    (post "/v2/events/contract" (ContractLookupBody contractId [partyId]))
    (fun posted =>
       try_catch
         (response ← posted;
          created ← get_property response "created";
          match truthy_value created with
          | Some created =>
              let ev : CreatedEvent := of_json created in
              _ ← event_spreads created;
              Return (Some (eventToContract now ev (ev_offset (created_base ev))))
          | None => Return None
          end)
         (fun error =>
            if is_not_found error then Return None else Throw error)).

(** [getTransactions(partyId, options)] *)
Definition getTransactions `{!JsonType TransactionsStreamItem}
    (partyId : PartyId) (templateIds : option (list TemplateId))
    (beginOffset endOffset : option LedgerOffset) (limit : option Z)
    : Call (list Transaction) :=
  let filter := buildTransactionFilter partyId templateIds in
  after
    (post "/v2/updates/transactions"
          (UpdatesBody filter (default 0 beginOffset) endOffset true))
    (fun posted =>
       response ← posted;
       items ← stream_items transaction_item response;
       let transactions := omap tsi_transaction items in
       Return match limit with
              | Some n => if n =? 0 then transactions else slice0 n transactions
              | None => transactions
              end).

(** [getTransaction(updateId, partyId)]: the document is returned as
    it is, [JNull] being [null]. *)
Definition getTransaction (updateId : UpdateId) (partyId : PartyId)
    : Call JsonValue :=
  after
    (post "/v2/updates/transaction-by-id" (TransactionByIdBody updateId [partyId]))
    (fun posted =>
       try_catch posted
         (fun error =>
            if is_not_found error then Return JNull else Throw error)).

(** [getPackage(packageId)]: the document is returned as it is. *)
Definition getPackage (packageId : PackageId) : Call JsonValue :=
  after
    (get ("/v2/packages/" +:+ packageId))
    (fun got =>
       try_catch got
         (fun error =>
            if is_not_found error then Return JNull else Throw error)).

End Methods.

End CantonClient.

(** ** The party-scoped projection store ([services/store.ts]) *)

Module Store.
Import CantonClient.

Inductive Page : Type :=
| PageDashboard | PageContracts | PageTransactions | PageTemplates | PageHealth.

Record SavedFilter : Type := {
  sf_id : string;
  sf_name : string;
  sf_query : ContractQuery;
  sf_createdAt : string
}.

Record UIState : Type := {
  currentPage : Page;
  contractFilters : ContractQuery;
  savedFilters : list SavedFilter;
  searchQuery : string;
  sidebarOpen : bool;
  darkMode : bool
}.

(** The scan client keeps only its base URL; the two cached scan
    responses are opaque to the store. *)
Record ScanState : Type := {
  scanConfig_url : string;
  scanConfig_memberId : string;
  scanClient : option string;
  trafficStatus : option JsonValue;
  miningRounds : option JsonValue;
  isScanLoading : bool;
  scanError : option string
}.

(** [StoreState]: the fields of [ConnectionState], [PartyLensState] and
    [DataState], then the UI and scan slices. *)
Record State : Type := {
  config : option ConnectionConfig;
  status : ConnectionStatus;
  client : option Client;
  activeParty : option Party;
  availableParties : list Party;
  viewAsObserver : bool;
  contracts : gmap string Contract;
  transactions : list Transaction;
  templates : gmap string Template;
  lastOffset : LedgerOffset;
  isLoading : bool;
  error : option string;
  ui : UIState;
  scan : ScanState
}.

(** zustand's [set(partial)] merges the given fields into the current
    state; one field update per function, composed at the call sites. *)
Definition set_config v (s : State) : State :=
  {| config := v; status := status s; client := client s;
     activeParty := activeParty s; availableParties := availableParties s;
     viewAsObserver := viewAsObserver s; contracts := contracts s;
     transactions := transactions s; templates := templates s;
     lastOffset := lastOffset s; isLoading := isLoading s; error := error s;
     ui := ui s; scan := scan s |}.

Definition set_status v (s : State) : State :=
  {| config := config s; status := v; client := client s;
     activeParty := activeParty s; availableParties := availableParties s;
     viewAsObserver := viewAsObserver s; contracts := contracts s;
     transactions := transactions s; templates := templates s;
     lastOffset := lastOffset s; isLoading := isLoading s; error := error s;
     ui := ui s; scan := scan s |}.

Definition set_client v (s : State) : State :=
  {| config := config s; status := status s; client := v;
     activeParty := activeParty s; availableParties := availableParties s;
     viewAsObserver := viewAsObserver s; contracts := contracts s;
     transactions := transactions s; templates := templates s;
     lastOffset := lastOffset s; isLoading := isLoading s; error := error s;
     ui := ui s; scan := scan s |}.

Definition set_activeParty v (s : State) : State :=
  {| config := config s; status := status s; client := client s;
     activeParty := v; availableParties := availableParties s;
     viewAsObserver := viewAsObserver s; contracts := contracts s;
     transactions := transactions s; templates := templates s;
     lastOffset := lastOffset s; isLoading := isLoading s; error := error s;
     ui := ui s; scan := scan s |}.

Definition set_availableParties v (s : State) : State :=
  {| config := config s; status := status s; client := client s;
     activeParty := activeParty s; availableParties := v;
     viewAsObserver := viewAsObserver s; contracts := contracts s;
     transactions := transactions s; templates := templates s;
     lastOffset := lastOffset s; isLoading := isLoading s; error := error s;
     ui := ui s; scan := scan s |}.

Definition set_contracts v (s : State) : State :=
  {| config := config s; status := status s; client := client s;
     activeParty := activeParty s; availableParties := availableParties s;
     viewAsObserver := viewAsObserver s; contracts := v;
     transactions := transactions s; templates := templates s;
     lastOffset := lastOffset s; isLoading := isLoading s; error := error s;
     ui := ui s; scan := scan s |}.

Definition set_transactions v (s : State) : State :=
  {| config := config s; status := status s; client := client s;
     activeParty := activeParty s; availableParties := availableParties s;
     viewAsObserver := viewAsObserver s; contracts := contracts s;
     transactions := v; templates := templates s;
     lastOffset := lastOffset s; isLoading := isLoading s; error := error s;
     ui := ui s; scan := scan s |}.

Definition set_lastOffset v (s : State) : State :=
  {| config := config s; status := status s; client := client s;
     activeParty := activeParty s; availableParties := availableParties s;
     viewAsObserver := viewAsObserver s; contracts := contracts s;
     transactions := transactions s; templates := templates s;
     lastOffset := v; isLoading := isLoading s; error := error s;
     ui := ui s; scan := scan s |}.

Definition set_isLoading v (s : State) : State :=
  {| config := config s; status := status s; client := client s;
     activeParty := activeParty s; availableParties := availableParties s;
     viewAsObserver := viewAsObserver s; contracts := contracts s;
     transactions := transactions s; templates := templates s;
     lastOffset := lastOffset s; isLoading := v; error := error s;
     ui := ui s; scan := scan s |}.

Definition set_error v (s : State) : State :=
  {| config := config s; status := status s; client := client s;
     activeParty := activeParty s; availableParties := availableParties s;
     viewAsObserver := viewAsObserver s; contracts := contracts s;
     transactions := transactions s; templates := templates s;
     lastOffset := lastOffset s; isLoading := isLoading s; error := v;
     ui := ui s; scan := scan s |}.

(** *** Initial state *)

Definition initialStatus : ConnectionStatus :=
  {| connected := false; endpoint := ""; ledgerEnd := None;
     participantId := None; st_error := None |}.

Definition emptyQuery : ContractQuery :=
  {| q_templateId := None; q_partyId := None; q_status := None;
     q_fromOffset := None; q_toOffset := None; q_searchText := None;
     q_limit := None |}.

Definition initialUIState : UIState :=
  {| currentPage := PageDashboard; contractFilters := emptyQuery;
     savedFilters := []; searchQuery := ""; sidebarOpen := true;
     darkMode := false |}.

Definition initialScanState : ScanState :=
  {| scanConfig_url := "https://scan.sv-1.global.canton.network.sync.global/api/scan";
     scanConfig_memberId := ""; scanClient := None; trafficStatus := None;
     miningRounds := None; isScanLoading := false; scanError := None |}.

Definition initialState : State :=
  {| config := None; status := initialStatus; client := None;
     activeParty := None; availableParties := []; viewAsObserver := false;
     contracts := ∅; transactions := []; templates := ∅; lastOffset := 0;
     isLoading := false; error := None;
     ui := initialUIState; scan := initialScanState |}.

(** *** Connection actions *)

(** [connect(config)].  [statusResult] is what awaiting
    [client.getConnectionStatus()] yields and [partiesResult] what
    awaiting [client.getParties()] yields, should it be reached.  The
    boolean is the value the promise resolves to. *)
Definition connect (config : ConnectionConfig)
    (statusResult : outcome ConnectionStatus)
    (partiesResult : outcome (list Party)) (s : State) : State * bool :=
  let client := createCantonClient config in
  let s := set_error None (set_isLoading true s) in
  let attempt : outcome (State * bool) :=
    status ← statusResult;
    if negb (connected status) then
      Return (set_isLoading false
                (set_error (Some (or_string (st_error status) "Failed to connect"))
                   (set_status status s)),
              false)
    else
      parties ← partiesResult;
      Return (set_error None
                (set_isLoading false
                   (set_availableParties parties
                      (set_status status
                         (set_client (Some client)
                            (set_config (Some config) s))))),
              true) in
  match attempt with
  | Return r => r
  | Throw error =>
      let errorMessage := message_or "Connection failed" error in
      (set_isLoading false
         (set_error (Some errorMessage)
            (set_status {| connected := false; endpoint := cfg_endpoint config;
                           ledgerEnd := None; participantId := None;
                           st_error := Some errorMessage |} s)),
       false)
  end.

(** [connect] against a network answering each request. *)
Definition connect_over `{!Engine} `{!JsonType LedgerOffset} `{!JsonType (list Party)}
    (parse_error_body : string -> io ErrorJson)
    (fetch : HttpRequest -> io HttpResponse)
    (config : ConnectionConfig) (s : State) : State * bool :=
  let client := createCantonClient config in
  connect config
    (run fetch (getConnectionStatus parse_error_body client))
    (run fetch (getParties parse_error_body client)) s.

(** [disconnect()] *)
Definition disconnect (s : State) : State :=
  {| config := None; status := initialStatus; client := None;
     activeParty := None; availableParties := []; viewAsObserver := false;
     contracts := ∅; transactions := []; templates := ∅; lastOffset := 0;
     isLoading := false; error := None;
     ui := ui s; scan := scan s |}.

(** *** Data actions

    Each load runs in two atomic pieces: the part before the [await]
    (which may return at once, or raises the loading flag and sends one
    client call) and the part after it, run on the state current when
    the call settles. *)

(** A client call the store is awaiting, with the constants its
    continuation has captured. *)
Inductive Pending : Type :=
| AwaitActiveContracts (partyId : PartyId) (templateIds : option (list TemplateId))
                       (offset : option LedgerOffset)
| AwaitTransactions (partyId : PartyId) (limit : Z) (lastOffset : LedgerOffset).

(** [loadContracts(query?)] up to [await client.getActiveContracts(...)] *)
Definition loadContracts_begin (query : option ContractQuery) (s : State)
    : State * option Pending :=
  match client s, activeParty s with
  | Some _, Some activeParty =>
      (set_error None (set_isLoading true s),
       Some (AwaitActiveContracts (partyId activeParty)
               (match truthy_string (query ≫= q_templateId) with
                | Some templateId => Some [templateId]
                | None => None
                end)
               (query ≫= q_fromOffset)))
  | _, _ => (s, None)
  end.

(** [for (const contract of contracts) contractMap.set(contract.contractId, contract)] *)
Definition contractMap (contracts : list Contract) : gmap string Contract :=
  fold_left (fun m contract => <[contractId contract := contract]> m) contracts ∅.

(** [loadContracts] from the point where the client call has settled. *)
Definition loadContracts_resume (result : outcome (list Contract)) (s : State) : State :=
  match result with
  | Return contracts =>
      set_isLoading false (set_contracts (contractMap contracts) s)
  | Throw error =>
      set_isLoading false
        (set_error (Some (message_or "Failed to load contracts" error)) s)
  end.

(** [loadTransactions(limit = 100)] up to [await client.getTransactions(...)] *)
Definition loadTransactions_begin (limit : option Z) (s : State)
    : State * option Pending :=
  match client s, activeParty s with
  | Some _, Some activeParty =>
      (set_error None (set_isLoading true s),
       Some (AwaitTransactions (partyId activeParty) (default 100 limit) (lastOffset s)))
  | _, _ => (s, None)
  end.

(** [Math.max(...offsets)] of a non-empty array *)
Definition max_offset (first : LedgerOffset) (rest : list LedgerOffset) : LedgerOffset :=
  fold_left Z.max rest first.

(** [loadTransactions] from the point where the client call has settled;
    [lastOffset] is the value read before the call was sent. *)
Definition loadTransactions_resume (lastOffset : LedgerOffset)
    (result : outcome (list Transaction)) (s : State) : State :=
  match result with
  | Return transactions =>
      let newLastOffset :=
        match map tx_offset transactions with
        | first :: rest => max_offset first rest
        | [] => lastOffset
        end in
      set_isLoading false
        (set_lastOffset newLastOffset (set_transactions transactions s))
  | Throw error =>
      set_isLoading false
        (set_error (Some (message_or "Failed to load transactions" error)) s)
  end.

(** The loads run without anything else scheduled in between. *)
Definition loadContracts (query : option ContractQuery)
    (result : outcome (list Contract)) (s : State) : State :=
  match loadContracts_begin query s with
  | (s', Some _) => loadContracts_resume result s'
  | (s', None) => s'
  end.

Definition loadTransactions (limit : option Z)
    (result : outcome (list Transaction)) (s : State) : State :=
  match loadTransactions_begin limit s with
  | (s', Some (AwaitTransactions _ _ lastOffset)) =>
      loadTransactions_resume lastOffset result s'
  | (s', _) => s'
  end.

(** *** The store together with its in-flight client calls *)

Record System : Type := {
  store : State;
  inflight : gmap nat Pending;
  next_id : nat
}.

Definition with_store (s : State) (sys : System) : System :=
  {| store := s; inflight := inflight sys; next_id := next_id sys |}.

(** Record a call that has just been sent (none when the action returned
    before its [await]). *)
Definition spawn (r : State * option Pending) (sys : System) : System :=
  match r with
  | (s, Some p) =>
      {| store := s; inflight := <[next_id sys := p]> (inflight sys);
         next_id := S (next_id sys) |}
  | (s, None) => with_store s sys
  end.

(** [refreshData()]: both loads are started, in this order, before
    either call settles. *)
Definition refreshData (sys : System) : System :=
  match activeParty (store sys) with
  | None => sys
  | Some _ =>
      let sys := spawn (loadContracts_begin None (store sys)) sys in
      spawn (loadTransactions_begin None (store sys)) sys
  end.

(** [setActiveParty(party)] *)
Definition setActiveParty (party : Party) (sys : System) : System :=
  refreshData (with_store (set_activeParty (Some party) (store sys)) sys).

(** What can happen next: a store action is invoked, or an awaited
    client call settles. *)
Inductive Trigger : Type :=
| SetActiveParty (party : Party)
| RefreshData
| LoadContracts (query : option ContractQuery)
| LoadTransactions (limit : option Z)
| Disconnect
| ContractsSettled (id : nat) (result : outcome (list Contract))
| TransactionsSettled (id : nat) (result : outcome (list Transaction)).

Definition settle (id : nat) (k : Pending -> option (State -> State))
    (sys : System) : System :=
  match inflight sys !! id ≫= k with
  | Some continue =>
      {| store := continue (store sys);
         inflight := delete id (inflight sys);
         next_id := next_id sys |}
  | None => sys
  end.

Definition step (ev : Trigger) (sys : System) : System :=
  match ev with
  | SetActiveParty party => setActiveParty party sys
  | RefreshData => refreshData sys
  | LoadContracts query => spawn (loadContracts_begin query (store sys)) sys
  | LoadTransactions limit => spawn (loadTransactions_begin limit (store sys)) sys
  | Disconnect => with_store (disconnect (store sys)) sys
  | ContractsSettled id result =>
      settle id (fun p => match p with
                          | AwaitActiveContracts _ _ _ => Some (loadContracts_resume result)
                          | AwaitTransactions _ _ _ => None
                          end) sys
  | TransactionsSettled id result =>
      settle id (fun p => match p with
                          | AwaitTransactions _ _ lastOffset =>
                              Some (loadTransactions_resume lastOffset result)
                          | AwaitActiveContracts _ _ _ => None
                          end) sys
  end.

Definition run_events (evs : list Trigger) (sys : System) : System :=
  fold_left (fun sys ev => step ev sys) evs sys.

End Store.

(** ** The network explorer ([pages/ScanExplorer.tsx]) *)

Module ScanExplorer.

Record TransferEvent : Type := {
  te_updateId : string;
  label : string;
  age : string
}.

(** [formatAge(isoTime)].  [now] is the reading of [Date.now()] and
    [time] the value of [new Date(isoTime).getTime()], both in
    milliseconds; [None] is the [NaN] of an unparseable date, which fails
    every comparison and is printed by the last template. *)
Definition formatAge (now : Z) (time : option Z) : string :=
  match time with
  | None => "NaNd ago"
  | Some t =>
      let diff := now - t in
      let seconds := Z.max 0 (diff / 1000) in
      if seconds <? 60 then pretty seconds +:+ "s ago"
      else
        let minutes := seconds / 60 in
        if minutes <? 60 then pretty minutes +:+ "m ago"
        else
          let hours := minutes / 60 in
          if hours <? 24 then pretty hours +:+ "h ago"
          else
            let days := hours / 24 in
            pretty days +:+ "d ago"
  end.

(** [event.choice || event.template_id?.split(':').pop() || ''] *)
Definition event_label (event : ScanEventSummary) : string :=
  or_string (ev_choice event)
    (or_string (split_pop ":"%char <$> template_id event) "").

Section Transfers.
(** [Date_parse] stands for [new Date(s).getTime()]; [Date_now k] is
    the reading of [Date.now()] made for the [k]-th transfer pushed. *)
Context (Date_parse : string -> option Z) (Date_now : nat -> Z).

(** The body of the inner [forEach]. *)
Definition visit_event (update : ScanUpdateSummary)
    (transfers : list TransferEvent) (event : ScanEventSummary)
    : list TransferEvent :=
  let label := event_label event in
  if String.eqb label "" then transfers
  else if negb (includes "transfer" (toLowerCase label)) then transfers
  else
    (transfers ++
       [{| te_updateId := update_id update;
           label := label;
           age := formatAge (Date_now (length transfers))
                            (Date_parse (record_time update)) |}])%list.

(** The body of the outer [forEach]. *)
Definition visit_update (transfers : list TransferEvent)
    (update : ScanUpdateSummary) : list TransferEvent :=
  fold_left (visit_event update)
            (map snd (or_empty (events_by_id update))) transfers.

(** [extractTransfers(updates)] *)
Definition extractTransfers (updates : list ScanUpdateSummary)
    : list TransferEvent :=
  take 8 (fold_left visit_update updates []).

End Transfers.

(** [PromiseSettledResult<T>]; the rejection reason is never read. *)
Inductive Settled (T : Type) : Type :=
| Fulfilled (value : T)
| Rejected.
Arguments Fulfilled {T} value.
Arguments Rejected {T}.

Definition is_rejected {T} (r : Settled T) : bool :=
  match r with
  | Rejected => true
  | Fulfilled _ => false
  end.

(** [getVal(result, defaultVal)] *)
Definition getVal {T} (result : Settled T) (defaultVal : T) : T :=
  match result with
  | Fulfilled value => value
  | Rejected => defaultVal
  end.

Section Explorer.
Context `{!Engine}.

(** The [useState] cells of the component that [fetchExplorerData]
    writes.  The eight data cells hold what the responses carried: the
    page assigns them without a check, so they are kept as documents
    ([JNull] is [null], [JArray []] is [[]]). *)
Record View : Type := {
  v_scans : JsonValue;
  updates : JsonValue;
  stats : JsonValue;
  price : JsonValue;
  cantonScanUpdates : JsonValue;
  activityHistory : JsonValue;
  priceHistory : JsonValue;
  validators : JsonValue;
  isLoading : bool;
  error : option string
}.

(** The array [Promise.allSettled] resolves to, in call order; each
    fulfilled call carries the document [response.json()] gave. *)
Record Results : Type := {
  r_scans : Settled JsonValue;
  r_updates : Settled JsonValue;
  r_stats : Settled JsonValue;
  r_price : Settled JsonValue;
  r_publicUpdates : Settled JsonValue;
  r_activity : Settled JsonValue;
  r_priceHistory : Settled JsonValue;
  r_validators : Settled JsonValue
}.

(** [res.p || []] *)
Definition list_field (res : JsonValue) (p : string) : outcome JsonValue :=
  field ← get_property res p;
  Return (or_value field (JArray [])).

(** [Array.isArray(validatorsRes) ? validatorsRes
      : validatorsRes.data || validatorsRes.validators || []] *)
Definition validatorList (validatorsRes : JsonValue) : outcome JsonValue :=
  match validatorsRes with
  | JArray _ => Return validatorsRes
  | _ =>
      data ← get_property validatorsRes "data";
      match truthy_value data with
      | Some data => Return data
      | None => list_field validatorsRes "validators"
      end
  end.

(** The state setters returned by [useState]. *)
Definition setScans x (v : View) : View :=
  {| v_scans := x; updates := updates v; stats := stats v; price := price v;
     cantonScanUpdates := cantonScanUpdates v;
     activityHistory := activityHistory v; priceHistory := priceHistory v;
     validators := validators v; isLoading := isLoading v; error := error v |}.
Definition setUpdates x (v : View) : View :=
  {| v_scans := v_scans v; updates := x; stats := stats v; price := price v;
     cantonScanUpdates := cantonScanUpdates v;
     activityHistory := activityHistory v; priceHistory := priceHistory v;
     validators := validators v; isLoading := isLoading v; error := error v |}.
Definition setStats x (v : View) : View :=
  {| v_scans := v_scans v; updates := updates v; stats := x; price := price v;
     cantonScanUpdates := cantonScanUpdates v;
     activityHistory := activityHistory v; priceHistory := priceHistory v;
     validators := validators v; isLoading := isLoading v; error := error v |}.
Definition setPrice x (v : View) : View :=
  {| v_scans := v_scans v; updates := updates v; stats := stats v; price := x;
     cantonScanUpdates := cantonScanUpdates v;
     activityHistory := activityHistory v; priceHistory := priceHistory v;
     validators := validators v; isLoading := isLoading v; error := error v |}.
Definition setCantonScanUpdates x (v : View) : View :=
  {| v_scans := v_scans v; updates := updates v; stats := stats v; price := price v;
     cantonScanUpdates := x;
     activityHistory := activityHistory v; priceHistory := priceHistory v;
     validators := validators v; isLoading := isLoading v; error := error v |}.
Definition setActivityHistory x (v : View) : View :=
  {| v_scans := v_scans v; updates := updates v; stats := stats v; price := price v;
     cantonScanUpdates := cantonScanUpdates v;
     activityHistory := x; priceHistory := priceHistory v;
     validators := validators v; isLoading := isLoading v; error := error v |}.
Definition setPriceHistory x (v : View) : View :=
  {| v_scans := v_scans v; updates := updates v; stats := stats v; price := price v;
     cantonScanUpdates := cantonScanUpdates v;
     activityHistory := activityHistory v; priceHistory := x;
     validators := validators v; isLoading := isLoading v; error := error v |}.
Definition setValidators x (v : View) : View :=
  {| v_scans := v_scans v; updates := updates v; stats := stats v; price := price v;
     cantonScanUpdates := cantonScanUpdates v;
     activityHistory := activityHistory v; priceHistory := priceHistory v;
     validators := x; isLoading := isLoading v; error := error v |}.
Definition setIsLoading x (v : View) : View :=
  {| v_scans := v_scans v; updates := updates v; stats := stats v; price := price v;
     cantonScanUpdates := cantonScanUpdates v;
     activityHistory := activityHistory v; priceHistory := priceHistory v;
     validators := validators v; isLoading := x; error := error v |}.
Definition setError x (v : View) : View :=
  {| v_scans := v_scans v; updates := updates v; stats := stats v; price := price v;
     cantonScanUpdates := cantonScanUpdates v;
     activityHistory := activityHistory v; priceHistory := priceHistory v;
     validators := validators v; isLoading := isLoading v; error := x |}.

(** A statement that computes a value and hands it to a setter; when
    the computation throws, the setter is not called. *)
Definition assign (value : outcome JsonValue) (setter : JsonValue -> View -> View)
    (v : View) : outcome View :=
  x ← value; Return (setter x v).

(** Statements run in order, each in the view the ones before it left;
    the first that throws ends the block, and the view stays as it was
    at that point. *)
Fixpoint block (statements : list (View -> outcome View)) (v : View)
    : View * outcome unit :=
  match statements with
  | [] => (v, Return tt)
  | statement :: rest =>
      match statement v with
      | Return v' => block rest v'
      | Throw err => (v, Throw err)
      end
  end.

(** The [try] block of [fetchExplorerData], from the point where
    [Promise.allSettled] has resolved: the view after the setter calls
    made so far, and whether the block completed or threw. *)
Definition fetchExplorerData_try (results : Results) : View -> View * outcome unit :=
  block
    [ assign (list_field (getVal (r_scans results) (JObject [("scans", JArray [])]))
                         "scans")
             setScans;
      assign (list_field (getVal (r_updates results)
                                 (JObject [("transactions", JArray [])]))
                         "transactions")
             setUpdates;
      assign (Return (getVal (r_stats results) JNull)) setStats;
      assign (Return (getVal (r_price results) JNull)) setPrice;
      assign (Return (getVal (r_publicUpdates results) JNull)) setCantonScanUpdates;
      assign (list_field (getVal (r_activity results) (JObject [("data", JArray [])]))
                         "data")
             setActivityHistory;
      assign (list_field (getVal (r_priceHistory results)
                                 (JObject [("data", JArray [])]))
                         "data")
             setPriceHistory;
      assign (validatorList (getVal (r_validators results)
                                    (JObject [("validators", JArray [])])))
             setValidators;
      fun v =>
        if (is_rejected (r_scans results) && is_rejected (r_updates results))%bool
        then Throw (Native (NativeError
               "Could not connect to Scan API. Please check your network or URL."))
        else Return v ].

(** [fetchExplorerData()] *)
Definition fetchExplorerData (results : Results) (v : View) : View :=
  let v := setIsLoading true v in
  let v := setError None v in
  let '(v, attempt) := fetchExplorerData_try results v in
  let v :=
    match attempt with
    | Return _ => v
    | Throw err => setError (Some (message_or "Failed to fetch Scan data" err)) v
    end in
  setIsLoading false v.

End Explorer.

End ScanExplorer.

(** ** The remaining client calls ([services/cantonClient.ts]) *)

Module ClientRest.
Import CantonClient.

Section Methods.
Context `{!Engine}.
Context (parse_error_body : string -> io ErrorJson).


(** [testConnection(endpoint, authToken?)] *)
Definition testConnection `{!JsonType LedgerOffset} (endpoint : string)
    (authToken : option string) : Call ConnectionStatus :=
  let client :=
    createCantonClient {| cfg_endpoint := endpoint; authToken := authToken;
                          useTls := None; tlsCertPath := None |} in
  getConnectionStatus parse_error_body client.

End Methods.

End ClientRest.

(** ** The remaining store actions ([services/store.ts]) *)

Module StoreRest.
Import CantonClient Store.

Definition set_savedFilters v (u : UIState) : UIState :=
  {| currentPage := currentPage u; contractFilters := contractFilters u;
     savedFilters := v; searchQuery := searchQuery u;
     sidebarOpen := sidebarOpen u; darkMode := darkMode u |}.

Definition set_ui v (s : State) : State :=
  {| config := config s; status := status s; client := client s;
     activeParty := activeParty s; availableParties := availableParties s;
     viewAsObserver := viewAsObserver s; contracts := contracts s;
     transactions := transactions s; templates := templates s;
     lastOffset := lastOffset s; isLoading := isLoading s; error := error s;
     ui := v; scan := scan s |}.

(** [getContract(contractId)]: [get().contracts.get(contractId)] *)
Definition getContract (contractId : ContractId) (s : State) : option Contract :=
  contracts s !! contractId.

(** [saveFilter(name, query)]; [uuid] is the value of
    [crypto.randomUUID()] and [now] that of [new Date().toISOString()]. *)
Definition saveFilter (uuid now : string) (name : string) (query : ContractQuery)
    (s : State) : State :=
  let newFilter :=
    {| sf_id := uuid; sf_name := name; sf_query := query; sf_createdAt := now |} in
  set_ui (set_savedFilters (savedFilters (ui s) ++ [newFilter])%list (ui s)) s.

(** [deleteFilter(id)] *)
Definition deleteFilter (id : string) (s : State) : State :=
  set_ui
    (set_savedFilters
       (List.filter (fun f => negb (String.eqb (sf_id f) id)) (savedFilters (ui s)))
       (ui s))
    s.

End StoreRest.

(** ** The remaining helpers of the network explorer ([pages/ScanExplorer.tsx]) *)

Module ExplorerRest.
Import ScanExplorer.

(** [s.slice(-n)] for a count [n]: the last [n] characters, and the whole
    string when [n] is zero or exceeds the length. *)
Definition slice_from_end (n : nat) (s : string) : string :=
  if Nat.eqb n 0 then s
  else String.substring (String.length s - n) n s.

(** [formatShortId(id, head = 10, tail = 8)]; lengths are counted in
    characters of the identifier, which are ASCII. *)
Definition formatShortId (id : string) (head tail : nat) : string :=
  if Nat.leb (String.length id) (head + tail) then id
  else String.substring 0 head id +:+ "..." +:+ slice_from_end tail id.

Record UpdateDigest : Type := {
  labels : list string;
  extraCount : Z;
  totalEvents : Z
}.

(** [events_by_id?.[id]]: the entry stored under the key [id] (event
    identifiers never name a property inherited from [Object.prototype]). *)
Definition event_at (update : ScanUpdateSummary) (id : string)
    : option ScanEventSummary :=
  entries ← events_by_id update;
  snd <$> List.find (fun entry => String.eqb (fst entry) id) entries.

(** [event.choice || event.template_id?.split(':').pop() || 'Event'] *)
Definition digest_label (event : ScanEventSummary) : string :=
  or_string (ev_choice event)
    (or_string (split_pop ":"%char <$> template_id event) "Event").

(** [summarizeUpdate(update)] *)
Definition summarizeUpdate (update : ScanUpdateSummary) : UpdateDigest :=
  let eventIds := root_event_ids update in
  let events := map digest_label (omap (event_at update) eventIds) in
  let totalEvents := Z.of_nat (length (or_empty (events_by_id update))) in
  {| labels := take 3 events;
     extraCount := Z.max 0 (totalEvents - Z.of_nat (length (take 3 events)));
     totalEvents := totalEvents |}.

End ExplorerRest.

(** ** Template statistics ([pages/Templates.tsx]) *)

Module TemplatesPage.

(** [s.split(sep)] for a one-character separator. *)
Fixpoint split_from (sep : ascii) (seg : string) (s : string) : list string :=
  match s with
  | EmptyString => [String.rev seg]
  | String c rest =>
      if Ascii.eqb c sep then String.rev seg :: split_from sep EmptyString rest
      else split_from sep (String c seg) rest
  end.

Definition split (sep : ascii) (s : string) : list string :=
  split_from sep EmptyString s.

(** The entries of the [stats] map; the map itself is kept as the list of
    its values in insertion order, keyed by [ts_templateId]. *)
Record TemplateStat : Type := {
  ts_templateId : string;
  ts_packageId : string;
  ts_moduleName : string;
  ts_templateName : string;
  count : Z;
  uniqueStakeholders : gset string
}.

(** The entry created for the first contract of a template. *)
Definition first_seen (contract : Contract) : TemplateStat :=
  let parts := split ":"%char (templateId contract) in
  {| ts_templateId := templateId contract;
     ts_packageId := or_string (parts !! 0%nat) "";
     ts_moduleName := or_string (parts !! 1%nat) "";
     ts_templateName := or_string (parts !! 2%nat) (or_string (last parts) "");
     count := 1;
     uniqueStakeholders := list_to_set (stakeholders contract) |}.

(** [existing.count++] and the additions to [existing.uniqueStakeholders]. *)
Definition seen_again (contract : Contract) (existing : TemplateStat) : TemplateStat :=
  {| ts_templateId := ts_templateId existing;
     ts_packageId := ts_packageId existing;
     ts_moduleName := ts_moduleName existing;
     ts_templateName := ts_templateName existing;
     count := count existing + 1;
     uniqueStakeholders :=
       uniqueStakeholders existing ∪ list_to_set (stakeholders contract) |}.

(** The body of [contracts.forEach]: look the template up, update its
    entry in place or append a new one. *)
Fixpoint record_contract (contract : Contract) (stats : list TemplateStat)
    : list TemplateStat :=
  match stats with
  | [] => [first_seen contract]
  | existing :: rest =>
      if String.eqb (ts_templateId existing) (templateId contract)
      then seen_again contract existing :: rest
      else existing :: record_contract contract rest
  end.

Definition tally (contracts : list Contract) : list TemplateStat :=
  fold_left (fun stats contract => record_contract contract stats) contracts [].

(** [sort((a, b) => b.count - a.count)]: [Array.prototype.sort] is stable,
    so the result is the one stable arrangement by decreasing count. *)
Fixpoint insert_by_count (x : TemplateStat) (sorted : list TemplateStat)
    : list TemplateStat :=
  match sorted with
  | [] => [x]
  | y :: rest =>
      if count x <? count y then y :: insert_by_count x rest
      else x :: y :: rest
  end.

Definition sort_by_count (stats : list TemplateStat) : list TemplateStat :=
  foldr insert_by_count [] stats.

(** [templateStats] *)
Definition templateStats (contracts : list Contract) : list TemplateStat :=
  sort_by_count (tally contracts).

(** The body of [templateStats.forEach] in [packageGroups]. *)
Fixpoint add_to_group (template : TemplateStat)
    (groups : list (string * list TemplateStat))
    : list (string * list TemplateStat) :=
  match groups with
  | [] => [(ts_packageId template, [template])]
  | (packageId, members) :: rest =>
      if String.eqb packageId (ts_packageId template)
      then (packageId, (members ++ [template])%list) :: rest
      else (packageId, members) :: add_to_group template rest
  end.

(** [packageGroups]: [Array.from(groups.entries())] *)
Definition packageGroups (stats : list TemplateStat)
    : list (string * list TemplateStat) :=
  fold_left (fun groups template => add_to_group template groups) stats [].

End TemplatesPage.

(** ** Paging of the contracts grid ([pages/ContractsBrowser.tsx]) *)

Module ContractsBrowser.

(** [array.slice(start, end)] for integral bounds. *)
Definition slice {A} (start stop : Z) (l : list A) : list A :=
  let len := Z.of_nat (length l) in
  let from := if start <? 0 then Z.max (len + start) 0 else Z.min start len in
  let to := if stop <? 0 then Z.max (len + stop) 0 else Z.min stop len in
  take (Z.to_nat (to - from)) (drop (Z.to_nat from) l).

Definition pageSize : Z := 25.

(** [paginatedContracts] *)
Definition paginatedContracts {A} (page : Z) (filteredContracts : list A) : list A :=
  let start := (page - 1) * pageSize in
  slice start (start + pageSize) filteredContracts.

(** [Math.ceil(filteredContracts.length / pageSize)] *)
Definition totalPages {A} (filteredContracts : list A) : Z :=
  (Z.of_nat (length filteredContracts) + pageSize - 1) / pageSize.

End ContractsBrowser.

(** ** Event counts of a transaction row ([pages/Transactions.tsx]) *)

Module TransactionsPage.

Record EventCounts : Type := {
  n_created : Z;
  n_exercised : Z;
  n_archived : Z
}.

(** [counts[e.type]++] *)
Definition count_event (counts : EventCounts) (e : Event) : EventCounts :=
  match e with
  | Created _ =>
      {| n_created := n_created counts + 1; n_exercised := n_exercised counts;
         n_archived := n_archived counts |}
  | Exercised _ =>
      {| n_created := n_created counts; n_exercised := n_exercised counts + 1;
         n_archived := n_archived counts |}
  | Archived _ =>
      {| n_created := n_created counts; n_exercised := n_exercised counts;
         n_archived := n_archived counts + 1 |}
  end.

(** [eventSummary] *)
Definition eventSummary (events : list Event) : EventCounts :=
  fold_left count_event events
    {| n_created := 0; n_exercised := 0; n_archived := 0 |}.

(** [toggleEvent(eventId)] applied to the set of expanded events. *)
Definition toggleEvent (eventId : string) (expandedEvents : gset string)
    : gset string :=
  if decide (eventId ∈ expandedEvents) then expandedEvents ∖ {[ eventId ]}
  else expandedEvents ∪ {[ eventId ]}.

End TransactionsPage.

(** * Properties of the ledger client *)

Module ClientProofs.
Import CantonClient.

(** ** Wire-model conversion *)

(** A created event in which one party is both signatory and observer. *)
Definition shared_party_event : CreatedEvent :=
  {| created_base := {| eventId := "#1:0"; ev_contractId := "00c1";
                        ev_templateId := "pkg:Main:Iou"; ev_offset := 7;
                        nodeId := 0 |};
     createArguments := JObject [];
     ev_contractKey := None;
     ev_signatories := ["Alice::1220"];
     ev_observers := ["Alice::1220"; "Bob::1220"];
     ev_createdEventBlob := None |}.

Lemma eventToContract_stakeholders_app now event offset :
  stakeholders (eventToContract now event offset)
  = (signatories (eventToContract now event offset)
     ++ observers (eventToContract now event offset))%list.
Proof. reflexivity. Qed.

(** C1, as stated, fails: for a created event whose signatory is also an
    observer, the stakeholders of the converted contract list that party
    twice. *)
Lemma eventToContract_keeps_duplicates :
  stakeholders (eventToContract "2024-01-01T00:00:00.000Z" shared_party_event 7)
  = ["Alice::1220"; "Alice::1220"; "Bob::1220"]
  /\ ~ NoDup (stakeholders
                (eventToContract "2024-01-01T00:00:00.000Z" shared_party_event 7)).
Proof.
  split; [reflexivity|].
  cbn. rewrite NoDup_cons. intros [Hnotin _].
  apply Hnotin. left.
Qed.

(** C1, amended: the stakeholders of the converted contract are its
    signatories followed by its observers.  A party is a stakeholder
    exactly when it is a signatory or an observer, and the list is free
    of duplicates exactly when both input lists are and no party occurs
    in both. *)
Theorem eventToContract_stakeholders now event offset :
  let c := eventToContract now event offset in
  stakeholders c = (signatories c ++ observers c)%list
  /\ (forall party : PartyId,
        party ∈ stakeholders c <-> party ∈ signatories c \/ party ∈ observers c)
  /\ (NoDup (stakeholders c) <->
        NoDup (signatories c) /\ NoDup (observers c)
        /\ forall party : PartyId, party ∈ signatories c -> party ∉ observers c).
Proof.
  intros c. split; [apply eventToContract_stakeholders_app|]. split.
  - intros party. subst c. rewrite eventToContract_stakeholders_app.
    apply elem_of_app.
  - subst c. rewrite eventToContract_stakeholders_app, NoDup_app. tauto.
Qed.

(** ** Filter construction *)

Definition template_clause (templateId : TemplateId) : IdentifierFilter :=
  TemplateFilter templateId (Some true).

(** C4: without template ids the filter is the wildcard filter for any
    party; with template ids it is keyed by the requesting party alone
    and holds one template clause per id, in order. *)
Theorem buildTransactionFilter_shape (partyId : PartyId)
    (templateIds : option (list TemplateId)) :
  let filter := buildTransactionFilter partyId templateIds in
  ((templateIds = None \/ templateIds = Some []) ->
     filtersByParty filter = ∅
     /\ filtersForAnyParty filter
        = Some {| apf_cumulative := [WildcardFilter (Some true)] |})
  /\ (forall ids, templateIds = Some ids -> ids <> [] ->
        dom (filtersByParty filter) = {[ partyId ]}
        /\ (exists clauses,
              filtersByParty filter !! partyId
              = Some {| pf_cumulative := Some clauses |}
              /\ clauses = map template_clause ids
              /\ length clauses = length ids)
        /\ filtersForAnyParty filter = None).
Proof.
  intros filter. split.
  - intros [-> | ->]; split; reflexivity.
  - intros ids -> Hne. subst filter.
    destruct ids as [|templateId ids]; [congruence|].
    unfold buildTransactionFilter. cbn [filtersByParty filtersForAnyParty].
    split; [apply dom_singleton_L|]. split; [|reflexivity].
    eexists. split; [apply lookup_singleton_eq|].
    split; [reflexivity|]. apply length_map.
Qed.

Lemma buildTransactionFilter_shape_witness :
  (filtersByParty (buildTransactionFilter "Alice::1220" (Some [])) = ∅
   /\ filtersForAnyParty (buildTransactionFilter "Alice::1220" (Some []))
      = Some {| apf_cumulative := [WildcardFilter (Some true)] |})
  /\ (dom (filtersByParty (buildTransactionFilter "Alice::1220" (Some ["T1"])))
      = {[ "Alice::1220" ]}
      /\ (exists clauses,
            filtersByParty (buildTransactionFilter "Alice::1220" (Some ["T1"]))
              !! "Alice::1220"
            = Some {| pf_cumulative := Some clauses |}
            /\ clauses = map template_clause ["T1"]
            /\ length clauses = length ["T1"])
      /\ filtersForAnyParty (buildTransactionFilter "Alice::1220" (Some ["T1"]))
         = None).
Proof.
  split.
  - apply (buildTransactionFilter_shape "Alice::1220" (Some [])).
    right. reflexivity.
  - apply (buildTransactionFilter_shape "Alice::1220" (Some ["T1"]) ).
    + reflexivity.
    + discriminate.
Defined.

(** The two filters named in the specification. *)
Example buildTransactionFilter_no_templates :
  buildTransactionFilter "Alice::1220" None
  = {| filtersByParty := ∅;
       filtersForAnyParty :=
         Some {| apf_cumulative := [WildcardFilter (Some true)] |} |}.
Proof. reflexivity. Qed.

Example buildTransactionFilter_T1 :
  buildTransactionFilter "Alice::1220" (Some ["T1"])
  = {| filtersByParty :=
         {[ "Alice::1220" :=
              {| pf_cumulative := Some [TemplateFilter "T1" (Some true)] |} ]};
       filtersForAnyParty := None |}.
Proof. reflexivity. Qed.

(** ** Sample engine, client and responses *)

Definition sample_transaction : Transaction :=
  {| updateId := "upd-1"; tx_offset := 12;
     effectiveAt := "2024-01-01T00:00:00Z";
     commandId := None; workflowId := None; events := [] |}.

Definition sample_transaction_document : JsonValue :=
  JObject [("updateId", JString "upd-1"); ("offset", JNumber 12);
           ("effectiveAt", JString "2024-01-01T00:00:00Z"); ("events", JArray [])].

(** A stream of three items, the second without a transaction. *)
Definition sample_stream_document : JsonValue :=
  JArray [JObject [("transaction", sample_transaction_document)];
          JObject [];
          JObject [("transaction", sample_transaction_document)]].

(** An engine that knows four documents; every other text is a syntax
    error.  The messages are those of V8. *)
Definition sample_engine : Engine :=
  {| JSON_parse_document := fun text =>
       if String.eqb text "{updateId:upd-1}" then Ok sample_transaction_document
       else if String.eqb text "[{transaction:{updateId:upd-1}},{},{transaction:{updateId:upd-1}}]"
       then Ok sample_stream_document
       else if String.eqb text "[]" then Ok (JArray [])
       else if String.eqb text "{}" then Ok (JObject [])
       else Fail (NativeError "Unexpected token");
     null_property_message := fun p =>
       "Cannot read properties of null (reading '" +:+ p +:+ "')";
     not_iterable_message := fun e => e +:+ " is not iterable" |}.

Definition string_field (fields : list (string * JsonValue)) (p : string) : string :=
  match own_property fields p with
  | Some (JString s) => s
  | _ => ""
  end.

Definition sample_offset_type : JsonType LedgerOffset :=
  {| of_json := fun v => match v with JNumber n => n | _ => 0 end |}.

(** The transaction of a document, without its events. *)
Definition sample_transaction_type : JsonType Transaction :=
  {| of_json := fun v =>
       match v with
       | JObject fields =>
           {| updateId := string_field fields "updateId";
              tx_offset := match own_property fields "offset" with
                           | Some (JNumber n) => n
                           | _ => 0
                           end;
              effectiveAt := string_field fields "effectiveAt";
              commandId := None; workflowId := None; events := [] |}
       | _ => {| updateId := ""; tx_offset := 0; effectiveAt := "";
                 commandId := None; workflowId := None; events := [] |}
       end |}.

Definition sample_event_type : JsonType CreatedEvent :=
  {| of_json := fun _ => shared_party_event |}.

Definition sample_error_json (text : string) : io ErrorJson :=
  if String.eqb text "{message:boom}"
  then Ok {| ej_message := Some "boom"; ej_error := None |}
  else Fail (NativeError "Unexpected token").

Definition sample_client : Client :=
  createCantonClient {| cfg_endpoint := "http://localhost:7575/";
                        authToken := Some "secret";
                        useTls := None; tlsCertPath := None |}.

Definition response_404 : HttpResponse :=
  {| status := 404; statusText := "Not Found"; text := Ok "" |}.
Definition response_500 : HttpResponse :=
  {| status := 500; statusText := "Internal Server Error";
     text := Ok "{message:boom}" |}.
Definition response_200 : HttpResponse :=
  {| status := 200; statusText := "OK"; text := Ok "{updateId:upd-1}" |}.

(** A successful response whose body is the JSON text [null]. *)
Definition response_null : HttpResponse :=
  {| status := 200; statusText := "OK"; text := Ok "null" |}.

(** ** Connectivity probe *)

(** C6, as stated, fails: for a 200 response with the body [null],
    [ping] succeeds (it resolves to [null]) and [getConnectionStatus]
    nevertheless reports a failed connection, because reading
    [ledgerEnd.offset] throws inside its [try]. *)
Lemma ping_null_reports_disconnected :
  call_resume (@ping sample_engine sample_error_json sample_client) (Ok response_null)
  = Return JNull
  /\ call_resume (@getConnectionStatus sample_engine sample_error_json sample_client
                    sample_offset_type)
       (Ok response_null)
     = Return {| connected := false;
                 endpoint := "http://localhost:7575";
                 ledgerEnd := None;
                 participantId := None;
                 st_error := Some "Cannot read properties of null (reading 'offset')" |}.
Proof. split; reflexivity. Qed.

(** C6, amended: whatever the fetch behind [ping] does,
    [getConnectionStatus] returns a status and never throws.  When [ping]
    resolves to a document other than [null] the status is connected and
    carries the [offset] of the document, if it has one; when [ping]
    resolves to [null] or throws anything the status is disconnected and
    carries the message of what was thrown. *)
Theorem getConnectionStatus_never_throws `{!Engine} `{!JsonType LedgerOffset}
    (parse_error_body : string -> io ErrorJson) (this : Client)
    (fetched : io HttpResponse) :
  exists st : ConnectionStatus,
    call_resume (getConnectionStatus parse_error_body this) fetched = Return st
    /\ endpoint st = cl_endpoint this
    /\ match call_resume (ping parse_error_body this) fetched with
       | Return JNull =>
           connected st = false /\ ledgerEnd st = None
           /\ st_error st = Some (null_property_message "offset")
       | Return (JObject fields) =>
           connected st = true
           /\ ledgerEnd st = of_json <$> own_property fields "offset"
           /\ st_error st = None
       | Return _ =>
           connected st = true /\ ledgerEnd st = None /\ st_error st = None
       | Throw error =>
           connected st = false /\ ledgerEnd st = None
           /\ st_error st = Some (message_or "Unknown error" error)
       end.
Proof.
  unfold getConnectionStatus, after. cbn [call_resume call_request].
  destruct (call_resume (ping parse_error_body this) fetched) as [[]|e];
    cbn; eexists; (split; [reflexivity|]); cbn; auto.
Qed.

(** ** Point lookups *)

Section Request.
Context `{!Engine}.
Context (parse_error_body : string -> io ErrorJson).

(** A response outside 2xx whose body can be read makes [request]
    throw a [CantonAPIError] with the status and the path. *)
Lemma request_resume_not_ok path response errorBody :
  ok response = false -> text response = Ok errorBody ->
  request_resume parse_error_body path (Ok response)
  = Throw (CantonAPIError (status response)
             (errorMessage_of parse_error_body errorBody (statusText response))
             path).
Proof.
  intros Hok Htext. unfold request_resume. cbn. rewrite Hok. cbn.
  rewrite Htext. reflexivity.
Qed.

(** A 2xx response yields the parsed body. *)
Lemma request_resume_ok path response body :
  ok response = true -> text response = Ok body ->
  request_resume parse_error_body path (Ok response)
  = lift (parse_body body).
Proof.
  intros Hok Htext. unfold request_resume. cbn. rewrite Hok. cbn.
  rewrite Htext. reflexivity.
Qed.

(** [request] throws a [CantonAPIError] only for a response outside
    2xx, and then with the status of that response. *)
Lemma request_resume_api_error path fetched st message path' :
  request_resume parse_error_body path fetched
  = Throw (CantonAPIError st message path') ->
  exists response, fetched = Ok response /\ ok response = false
                   /\ status response = st.
Proof.
  unfold request_resume. destruct fetched as [response|e]; cbn; [|discriminate].
  destruct (ok response) eqn:Hok; cbn.
  - destruct (text response) as [body|e]; cbn; [|discriminate].
    destruct (parse_body body); cbn; discriminate.
  - destruct (text response) as [body|e]; cbn; [|discriminate].
    intros [= <- _ _]. eauto.
Qed.

Lemma request_resume_return path fetched value :
  request_resume parse_error_body path fetched = Return value ->
  exists response body, fetched = Ok response /\ ok response = true
                        /\ text response = Ok body /\ parse_body body = Ok value.
Proof.
  unfold request_resume. destruct fetched as [response|e]; cbn; [|discriminate].
  destruct (ok response) eqn:Hok; cbn.
  - destruct (text response) as [body|e] eqn:Htext; cbn; [|discriminate].
    destruct (parse_body body) eqn:Hparse; cbn; [|discriminate].
    intros [= <-]. exists response, body. auto.
  - destruct (text response) as [body|e]; cbn; discriminate.
Qed.

(** The body of a 2xx response is not checked: an empty body is the
    object without properties, and the text [null] is [null]. *)
Lemma parse_body_unchecked :
  parse_body "" = Ok (JObject []) /\ parse_body "null" = Ok JNull.
Proof. split; reflexivity. Qed.

(** The convention of the point lookups, for a lookup that sends its
    request to [path], runs [finish] on the parsed response, hands the
    caller [resume fetched] and has [null] for its null result:
    - a readable response outside 2xx gives [null] if its status is 404
      and otherwise throws the [CantonAPIError] of that status;
    - a 2xx response whose body parses gives what [finish] makes of the
      document;
    - [null] is returned in no other case than a 404 or a 2xx response
      on whose document [finish] returns [null]. *)
Definition not_found_convention {R} (null : R) (path : string)
    (finish : JsonValue -> outcome R)
    (resume : io HttpResponse -> outcome R) : Prop :=
  forall fetched : io HttpResponse,
    (forall response errorBody,
       fetched = Ok response -> ok response = false ->
       text response = Ok errorBody ->
       (status response = 404 -> resume fetched = Return null)
       /\ (status response <> 404 ->
           resume fetched
           = Throw (CantonAPIError (status response)
                      (errorMessage_of parse_error_body errorBody
                         (statusText response)) path)))
    /\ (forall response body value,
          fetched = Ok response -> ok response = true ->
          text response = Ok body -> parse_body body = Ok value ->
          resume fetched = finish value)
    /\ (resume fetched = Return null ->
          exists response,
            fetched = Ok response
            /\ ((ok response = false /\ status response = 404)
                \/ (ok response = true
                    /\ exists body value,
                         text response = Ok body /\ parse_body body = Ok value
                         /\ finish value = Return null))).

(** Every lookup written as
    [try { finish(await request(path)) } catch { 404 -> null; rethrow }]
    follows the convention, provided [finish] itself throws no
    [CantonAPIError]. *)
Lemma lookup_follows_convention {R} (null : R) path
    (finish : JsonValue -> outcome R) :
  (forall value st message path',
     finish value <> Throw (CantonAPIError st message path')) ->
  not_found_convention null path finish
    (fun fetched =>
       try_catch (request_resume parse_error_body path fetched ≫= finish)
         (fun error => if is_not_found error then Return null else Throw error)).
Proof.
  intros Hfinish fetched. split; [|split].
  - intros response errorBody -> Hok Htext.
    rewrite (request_resume_not_ok _ _ _ Hok Htext). cbn.
    split; intros Hst.
    + rewrite bool_decide_eq_true_2 by assumption. reflexivity.
    + rewrite bool_decide_eq_false_2 by assumption. reflexivity.
  - intros response body value -> Hok Htext Hparse.
    rewrite (request_resume_ok _ _ _ Hok Htext), Hparse. cbn.
    destruct (finish value) as [r|[st message path'|e]] eqn:Hf; cbn; try reflexivity.
    exfalso. exact (Hfinish _ _ _ _ Hf).
  - destruct (request_resume parse_error_body path fetched) as [value|error] eqn:Hreq.
    + cbn. intros Hnone.
      apply request_resume_return in Hreq as (response & body & -> & Hok & Htext & Hparse).
      exists response. split; [reflexivity|]. right.
      split; [assumption|]. exists body, value. split; [assumption|].
      split; [assumption|].
      destruct (finish value) as [r|[st message path'|e]] eqn:Hf; cbn in Hnone.
      * exact Hnone.
      * exfalso. exact (Hfinish _ _ _ _ Hf).
      * discriminate.
    + cbn. destruct error as [st message path'|e]; cbn; [|discriminate].
      case_bool_decide as Hst; [|discriminate]. intros _.
      apply request_resume_api_error in Hreq as (response & -> & Hok & Hstatus).
      exists response. split; [reflexivity|]. left. split; congruence.
Qed.

End Request.

(** Whether a value can be iterated: arrays and strings can. *)
Definition iterable (v : option JsonValue) : bool :=
  match v with
  | Some (JArray _) | Some (JString _) => true
  | _ => false
  end.

(** The created event of a response that is not [null]: its [created]
    field, when truthy. *)
Definition created_of (response : JsonValue) : option JsonValue :=
  match response with
  | JObject fields => truthy_value (own_property fields "created")
  | _ => None
  end.

(** What [getContract] makes of a parsed response. *)
Definition contract_of_response `{!Engine} `{!JsonType CreatedEvent}
    (now : string) (response : JsonValue) : outcome (option Contract) :=
  created ← get_property response "created";
  match truthy_value created with
  | Some created =>
      _ ← event_spreads created;
      Return (Some (eventToContract now (of_json created)
                      (ev_offset (created_base (of_json created)))))
  | None => Return None
  end.

Lemma event_spreads_no_api_error `{!Engine} event st message path' :
  event_spreads event <> Throw (CantonAPIError st message path').
Proof.
  unfold event_spreads, get_property, iterate.
  destruct event; cbn; try discriminate.
  destruct (own_property fields "signatories") as [[]|]; cbn; try discriminate;
    destruct (own_property fields "observers") as [[]|]; cbn; discriminate.
Qed.

Lemma contract_of_response_no_api_error `{!Engine} `{!JsonType CreatedEvent}
    now value st message path' :
  contract_of_response now value <> Throw (CantonAPIError st message path').
Proof.
  unfold contract_of_response.
  destruct (get_property value "created") as [created|e] eqn:Hget; cbn.
  - destruct (truthy_value created) as [event|]; [|discriminate].
    destruct (event_spreads event) as [[]|e] eqn:Hspread; cbn; [discriminate|].
    intros [= ->]. exact (event_spreads_no_api_error _ _ _ _ Hspread).
  - unfold get_property in Hget. destruct value; try discriminate.
    injection Hget as <-. discriminate.
Qed.

(** The spreads on an event that is not [null], spelled out. *)
Lemma event_spreads_cases `{!Engine} (event : JsonValue) :
  event <> JNull ->
  event_spreads event
  = if negb (iterable (optional_property (Some event) "signatories"))
    then Throw (TypeError (not_iterable_message "event.signatories"))
    else if negb (iterable (optional_property (Some event) "observers"))
    then Throw (TypeError (not_iterable_message "event.observers"))
    else Return tt.
Proof.
  intros Hevent.
  unfold event_spreads, get_property, iterate, optional_property, iterable.
  destruct event as [|b|n|str|items|members]; try congruence; try reflexivity.
  cbn [mbind outcome_bind].
  destruct (own_property members "signatories") as [[]|]; cbn; try reflexivity;
    destruct (own_property members "observers") as [[]|]; reflexivity.
Qed.

(** [getContract] is a lookup of that form. *)
Lemma getContract_resume_shape `{!Engine} `{!JsonType CreatedEvent}
    (parse_error_body : string -> io ErrorJson) (this : Client)
    (now : string) (id : string) (partyId : PartyId) fetched :
  call_resume (getContract parse_error_body this now id partyId) fetched
  = try_catch
      (request_resume parse_error_body "/v2/events/contract" fetched
         ≫= contract_of_response now)
      (fun error => if is_not_found error then Return None else Throw error).
Proof. reflexivity. Qed.

Lemma document_lookup_shape `{!Engine}
    (parse_error_body : string -> io ErrorJson) path fetched :
  try_catch (request_resume parse_error_body path fetched)
    (fun error => if is_not_found error then Return JNull else Throw error)
  = try_catch (request_resume parse_error_body path fetched ≫= Return)
      (fun error => if is_not_found error then Return JNull else Throw error).
Proof.
  destruct (request_resume parse_error_body path fetched); reflexivity.
Qed.

(** What [getContract] makes of a response that is not [null], spelled
    out: [null] without a created event, else the contract of the event
    unless one of the two spreads throws. *)
Lemma contract_of_response_cases `{!Engine} `{!JsonType CreatedEvent}
    (now : string) (response : JsonValue) :
  response <> JNull ->
  contract_of_response now response
  = match created_of response with
    | None => Return None
    | Some event =>
        if negb (iterable (optional_property (Some event) "signatories"))
        then Throw (TypeError (not_iterable_message "event.signatories"))
        else if negb (iterable (optional_property (Some event) "observers"))
        then Throw (TypeError (not_iterable_message "event.observers"))
        else Return (Some (eventToContract now (of_json event)
                             (ev_offset (created_base (of_json event)))))
    end.
Proof.
  intros Hnot. unfold contract_of_response, created_of.
  destruct response; try congruence; try reflexivity.
  cbn [get_property mbind outcome_bind].
  destruct (truthy_value (own_property fields "created")) as [event|] eqn:Hcreated;
    [|reflexivity].
  assert (Hevent : event <> JNull).
  { intros ->. unfold truthy_value in Hcreated.
    destruct (own_property fields "created") as [[]|]; cbn in Hcreated;
      try discriminate;
      repeat match type of Hcreated with
             | (if ?b then _ else _) = _ => destruct b
             end; discriminate. }
  unfold event_spreads, get_property, iterate, optional_property, iterable.
  destruct event as [|b|n|str|items|members]; try congruence; try reflexivity.
  cbn [mbind outcome_bind].
  destruct (own_property members "signatories") as [[]|]; cbn; try reflexivity;
    destruct (own_property members "observers") as [[]|]; reflexivity.
Qed.

(** C3, as stated, fails: a 200 response with the body [null] makes
    [getTransaction] return [null], although the request did not fail
    with status 404. *)
Lemma lookup_returns_null_without_404 :
  ok response_null = true
  /\ status response_null <> 404
  /\ call_resume (@getTransaction sample_engine sample_error_json sample_client
                    "upd-1" "Alice::1220")
       (Ok response_null)
     = Return JNull.
Proof. split; [reflexivity|]. split; [discriminate|reflexivity]. Qed.

(** C3, amended: [getContract], [getTransaction] and [getPackage] give
    [null] on a 404 and the [CantonAPIError] itself on every other status
    outside 2xx.  On 2xx the parsed document is used unchecked:
    [getTransaction] and [getPackage] return it as it is, so they return
    [null] exactly for the document [null]; [getContract] throws a
    [TypeError] when the document is [null], returns [null] when it is
    not [null] and has no truthy [created] event, and otherwise returns
    the contract of that event, unless the signatories or the observers
    of the event cannot be iterated, which is a [TypeError] again.  They
    return [null] in no other case.  The body of a 2xx response parses to
    the object without properties when it is empty and to [null] when it
    is the text [null]. *)
Theorem lookups_null_only_on_404 `{!Engine} `{!JsonType CreatedEvent}
    (parse_error_body : string -> io ErrorJson) (this : Client)
    (now : string) (id : string) (partyId : PartyId) :
  not_found_convention parse_error_body None "/v2/events/contract"
    (contract_of_response now)
    (call_resume (getContract parse_error_body this now id partyId))
  /\ not_found_convention parse_error_body JNull "/v2/updates/transaction-by-id"
       Return
       (call_resume (getTransaction parse_error_body this id partyId))
  /\ not_found_convention parse_error_body JNull ("/v2/packages/" +:+ id)
       Return
       (call_resume (getPackage parse_error_body this id))
  /\ contract_of_response now JNull = Throw (TypeError (null_property_message "created"))
  /\ (forall response : JsonValue, response <> JNull ->
        contract_of_response now response
        = match created_of response with
          | None => Return None
          | Some event =>
              if negb (iterable (optional_property (Some event) "signatories"))
              then Throw (TypeError (not_iterable_message "event.signatories"))
              else if negb (iterable (optional_property (Some event) "observers"))
              then Throw (TypeError (not_iterable_message "event.observers"))
              else Return (Some (eventToContract now (of_json event)
                                   (ev_offset (created_base (of_json event)))))
          end)
  /\ parse_body "" = Ok (JObject [])
  /\ parse_body "null" = Ok JNull.
Proof.
  split; [|split; [|split; [|split; [|split; [|split]]]]];
    [| | | | |reflexivity|reflexivity].
  - intros fetched. rewrite getContract_resume_shape.
    apply lookup_follows_convention. apply contract_of_response_no_api_error.
  - intros fetched. cbn [call_resume getTransaction after post request].
    rewrite document_lookup_shape.
    apply lookup_follows_convention. discriminate.
  - intros fetched. cbn [call_resume getPackage after get request].
    rewrite document_lookup_shape.
    apply lookup_follows_convention. discriminate.
  - reflexivity.
  - apply contract_of_response_cases.
Qed.

(** *** The convention on four concrete responses *)

Lemma lookups_null_only_on_404_witness :
  let getTx :=
    call_resume (@getTransaction sample_engine sample_error_json sample_client
                   "upd-1" "Alice::1220") in
  getTx (Ok response_404) = Return JNull
  /\ getTx (Ok response_500)
     = Throw (CantonAPIError 500 "boom" "/v2/updates/transaction-by-id")
  /\ getTx (Ok response_200) = Return sample_transaction_document
  /\ getTx (Ok response_null) = Return JNull.
Proof.
  intros getTx.
  destruct (@lookups_null_only_on_404 sample_engine sample_event_type
              sample_error_json sample_client "2024-01-01T00:00:00.000Z"
              "upd-1" "Alice::1220") as (_ & Htx & _).
  split; [|split; [|split]].
  - apply (Htx (Ok response_404)) with (response := response_404) (errorBody := "");
      reflexivity.
  - apply (Htx (Ok response_500))
      with (response := response_500) (errorBody := "{message:boom}");
      try reflexivity. discriminate.
  - destruct (Htx (Ok response_200)) as (_ & Hok & _).
    exact (Hok response_200 "{updateId:upd-1}" sample_transaction_document
             eq_refl eq_refl eq_refl eq_refl).
  - destruct (Htx (Ok response_null)) as (_ & Hok & _).
    exact (Hok response_null "null" JNull eq_refl eq_refl eq_refl eq_refl).
Defined.

End ClientProofs.

(** * Properties of the projection store *)

Module StoreProofs.
Import CantonClient Store.

(** ** Loads outside the connected-with-party state *)

Lemma with_store_same sys : with_store (store sys) sys = sys.
Proof. destruct sys; reflexivity. Qed.

(** C10: without a client or without an active party, [loadContracts]
    and [loadTransactions] return before their first [set]: no call is
    sent and the store is left as it was, whatever the arguments. *)
Theorem loads_are_noops_when_not_ready (s : State) :
  client s = None \/ activeParty s = None ->
  (forall query, loadContracts_begin query s = (s, None))
  /\ (forall limit, loadTransactions_begin limit s = (s, None))
  /\ (forall query result, loadContracts query result s = s)
  /\ (forall limit result, loadTransactions limit result s = s)
  /\ (forall sys query, store sys = s -> step (LoadContracts query) sys = sys)
  /\ (forall sys limit, store sys = s -> step (LoadTransactions limit) sys = sys).
Proof.
  intros Hnot.
  assert (Hc : forall query, loadContracts_begin query s = (s, None)).
  { intros query. unfold loadContracts_begin.
    destruct (client s), (activeParty s), Hnot; congruence. }
  assert (Ht : forall limit, loadTransactions_begin limit s = (s, None)).
  { intros limit. unfold loadTransactions_begin.
    destruct (client s), (activeParty s), Hnot; congruence. }
  repeat split; auto.
  - intros query result. unfold loadContracts. rewrite Hc. reflexivity.
  - intros limit result. unfold loadTransactions. rewrite Ht. reflexivity.
  - intros sys query <-. cbn. rewrite Hc. apply with_store_same.
  - intros sys limit <-. cbn. rewrite Ht. apply with_store_same.
Qed.

Lemma loads_are_noops_when_not_ready_witness :
  loadContracts None (Return []) initialState = initialState
  /\ loadTransactions (Some 10) (Throw (Native NonError)) initialState = initialState.
Proof.
  destruct (loads_are_noops_when_not_ready initialState) as (_ & _ & Hc & Ht & _).
  - left. reflexivity.
  - split; [apply Hc | apply Ht].
Defined.

(** ** Failed loads *)

Lemma set_flags_twice (l1 l2 : bool) (e1 e2 : option string) (s : State) :
  set_isLoading l2 (set_error e2 (set_error e1 (set_isLoading l1 s)))
  = set_isLoading l2 (set_error e2 s).
Proof. reflexivity. Qed.

(** C7: a load that fails in a store that has a client and an active
    party changes [error] and [isLoading] and nothing else: the error
    message is recorded, and the contracts map, transaction list,
    template catalog and last offset are those held before the load. *)
Theorem failed_load_keeps_data (s : State) (failure : thrown) :
  client s <> None -> activeParty s <> None ->
  (forall query,
     let s' := loadContracts query (Throw failure) s in
     s' = set_isLoading false
            (set_error (Some (message_or "Failed to load contracts" failure)) s)
     /\ error s' = Some (message_or "Failed to load contracts" failure)
     /\ isLoading s' = false
     /\ contracts s' = contracts s /\ transactions s' = transactions s
     /\ templates s' = templates s /\ lastOffset s' = lastOffset s)
  /\ (forall limit,
        let s' := loadTransactions limit (Throw failure) s in
        s' = set_isLoading false
               (set_error (Some (message_or "Failed to load transactions" failure)) s)
        /\ error s' = Some (message_or "Failed to load transactions" failure)
        /\ isLoading s' = false
        /\ contracts s' = contracts s /\ transactions s' = transactions s
        /\ templates s' = templates s /\ lastOffset s' = lastOffset s).
Proof.
  intros Hclient Hparty. split.
  - intros query s'. subst s'. unfold loadContracts, loadContracts_begin.
    destruct (client s); [|congruence]. destruct (activeParty s); [|congruence].
    cbn. repeat split.
  - intros limit s'. subst s'. unfold loadTransactions, loadTransactions_begin.
    destruct (client s); [|congruence]. destruct (activeParty s); [|congruence].
    cbn. repeat split.
Qed.

(** The same holds of the continuation alone, on whatever state the
    store is in when the failed call settles. *)
Lemma failed_resume_keeps_data (s : State) (failure : thrown) lastOffset0 :
  loadContracts_resume (Throw failure) s
  = set_isLoading false
      (set_error (Some (message_or "Failed to load contracts" failure)) s)
  /\ loadTransactions_resume lastOffset0 (Throw failure) s
     = set_isLoading false
         (set_error (Some (message_or "Failed to load transactions" failure)) s).
Proof. split; reflexivity. Qed.

(** *** A connected store with data, used in the examples below *)

Definition alice : Party :=
  {| partyId := "Alice::1220"; displayName := Some "Alice"; isLocal := true;
     identityProviderId := None |}.
Definition bob : Party :=
  {| partyId := "Bob::1220"; displayName := Some "Bob"; isLocal := true;
     identityProviderId := None |}.

Definition contract_of (id : ContractId) (owner : PartyId) : Contract :=
  {| contractId := id; templateId := "pkg:Main:Iou"; payload := JObject [];
     stakeholders := [owner]; observers := []; signatories := [owner];
     createdAt := "2024-01-01T00:00:00.000Z"; offset := 5;
     contractKey := None; createdEventBlob := None |}.

Definition transaction_of (id : UpdateId) (offset : LedgerOffset) : Transaction :=
  {| updateId := id; tx_offset := offset; effectiveAt := "2024-01-01T00:00:00Z";
     commandId := None; workflowId := None; events := [] |}.

Definition node_a : ConnectionConfig :=
  {| cfg_endpoint := "http://node-a:7575"; authToken := None;
     useTls := None; tlsCertPath := None |}.
Definition node_b : ConnectionConfig :=
  {| cfg_endpoint := "http://node-b:7575"; authToken := None;
     useTls := None; tlsCertPath := None |}.

Definition up (config : ConnectionConfig) : ConnectionStatus :=
  {| connected := true; endpoint := cfg_endpoint config; ledgerEnd := Some 42;
     participantId := None; st_error := None |}.
Definition down (config : ConnectionConfig) : ConnectionStatus :=
  {| connected := false; endpoint := cfg_endpoint config; ledgerEnd := None;
     participantId := None; st_error := Some "Failed to fetch" |}.

(** The store after a successful [connect] to [node_a]. *)
Definition connected_store : State :=
  fst (connect node_a (Return (up node_a)) (Return [alice; bob]) initialState).

(** The same store once Alice's contracts and transactions are loaded. *)
Definition loaded_store : State :=
  loadTransactions None (Return [transaction_of "upd-a" 9])
    (loadContracts None (Return [contract_of "c-alice" "Alice::1220"])
       (set_activeParty (Some alice) connected_store)).

Lemma failed_load_keeps_data_witness :
  contracts (loadContracts None (Throw (CantonAPIError 500 "boom" "/v2/state/active-contracts"))
               loaded_store)
  = contracts loaded_store
  /\ transactions (loadTransactions None (Throw (Native (NativeError "Failed to fetch")))
                     loaded_store)
     = transactions loaded_store.
Proof.
  destruct (failed_load_keeps_data loaded_store
              (CantonAPIError 500 "boom" "/v2/state/active-contracts"))
    as [Hc _]; [discriminate | discriminate |].
  destruct (failed_load_keeps_data loaded_store (Native (NativeError "Failed to fetch")))
    as [_ Ht]; [discriminate | discriminate |].
  split.
  - apply (Hc None).
  - apply (Ht None).
Defined.

(** ** Failed connection attempts *)

(** [connect] resolves to [true] exactly when the probe reports a
    connection and the party list is fetched. *)
Lemma connect_succeeds_iff config statusResult partiesResult s :
  snd (connect config statusResult partiesResult s) = true
  <-> exists st parties,
        statusResult = Return st /\ connected st = true
        /\ partiesResult = Return parties.
Proof.
  unfold connect. destruct statusResult as [st|e]; cbn.
  - destruct (connected st) eqn:Hst; cbn.
    + destruct partiesResult as [parties|e]; cbn.
      * split; [eauto|reflexivity].
      * split; [discriminate|]. intros (? & ? & _ & _ & [=]).
    + split; [discriminate|]. intros (? & ? & [= <-] & ? & _). congruence.
  - split; [discriminate|]. intros (? & ? & [=] & _).
Qed.

(** C8, as stated, fails: after a successful connect to [node_a], a
    failed connect to [node_b] leaves the store disconnected, with the
    error recorded, and still holding the client created for [node_a]. *)
Lemma failed_connect_retains_client :
  client connected_store = Some (createCantonClient node_a)
  /\ snd (connect node_b (Return (down node_b)) (Return []) connected_store) = false
  /\ let s' := fst (connect node_b (Return (down node_b)) (Return []) connected_store) in
     connected (status s') = false
     /\ error s' = Some "Failed to fetch"
     /\ client s' = Some (createCantonClient node_a)
     /\ client s' <> None.
Proof. cbn. repeat split. discriminate. Qed.

(** C8, amended: a failed [connect] records the error, leaves the status
    disconnected and the loading flag down, and does not touch the
    [client] and [config] fields: the client built for the failed attempt
    is never stored, so a store without a client still has none. *)
Theorem failed_connect_records_error config statusResult partiesResult (s : State) :
  snd (connect config statusResult partiesResult s) = false ->
  let s' := fst (connect config statusResult partiesResult s) in
  (exists message,
     error s' = Some message
     /\ s' = set_isLoading false
               (set_error (Some message) (set_status (status s') s)))
  /\ connected (status s') = false
  /\ isLoading s' = false
  /\ client s' = client s
  /\ Store.config s' = Store.config s
  /\ (client s = None -> client s' = None).
Proof.
  unfold connect. destruct statusResult as [st|e]; cbn.
  - destruct (connected st) eqn:Hst; cbn.
    + destruct partiesResult as [parties|e]; cbn; [discriminate|].
      intros _. repeat split; eauto.
    + intros _. repeat split; eauto.
  - intros _. repeat split; eauto.
Qed.

Lemma failed_connect_records_error_witness :
  connected (status (fst (connect node_b (Throw (Native (NativeError "Failed to fetch")))
                            (Return []) connected_store)))
  = false
  /\ client (fst (connect node_b (Return (up node_b))
                    (Throw (CantonAPIError 503 "unavailable" "/v2/parties"))
                    initialState))
     = None.
Proof.
  split.
  - apply (failed_connect_records_error node_b
             (Throw (Native (NativeError "Failed to fetch"))) (Return [])
             connected_store).
    reflexivity.
  - apply (failed_connect_records_error node_b (Return (up node_b))
             (Throw (CantonAPIError 503 "unavailable" "/v2/parties"))
             initialState); reflexivity.
Defined.

(** ** Superseding loads *)

Lemma run_events_app evs1 evs2 sys :
  run_events (evs1 ++ evs2) sys = run_events evs2 (run_events evs1 sys).
Proof. apply fold_left_app. Qed.

Lemma loadContracts_resume_activeParty result s :
  activeParty (loadContracts_resume result s) = activeParty s.
Proof. destruct result; reflexivity. Qed.

Lemma loadTransactions_resume_activeParty lastOffset0 result s :
  activeParty (loadTransactions_resume lastOffset0 result s) = activeParty s.
Proof. destruct result; reflexivity. Qed.

(** The store starts connected to [node_a] with nothing in flight. *)
Definition idle_system : System :=
  {| store := connected_store; inflight := ∅; next_id := 0 |}.

(** Alice is selected, then Bob; Bob's two loads settle first and
    Alice's, sent earlier, settle afterwards. *)
Definition stale_schedule : list Trigger :=
  [ SetActiveParty alice;
    SetActiveParty bob;
    ContractsSettled 2 (Return [contract_of "c-bob" "Bob::1220"]);
    TransactionsSettled 3 (Return [transaction_of "upd-bob" 8]);
    ContractsSettled 0 (Return [contract_of "c-alice" "Alice::1220"]);
    TransactionsSettled 1 (Return [transaction_of "upd-alice" 6]) ].

(** C2, as stated, fails: the calls numbered 0 and 1 were sent for
    Alice and those numbered 2 and 3 for Bob; once all four have settled
    in the order of [stale_schedule], Bob is the active party while the
    store holds Alice's contract and transaction and none of Bob's. *)
Lemma stale_response_overwrites_fresh_snapshot :
  let sent := run_events (take 2 stale_schedule) idle_system in
  let final := run_events stale_schedule idle_system in
  inflight sent !! 0%nat = Some (AwaitActiveContracts "Alice::1220" None None)
  /\ inflight sent !! 1%nat = Some (AwaitTransactions "Alice::1220" 100 0)
  /\ inflight sent !! 2%nat = Some (AwaitActiveContracts "Bob::1220" None None)
  /\ inflight sent !! 3%nat = Some (AwaitTransactions "Bob::1220" 100 0)
  /\ inflight final = ∅
  /\ activeParty (store final) = Some bob
  /\ contracts (store final) !! "c-alice" = Some (contract_of "c-alice" "Alice::1220")
  /\ contracts (store final) !! "c-bob" = None
  /\ transactions (store final) = [transaction_of "upd-alice" 6].
Proof. vm_compute. repeat split. Qed.

(** A trigger that settles a call sent before the call numbered [n]. *)
Definition settles_before (n : nat) (ev : Trigger) : Prop :=
  match ev with
  | ContractsSettled id _ | TransactionsSettled id _ => (id < n)%nat
  | _ => False
  end.

(** Settling an earlier call leaves the later calls in flight and does
    not change the active party. *)
Lemma settle_earlier_preserves n ev sys :
  settles_before n ev ->
  forall id, (n <= id)%nat ->
    inflight (step ev sys) !! id = inflight sys !! id
    /\ activeParty (store (step ev sys)) = activeParty (store sys).
Proof.
  intros Hev id Hid.
  destruct ev as [| | | | |id' result|id' result]; cbn in Hev; try contradiction;
    cbn [step]; unfold settle;
    (destruct (inflight sys !! id' ≫= _) as [continue|] eqn:Hk; [|auto]);
    cbn [inflight store]; (split; [apply lookup_delete_ne; lia|]);
    destruct (inflight sys !! id') as [[]|]; cbn in Hk; try discriminate;
    injection Hk as <-.
  - apply loadContracts_resume_activeParty.
  - apply loadTransactions_resume_activeParty.
Qed.

Lemma settle_earlier_run n evs :
  Forall (settles_before n) evs ->
  forall sys id, (n <= id)%nat ->
    inflight (run_events evs sys) !! id = inflight sys !! id
    /\ activeParty (store (run_events evs sys)) = activeParty (store sys).
Proof.
  induction 1 as [|ev evs Hev _ IH]; intros sys id Hid; [split; reflexivity|].
  change (run_events (ev :: evs) sys) with (run_events evs (step ev sys)).
  destruct (IH (step ev sys) id Hid) as [-> ->].
  apply settle_earlier_preserves with (n := n); assumption.
Qed.

(** What settling a call in flight does. *)
Lemma settle_contracts sys id partyId0 templateIds offset0 result :
  inflight sys !! id = Some (AwaitActiveContracts partyId0 templateIds offset0) ->
  step (ContractsSettled id result) sys
  = {| store := loadContracts_resume result (store sys);
       inflight := delete id (inflight sys);
       next_id := next_id sys |}.
Proof. intros Hid. cbn. unfold settle. rewrite Hid. reflexivity. Qed.

Lemma settle_transactions sys id partyId0 limit lastOffset0 result :
  inflight sys !! id = Some (AwaitTransactions partyId0 limit lastOffset0) ->
  step (TransactionsSettled id result) sys
  = {| store := loadTransactions_resume lastOffset0 result (store sys);
       inflight := delete id (inflight sys);
       next_id := next_id sys |}.
Proof. intros Hid. cbn. unfold settle. rewrite Hid. reflexivity. Qed.

(** The two calls sent by [setActiveParty] in a store that has a client. *)
Lemma setActiveParty_sends party sys :
  client (store sys) <> None ->
  let sys' := setActiveParty party sys in
  inflight sys' !! next_id sys
  = Some (AwaitActiveContracts (partyId party) None None)
  /\ inflight sys' !! S (next_id sys)
     = Some (AwaitTransactions (partyId party) 100 (lastOffset (store sys)))
  /\ activeParty (store sys') = Some party.
Proof.
  intros Hclient.
  destruct (client (store sys)) as [c|] eqn:Hc; [|congruence].
  unfold setActiveParty, refreshData, loadContracts_begin,
    loadTransactions_begin.
  cbn. rewrite Hc. cbn. rewrite Hc. cbn.
  split; [|split; [|reflexivity]].
  - rewrite lookup_insert_ne by lia. apply lookup_insert_eq.
  - apply lookup_insert_eq.
Qed.

(** C2, amended: the store commits each load when its call settles,
    whichever party the call was sent for.  After a switch to a party, if
    the two calls sent for that party settle successfully after every
    other call that settles, in either order, then the active party is
    the new one, the contracts map is built from the response to its
    contracts call, and the transaction list is the response to its
    transactions call. *)
Theorem latest_settled_load_wins (sys : System) (party : Party)
    (earlier : list Trigger) (loaded : list Contract)
    (history : list Transaction) (contracts_first : bool) :
  client (store sys) <> None ->
  Forall (settles_before (next_id sys)) earlier ->
  let n := next_id sys in
  let last_two :=
    if contracts_first
    then [ContractsSettled n (Return loaded); TransactionsSettled (S n) (Return history)]
    else [TransactionsSettled (S n) (Return history); ContractsSettled n (Return loaded)] in
  let final :=
    run_events (SetActiveParty party :: earlier ++ last_two) sys in
  activeParty (store final) = Some party
  /\ contracts (store final) = contractMap loaded
  /\ transactions (store final) = history.
Proof.
  intros Hclient Hearlier n last_two final. subst final.
  change (run_events (SetActiveParty party :: earlier ++ last_two) sys)
    with (run_events (earlier ++ last_two) (setActiveParty party sys)).
  rewrite run_events_app.
  destruct (setActiveParty_sends party sys Hclient) as (Hc & Ht & Hp).
  set (sys1 := setActiveParty party sys) in *.
  destruct (settle_earlier_run n earlier Hearlier sys1 n (le_n _)) as [Hc' Hp'].
  destruct (settle_earlier_run n earlier Hearlier sys1 (S n) (le_S _ _ (le_n _)))
    as [Ht' _].
  set (sys2 := run_events earlier sys1) in *.
  fold n in Hc, Ht. rewrite Hc in Hc'. rewrite Ht in Ht'. rewrite Hp in Hp'.
  subst last_two.
  destruct contracts_first; cbn [run_events fold_left].
  - rewrite (settle_contracts _ _ _ _ _ _ Hc').
    erewrite settle_transactions
      by (cbn [inflight]; rewrite lookup_delete_ne by lia; exact Ht').
    cbn. auto.
  - rewrite (settle_transactions _ _ _ _ _ _ Ht').
    erewrite settle_contracts
      by (cbn [inflight]; rewrite lookup_delete_ne by lia; exact Hc').
    cbn. auto.
Qed.

(** Alice selected, her two loads still in flight. *)
Definition alice_selected : System := setActiveParty alice idle_system.

Definition alice_settles : list Trigger :=
  [ContractsSettled 0 (Return [contract_of "c-alice" "Alice::1220"]);
   TransactionsSettled 1 (Throw (Native (NativeError "Failed to fetch")))].

Lemma latest_settled_load_wins_witness :
  let final :=
    run_events
      (SetActiveParty bob
       :: alice_settles
       ++ [ContractsSettled (next_id alice_selected)
             (Return [contract_of "c-bob" "Bob::1220"]);
           TransactionsSettled (S (next_id alice_selected))
             (Return [transaction_of "upd-bob" 8])])
      alice_selected in
  activeParty (store final) = Some bob
  /\ contracts (store final) = contractMap [contract_of "c-bob" "Bob::1220"]
  /\ transactions (store final) = [transaction_of "upd-bob" 8].
Proof.
  assert (H1 : client (store alice_selected) <> None).
  { vm_compute. discriminate. }
  assert (H2 : Forall (settles_before (next_id alice_selected)) alice_settles).
  { repeat (constructor; [cbn; lia|]). constructor. }
  exact (latest_settled_load_wins alice_selected bob alice_settles
           [contract_of "c-bob" "Bob::1220"] [transaction_of "upd-bob" 8]
           true H1 H2).
Defined.

End StoreProofs.

(** * Properties of the network explorer *)

Module ExplorerProofs.
Import ScanExplorer.

(** ** Aggregation of the eight facet calls *)

(** Whether a call was fulfilled with the document [null]. *)
Definition fulfilled_null (r : Settled JsonValue) : bool :=
  match r with
  | Fulfilled JNull => true
  | _ => false
  end.

(** The first statement of the [try] block, if any, that reads a
    property of a [null] response: its position among the eight setters
    and the property it reads.  (The statistics, the price and the public
    updates are stored without a property read.) *)
Definition null_facet (results : Results) : option (nat * string) :=
  if fulfilled_null (r_scans results) then Some (0%nat, "scans")
  else if fulfilled_null (r_updates results) then Some (1%nat, "transactions")
  else if fulfilled_null (r_activity results) then Some (5%nat, "data")
  else if fulfilled_null (r_priceHistory results) then Some (6%nat, "data")
  else if fulfilled_null (r_validators results) then Some (7%nat, "data")
  else None.

(** What a facet that carries a list under [p] shows: that field of the
    response when it is truthy, and the empty list when the field is
    missing or falsy, or when the call was rejected. *)
Definition facet_list (p : string) (r : Settled JsonValue) : JsonValue :=
  match r with
  | Fulfilled (JObject fields) => or_value (own_property fields p) (JArray [])
  | _ => JArray []
  end.

(** What a facet stored as it is shows: the response, or [null] when
    the call was rejected. *)
Definition facet_value (r : Settled JsonValue) : JsonValue :=
  match r with
  | Fulfilled value => value
  | Rejected => JNull
  end.

(** What the validators facet shows: the response when it is an array,
    else its [data], else its [validators], else the empty list. *)
Definition facet_validators (r : Settled JsonValue) : JsonValue :=
  match r with
  | Fulfilled (JArray entries) => JArray entries
  | Fulfilled (JObject fields) =>
      or_value (own_property fields "data")
        (or_value (own_property fields "validators") (JArray []))
  | _ => JArray []
  end.

(** The eight data cells of a view, in the order the setters run, and
    what the eight results put there. *)
Definition cells (v : View) : list JsonValue :=
  [ v_scans v; updates v; stats v; price v; cantonScanUpdates v;
    activityHistory v; priceHistory v; validators v ].

Definition facets (results : Results) : list JsonValue :=
  [ facet_list "scans" (r_scans results);
    facet_list "transactions" (r_updates results);
    facet_value (r_stats results);
    facet_value (r_price results);
    facet_value (r_publicUpdates results);
    facet_list "data" (r_activity results);
    facet_list "data" (r_priceHistory results);
    facet_validators (r_validators results) ].

Definition unreachable : string :=
  "Could not connect to Scan API. Please check your network or URL.".

Section Aggregation.
Context `{!Engine}.

Lemma list_field_scans r :
  list_field (getVal r (JObject [("scans", JArray [])])) "scans"
  = if fulfilled_null r then Throw (TypeError (null_property_message "scans"))
    else Return (facet_list "scans" r).
Proof. destruct r as [[]|]; reflexivity. Qed.

Lemma list_field_transactions r :
  list_field (getVal r (JObject [("transactions", JArray [])])) "transactions"
  = if fulfilled_null r then Throw (TypeError (null_property_message "transactions"))
    else Return (facet_list "transactions" r).
Proof. destruct r as [[]|]; reflexivity. Qed.

Lemma list_field_data r :
  list_field (getVal r (JObject [("data", JArray [])])) "data"
  = if fulfilled_null r then Throw (TypeError (null_property_message "data"))
    else Return (facet_list "data" r).
Proof. destruct r as [[]|]; reflexivity. Qed.

Lemma validatorList_facet r :
  validatorList (getVal r (JObject [("validators", JArray [])]))
  = if fulfilled_null r then Throw (TypeError (null_property_message "data"))
    else Return (facet_validators r).
Proof.
  destruct r as [[]|]; try reflexivity.
  cbn. unfold or_value. destruct (truthy_value (own_property fields "data")); reflexivity.
Qed.

(** The view and the outcome at the end of the [try] block: the
    setters before the first [null] facet have run, the others have not. *)
Lemma fetchExplorerData_try_cells (results : Results) (v : View) :
  let '(v', attempt) := fetchExplorerData_try results v in
  isLoading v' = isLoading v /\ error v' = error v
  /\ match null_facet results with
     | Some (k, p) =>
         cells v' = (take k (facets results) ++ drop k (cells v))%list
         /\ attempt = Throw (TypeError (null_property_message p))
     | None =>
         cells v' = facets results
         /\ attempt
            = if (is_rejected (r_scans results) && is_rejected (r_updates results))%bool
              then Throw (Native (NativeError unreachable))
              else Return tt
     end.
Proof.
  unfold fetchExplorerData_try, null_facet, facets.
  rewrite list_field_scans, list_field_transactions, !list_field_data,
    validatorList_facet.
  destruct (fulfilled_null (r_scans results)); [cbn; auto|].
  destruct (fulfilled_null (r_updates results)); [cbn; auto|].
  destruct (fulfilled_null (r_activity results)); [cbn; auto|].
  destruct (fulfilled_null (r_priceHistory results)); [cbn; auto|].
  destruct (fulfilled_null (r_validators results)); [cbn; auto|].
  cbn.
  destruct (is_rejected (r_scans results) && is_rejected (r_updates results))%bool;
    cbn; auto.
Qed.

Lemma is_rejected_true {T} (r : Settled T) : is_rejected r = true <-> r = Rejected.
Proof. destruct r; split; intros; (discriminate || reflexivity). Qed.

(** C5, amended: the loading flag is always lowered.  An error is
    reported exactly when the scan directory call and the update history
    call are both rejected, or when a call whose response is read for its
    list (scan directory, update history, activity history, price
    history, validators) was fulfilled with [null].  When no such call was
    fulfilled with [null], each facet holds the value of its call if that
    was fulfilled and its empty default (the empty list or [null]) if it
    was rejected, and the error is the fixed message of an unreachable
    endpoint.  Otherwise the error is the message of the [TypeError]. *)
Theorem fetchExplorerData_degrades_per_facet (results : Results) (v : View) :
  let v' := fetchExplorerData results v in
  isLoading v' = false
  /\ (error v' <> None <->
        (r_scans results = Rejected /\ r_updates results = Rejected)
        \/ null_facet results <> None)
  /\ (null_facet results = None ->
      error v'
      = (if (is_rejected (r_scans results) && is_rejected (r_updates results))%bool
         then Some unreachable else None)
      /\ v_scans v' = facet_list "scans" (r_scans results)
      /\ updates v' = facet_list "transactions" (r_updates results)
      /\ stats v' = facet_value (r_stats results)
      /\ price v' = facet_value (r_price results)
      /\ cantonScanUpdates v' = facet_value (r_publicUpdates results)
      /\ activityHistory v' = facet_list "data" (r_activity results)
      /\ priceHistory v' = facet_list "data" (r_priceHistory results)
      /\ validators v' = facet_validators (r_validators results))
  /\ (forall k p, null_facet results = Some (k, p) ->
        error v' = Some (null_property_message p)).
Proof.
  intros v'. subst v'. unfold fetchExplorerData.
  pose proof (fetchExplorerData_try_cells results
                (setError None (setIsLoading true v))) as Htry.
  destruct (fetchExplorerData_try results (setError None (setIsLoading true v)))
    as [v' attempt].
  destruct Htry as (_ & Herr & Hcells). cbn in Herr.
  destruct (null_facet results) as [[k p]|] eqn:Hnull.
  - destruct Hcells as [_ ->]. cbn. split; [reflexivity|]. split.
    + split; [intros _; right; discriminate|discriminate].
    + split; [discriminate|]. intros ? ? [= <- <-]. reflexivity.
  - destruct Hcells as [Hcells ->]. split.
    { destruct (_ && _)%bool; reflexivity. }
    assert (Hrej : (is_rejected (r_scans results) && is_rejected (r_updates results))%bool
                   = true
                   <-> r_scans results = Rejected /\ r_updates results = Rejected).
    { rewrite andb_true_iff, !is_rejected_true. reflexivity. }
    split; [|split; [|discriminate]].
    + destruct (_ && _)%bool; cbn.
      * split; [intros _; left; apply Hrej; reflexivity|discriminate].
      * rewrite Herr. split; [congruence|].
        intros [Hboth|Hn]; [apply Hrej in Hboth; discriminate|congruence].
    + intros _. unfold cells, facets in Hcells.
      injection Hcells as Hs Hu Hst Hp Hpu Ha Hph Hv.
      destruct (_ && _)%bool; cbn; rewrite ?Herr; auto 10.
Qed.

End Aggregation.

(** Eight fulfilled calls, the validators call with [null]. *)
Definition null_validators : Results :=
  {| r_scans := Fulfilled (JObject [("scans", JArray [])]);
     r_updates := Fulfilled (JObject [("transactions", JArray [])]);
     r_stats := Fulfilled (JObject []);
     r_price := Fulfilled (JObject []);
     r_publicUpdates := Fulfilled (JObject []);
     r_activity := Fulfilled (JObject [("data", JArray [])]);
     r_priceHistory := Fulfilled (JObject [("data", JArray [])]);
     r_validators := Fulfilled JNull |}.

Definition empty_view : View :=
  {| v_scans := JArray []; updates := JArray []; stats := JNull; price := JNull;
     cantonScanUpdates := JNull; activityHistory := JArray [];
     priceHistory := JArray []; validators := JArray [];
     isLoading := false; error := None |}.

(** C5, as stated, fails: here all eight calls are fulfilled, the two
    primary ones among them, and an error is reported all the same,
    because the validators call was fulfilled with [null] and reading
    [validatorsRes.data] throws inside the [try]. *)
Lemma null_facet_reports_error :
  is_rejected (r_scans null_validators) = false
  /\ is_rejected (r_updates null_validators) = false
  /\ error (@fetchExplorerData ClientProofs.sample_engine null_validators empty_view)
     = Some "Cannot read properties of null (reading 'data')".
Proof. repeat split. Qed.

(** The case of the specification: the two primary calls are fulfilled
    and the six others rejected. *)
Definition six_of_eight_fail : Results :=
  {| r_scans := Fulfilled (JObject [("scans", JArray [JObject [("domainId", JString "global")]])]);
     r_updates := Fulfilled (JObject [("transactions", JArray [])]);
     r_stats := Rejected; r_price := Rejected; r_publicUpdates := Rejected;
     r_activity := Rejected; r_priceHistory := Rejected;
     r_validators := Rejected |}.

Lemma fetchExplorerData_degrades_per_facet_witness :
  let v' := @fetchExplorerData ClientProofs.sample_engine six_of_eight_fail empty_view in
  error v' = None
  /\ v_scans v' = JArray [JObject [("domainId", JString "global")]]
  /\ updates v' = JArray []
  /\ stats v' = JNull /\ price v' = JNull /\ cantonScanUpdates v' = JNull
  /\ activityHistory v' = JArray [] /\ priceHistory v' = JArray []
  /\ validators v' = JArray [].
Proof.
  destruct (@fetchExplorerData_degrades_per_facet ClientProofs.sample_engine
              six_of_eight_fail empty_view) as (_ & _ & Hfacets & _).
  exact (Hfacets eq_refl).
Defined.

(** ** Transfer extraction *)

(** The age strings [formatAge] can print. *)
Definition age_bucketed (s : string) : Prop :=
  (exists n, 0 <= n < 60 /\ s = pretty n +:+ "s ago")
  \/ (exists n, 1 <= n < 60 /\ s = pretty n +:+ "m ago")
  \/ (exists n, 1 <= n < 24 /\ s = pretty n +:+ "h ago")
  \/ (exists n, 1 <= n /\ s = pretty n +:+ "d ago")
  \/ s = "NaNd ago".

Lemma formatAge_bucketed now time : age_bucketed (formatAge now time).
Proof.
  unfold age_bucketed, formatAge. destruct time as [t|]; [|auto 10].
  cbn zeta. set (seconds := Z.max 0 ((now - t) / 1000)).
  assert (0 <= seconds) by (subst seconds; lia).
  destruct (Z.ltb_spec seconds 60) as [Hs|Hs].
  { left. exists seconds. split; [lia|reflexivity]. }
  assert (1 <= seconds / 60) by (apply Z.div_le_lower_bound; lia).
  destruct (Z.ltb_spec (seconds / 60) 60) as [Hm|Hm].
  { right; left. exists (seconds / 60). split; [lia|reflexivity]. }
  assert (1 <= seconds / 60 / 60) by (apply Z.div_le_lower_bound; lia).
  destruct (Z.ltb_spec (seconds / 60 / 60) 24) as [Hh|Hh].
  { right; right; left. exists (seconds / 60 / 60). split; [lia|reflexivity]. }
  right; right; right; left. exists (seconds / 60 / 60 / 24).
  split; [apply Z.div_le_lower_bound; lia|reflexivity].
Qed.

(** The label of an event is its choice when that is a non-empty
    string, and otherwise the last colon-separated segment of its
    template id (empty when there is none). *)
Lemma event_label_choice event choice :
  ev_choice event = Some choice -> choice <> "" -> event_label event = choice.
Proof.
  intros Hc Hne. unfold event_label, or_string. rewrite Hc.
  destruct choice; [congruence|reflexivity].
Qed.

Lemma event_label_template event :
  ev_choice event = None \/ ev_choice event = Some "" ->
  event_label event
  = match template_id event with
    | Some tid => split_pop ":"%char tid
    | None => ""
    end.
Proof.
  intros [Hc|Hc]; unfold event_label, or_string; rewrite Hc; cbn;
    destruct (template_id event) as [tid|]; cbn; [|reflexivity| |reflexivity];
    destruct (split_pop ":"%char tid); reflexivity.
Qed.

(** Whether an event is extracted: its label mentions "transfer". *)
Definition is_transfer (event : ScanEventSummary) : bool :=
  includes "transfer" (toLowerCase (event_label event)).

(** All events in the order the two [forEach] loops visit them, each
    with the update it belongs to. *)
Definition traversal (updates : list ScanUpdateSummary)
    : list (ScanUpdateSummary * ScanEventSummary) :=
  flat_map (fun update => map (pair update) (map snd (or_empty (events_by_id update))))
           updates.

Definition matches (updates : list ScanUpdateSummary)
    : list (ScanUpdateSummary * ScanEventSummary) :=
  List.filter (fun ue => is_transfer (snd ue)) (traversal updates).

Section Extraction.
Context (Date_parse : string -> option Z) (Date_now : nat -> Z).

(** The entry pushed for the [k]-th match. *)
Definition transfer_at (k : nat) (ue : ScanUpdateSummary * ScanEventSummary)
    : TransferEvent :=
  {| te_updateId := update_id (fst ue);
     label := event_label (snd ue);
     age := formatAge (Date_now k) (Date_parse (record_time (fst ue))) |}.

Lemma visit_event_spec update transfers event :
  visit_event Date_parse Date_now update transfers event
  = if is_transfer event
    then (transfers ++ [transfer_at (length transfers) (update, event)])%list
    else transfers.
Proof.
  unfold visit_event, is_transfer.
  destruct (String.eqb_spec (event_label event) "") as [->|Hne]; [reflexivity|].
  destruct (includes "transfer" (toLowerCase (event_label event))); reflexivity.
Qed.

Lemma fold_visit_event update events : forall transfers,
  fold_left (visit_event Date_parse Date_now update) events transfers
  = (transfers
     ++ imap (fun i => transfer_at (length transfers + i))
          (map (pair update) (List.filter is_transfer events)))%list.
Proof.
  induction events as [|event events IH]; intros transfers; cbn [fold_left].
  { cbn. symmetry. apply app_nil_r. }
  rewrite IH, visit_event_spec. cbn [List.filter].
  destruct (is_transfer event); [|reflexivity].
  cbn [map]. rewrite imap_cons, <- app_assoc. cbn [app].
  rewrite Nat.add_0_r. do 2 f_equal.
  apply imap_ext. intros i ue _. cbn. f_equal.
  rewrite length_app. cbn. lia.
Qed.

Lemma filter_pair update (events : list ScanEventSummary) :
  List.filter (fun ue : ScanUpdateSummary * ScanEventSummary => is_transfer (snd ue))
    (map (pair update) events)
  = map (pair update) (List.filter is_transfer events).
Proof.
  induction events as [|event events IH]; [reflexivity|].
  cbn. destruct (is_transfer event); cbn; rewrite IH; reflexivity.
Qed.

Lemma fold_visit_update updates : forall transfers,
  fold_left (visit_update Date_parse Date_now) updates transfers
  = (transfers
     ++ imap (fun i => transfer_at (length transfers + i)) (matches updates))%list.
Proof.
  induction updates as [|update updates IH]; intros transfers; cbn [fold_left].
  { cbn. symmetry. apply app_nil_r. }
  rewrite IH. unfold visit_update at 1 2. rewrite fold_visit_event.
  unfold matches. cbn [traversal flat_map].
  rewrite List.filter_app, filter_pair, imap_app, <- app_assoc.
  do 2 f_equal. apply imap_ext. intros i ue _. cbn. f_equal.
  rewrite length_app, length_imap. lia.
Qed.

(** The result is the first eight matches, in traversal order. *)
Lemma extractTransfers_take updates :
  extractTransfers Date_parse Date_now updates
  = take 8 (imap transfer_at (matches updates)).
Proof. unfold extractTransfers. rewrite fold_visit_update. reflexivity. Qed.

End Extraction.

Lemma matches_spec updates update event :
  (update, event) ∈ matches updates
  <-> (update, event) ∈ traversal updates /\ is_transfer event = true.
Proof.
  unfold matches. rewrite !list_elem_of_In, List.filter_In. reflexivity.
Qed.

(** *** Concrete update summaries *)

Definition summary (id time : string) (events : list (string * ScanEventSummary))
    : ScanUpdateSummary :=
  {| update_id := id; record_time := time; migration_id := 0;
     synchronizer_id := "global-domain::1220"; root_event_ids := map fst events;
     events_by_id := Some events |}.

Definition exercise (template choice : string) : ScanEventSummary :=
  {| template_id := Some template; event_type := Some "exercised_event";
     ev_choice := Some choice |}.

(** A clock fixed at one minute past the epoch and record times given
    as "0" (the epoch) or anything else (unparseable). *)
Definition epoch_only (isoTime : string) : option Z :=
  if String.eqb isoTime "0" then Some 0 else None.
Definition one_minute_in (_ : nat) : Z := 60000.

(** An event that exercises [Noop] on a template named
    [TransferPreapproval]. *)
Definition noop_on_transfer_template : ScanEventSummary :=
  exercise "pkg:Splice.AmuletRules:TransferPreapproval" "Noop".

(** C9, as stated, fails: the template name of this event contains
    "transfer", yet the event is not extracted, because its choice is
    present and is the only name examined. *)
Lemma extractTransfers_ignores_template_of_exercise :
  includes "transfer"
    (toLowerCase (split_pop ":"%char "pkg:Splice.AmuletRules:TransferPreapproval"))
  = true
  /\ template_id noop_on_transfer_template
     = Some "pkg:Splice.AmuletRules:TransferPreapproval"
  /\ extractTransfers epoch_only one_minute_in
       [summary "upd-1" "0" [("#1:0", noop_on_transfer_template)]]
     = [].
Proof. vm_compute. repeat split. Qed.

(** With more than eight matches the cap keeps the first eight visited,
    whatever their record times: here the ninth update is dropped. *)
Lemma extractTransfers_keeps_first_eight :
  map te_updateId
    (extractTransfers epoch_only one_minute_in
       (map (fun id => summary id "0" [("#1:0", exercise "pkg:M:T" "Transfer")])
          ["u1"; "u2"; "u3"; "u4"; "u5"; "u6"; "u7"; "u8"; "u9"]))
  = ["u1"; "u2"; "u3"; "u4"; "u5"; "u6"; "u7"; "u8"].
Proof. vm_compute. reflexivity. Qed.

(** The example of the specification: of three exercised choices the two
    transfer choices are extracted, whatever their case. *)
Example extractTransfers_three_choices :
  extractTransfers epoch_only one_minute_in
    [summary "upd-1" "0"
       [("#1:0", exercise "pkg:M:T" "Transfer_Accept");
        ("#1:1", exercise "pkg:M:T" "Noop");
        ("#1:2", exercise "pkg:M:T" "TRANSFER_reject")]]
  = [ {| te_updateId := "upd-1"; label := "Transfer_Accept"; age := "1m ago" |};
      {| te_updateId := "upd-1"; label := "TRANSFER_reject"; age := "1m ago" |} ].
Proof. vm_compute. reflexivity. Qed.

(** C9, amended: [extractTransfers] visits the updates in list order and
    the events of each update in enumeration order, and keeps the first
    eight events whose label contains "transfer" in any letter case,
    where the label is the choice when present and the template name
    only otherwise.  Every entry kept comes from such an event and
    carries a bucketed age; when at most eight events match, every one of
    them is kept. *)
Theorem extractTransfers_first_eight_matches
    (Date_parse : string -> option Z) (Date_now : nat -> Z)
    (updates : list ScanUpdateSummary) :
  let result := extractTransfers Date_parse Date_now updates in
  result = take 8 (imap (transfer_at Date_parse Date_now) (matches updates))
  /\ (length result <= 8)%nat
  /\ (forall t, t ∈ result ->
        includes "transfer" (toLowerCase (label t)) = true
        /\ age_bucketed (age t)
        /\ exists update event,
             (update, event) ∈ traversal updates
             /\ te_updateId t = update_id update
             /\ label t = event_label event)
  /\ ((length (matches updates) <= 8)%nat ->
      forall update event,
        (update, event) ∈ traversal updates -> is_transfer event = true ->
        exists t, t ∈ result /\ te_updateId t = update_id update
                  /\ label t = event_label event).
Proof.
  intros result. subst result. rewrite extractTransfers_take.
  split; [reflexivity|]. split; [rewrite length_take; lia|]. split.
  - intros t Ht. apply subseteq_take in Ht.
    apply elem_of_lookup_imap in Ht as (i & [update event] & -> & Hi).
    apply list_elem_of_lookup_2, matches_spec in Hi as [Hin Htransfer].
    cbn. split; [exact Htransfer|]. split; [apply formatAge_bucketed|].
    exists update, event. auto.
  - intros Hfew update event Hin Htransfer.
    rewrite take_ge by (rewrite length_imap; exact Hfew).
    assert (Hm : (update, event) ∈ matches updates) by (apply matches_spec; auto).
    apply list_elem_of_lookup in Hm as [i Hi].
    exists (transfer_at Date_parse Date_now i (update, event)).
    split; [|split; reflexivity].
    apply (elem_of_lookup_imap_2 (transfer_at Date_parse Date_now) _ _ _ Hi).
Qed.

Lemma extractTransfers_first_eight_matches_witness :
  let updates :=
    [summary "upd-1" "0"
       [("#1:0", exercise "pkg:M:T" "Transfer_Accept");
        ("#1:1", exercise "pkg:M:T" "Noop");
        ("#1:2", exercise "pkg:M:T" "TRANSFER_reject")]] in
  exists t,
    t ∈ extractTransfers epoch_only one_minute_in updates
    /\ te_updateId t = "upd-1" /\ label t = "TRANSFER_reject".
Proof.
  intros updates.
  destruct (extractTransfers_first_eight_matches epoch_only one_minute_in updates)
    as (_ & _ & _ & Hall).
  apply (Hall ltac:(vm_compute; lia) (summary "upd-1" "0"
            [("#1:0", exercise "pkg:M:T" "Transfer_Accept");
             ("#1:1", exercise "pkg:M:T" "Noop");
             ("#1:2", exercise "pkg:M:T" "TRANSFER_reject")])
           (exercise "pkg:M:T" "TRANSFER_reject")).
  - cbn. apply list_elem_of_In. cbn. auto.
  - vm_compute. reflexivity.
Defined.

End ExplorerProofs.

(** * Further properties of the ledger client *)

Module ClientRestProofs.
Import CantonClient ClientRest.

(** ** Endpoint and headers of a client *)

Lemma strip_trailing_slash_app_slash s :
  strip_trailing_slash (s +:+ "/") = s.
Proof.
  induction s as [|c s IH]; [reflexivity|].
  destruct s as [|c' s]; [reflexivity|].
  change (String c (String c' s) +:+ "/") with (String c (String c' s +:+ "/")).
  change (String c' s +:+ "/") with (String c' (s +:+ "/")) in *.
  change (strip_trailing_slash (String c (String c' (s +:+ "/"))))
    with (String c (strip_trailing_slash (String c' (s +:+ "/")))).
  rewrite IH. reflexivity.
Qed.

(** Whether the last character of a string is a slash. *)
Fixpoint ends_with_slash (s : string) : bool :=
  match s with
  | EmptyString => false
  | String c EmptyString => Ascii.eqb c "/"%char
  | String _ rest => ends_with_slash rest
  end.

Lemma strip_trailing_slash_unchanged s :
  ends_with_slash s = false -> strip_trailing_slash s = s.
Proof.
  induction s as [|c s IH]; intros Hno; [reflexivity|].
  destruct s as [|c' s].
  - cbn in *. rewrite Hno. reflexivity.
  - change (strip_trailing_slash (String c (String c' s)))
      with (String c (strip_trailing_slash (String c' s))).
    rewrite IH; [reflexivity|exact Hno].
Qed.

(** The client addresses every request to the configured endpoint with
    one trailing slash removed: an endpoint written with a final slash and
    the same endpoint written without it lead to the same URLs, and an
    endpoint without a final slash is used as it is. *)
Theorem client_urls_drop_one_trailing_slash `{!Engine}
    (parse_error_body : string -> io ErrorJson) (config : ConnectionConfig)
    (path method : string) (body : option RequestBody) :
  let sent :=
    call_request (request parse_error_body (createCantonClient config)
                    path method body) in
  (forall base, cfg_endpoint config = base +:+ "/" -> url sent = base +:+ path)
  /\ (ends_with_slash (cfg_endpoint config) = false ->
      url sent = cfg_endpoint config +:+ path).
Proof.
  cbn. split.
  - intros base ->. rewrite strip_trailing_slash_app_slash. reflexivity.
  - intros Hno. rewrite strip_trailing_slash_unchanged by assumption. reflexivity.
Qed.

Definition local_node (endpoint : string) (token : option string) : ConnectionConfig :=
  {| cfg_endpoint := endpoint; authToken := token; useTls := None;
     tlsCertPath := None |}.

Lemma client_urls_drop_one_trailing_slash_witness :
  url (call_request
         (@request ClientProofs.sample_engine ClientProofs.sample_error_json
            (createCantonClient (local_node "http://localhost:7575/" None))
            "/v2/parties" "GET" None))
  = "http://localhost:7575/v2/parties"
  /\ url (call_request
            (@request ClientProofs.sample_engine ClientProofs.sample_error_json
               (createCantonClient (local_node "http://localhost:7575" None))
               "/v2/parties" "GET" None))
     = "http://localhost:7575/v2/parties".
Proof.
  split.
  - pose proof (@client_urls_drop_one_trailing_slash ClientProofs.sample_engine
                  ClientProofs.sample_error_json
                  (local_node "http://localhost:7575/" None)
                  "/v2/parties" "GET" None) as [Hslash _].
    apply (Hslash "http://localhost:7575"). reflexivity.
  - pose proof (@client_urls_drop_one_trailing_slash ClientProofs.sample_engine
                  ClientProofs.sample_error_json
                  (local_node "http://localhost:7575" None)
                  "/v2/parties" "GET" None) as [_ Hplain].
    apply Hplain. reflexivity.
Defined.

(** Every client sends the JSON content type, and sends an
    [Authorization] header, with the bearer token, exactly when the
    configured token is a non-empty string. *)
Theorem client_sends_bearer_token_iff_configured (config : ConnectionConfig) :
  let headers := cl_headers (createCantonClient config) in
  In ("Content-Type", "application/json") headers
  /\ (forall value,
        In ("Authorization", value) headers
        <-> exists token, authToken config = Some token /\ token <> ""
                          /\ value = "Bearer " +:+ token)
  /\ (length headers <= 2)%nat.
Proof.
  cbn. split; [left; reflexivity|].
  destruct (authToken config) as [[|c token]|]; cbn.
  - split; [|lia]. intros value. split.
    + intros [[=]|[]].
    + intros (token & [= <-] & Hne & _). congruence.
  - split; [|lia]. intros value. split.
    + intros [[=]|[[= <-]|[]]]. exists (String c token). repeat split. discriminate.
    + intros (token' & [= <-] & _ & ->). right. left. reflexivity.
  - split; [|lia]. intros value. split.
    + intros [[=]|[]].
    + intros (token & [=] & _).
Qed.

(** ** The connectivity test *)

(** [testConnection] never throws, whatever the endpoint and whatever
    the fetch does.  The status it returns names the endpoint with one
    trailing slash removed (an endpoint without one is named as given),
    the request goes to that endpoint followed by the ledger-end path, and
    the status is connected exactly when the request returned a document
    other than [null]. *)
Theorem testConnection_reports_normalised_endpoint
    `{!Engine} `{!JsonType LedgerOffset}
    (parse_error_body : string -> io ErrorJson) (address : string)
    (token : option string) (fetched : io HttpResponse) :
  exists st,
    call_resume (testConnection parse_error_body address token) fetched = Return st
    /\ endpoint st = strip_trailing_slash address
    /\ url (call_request (testConnection parse_error_body address token))
       = strip_trailing_slash address +:+ "/v2/state/ledger-end"
    /\ (forall base, address = base +:+ "/" -> endpoint st = base)
    /\ (ends_with_slash address = false -> endpoint st = address)
    /\ (connected st = true
        <-> exists document,
              request_resume parse_error_body "/v2/state/ledger-end" fetched
              = Return document
              /\ document <> JNull).
Proof.
  unfold testConnection, getConnectionStatus, after.
  cbn [call_resume call_request ping get request url createCantonClient
       cl_endpoint cfg_endpoint].
  assert (Hbase : forall base, address = base +:+ "/" ->
                    strip_trailing_slash address = base).
  { intros base ->. apply strip_trailing_slash_app_slash. }
  pose proof (strip_trailing_slash_unchanged address) as Hplain.
  destruct (request_resume parse_error_body "/v2/state/ledger-end" fetched)
    as [[]|e]; cbn; eexists; (split; [reflexivity|]); cbn;
    (split; [reflexivity|]); (split; [reflexivity|]);
    (split; [exact Hbase|]); (split; [exact Hplain|]);
    split; try discriminate; try (intros (document & [= <-] & Hnot); congruence);
    try (intros (document & [=] & _));
    intros _; eexists; (split; [reflexivity|discriminate]).
Qed.

Lemma testConnection_reports_normalised_endpoint_witness :
  exists st,
    call_resume (@testConnection ClientProofs.sample_engine
                   ClientProofs.sample_error_json ClientProofs.sample_offset_type
                   "http://localhost:7575" None)
      (Ok ClientProofs.response_200)
    = Return st
    /\ endpoint st = "http://localhost:7575"
    /\ connected st = true.
Proof.
  destruct (@testConnection_reports_normalised_endpoint ClientProofs.sample_engine
              ClientProofs.sample_offset_type ClientProofs.sample_error_json
              "http://localhost:7575" None (Ok ClientProofs.response_200))
    as (st & Hst & _ & _ & _ & Hplain & Hconnected).
  exists st. split; [exact Hst|]. split; [apply Hplain; reflexivity|].
  apply Hconnected. exists ClientProofs.sample_transaction_document.
  split; [reflexivity|discriminate].
Defined.

(** ** Listing calls *)







(** ** Failed requests *)

Lemma or_string_nonempty a b : b <> "" -> or_string a b <> "".
Proof.
  intros Hb. unfold or_string. destruct a as [[|c a]|]; cbn; congruence.
Qed.



(** ** Active contracts *)

(** The created events of a response with the offsets of their items, in
    response order. *)
Definition created_items (response : list ActiveContractsStreamItem)
    : list (CreatedEvent * LedgerOffset) :=
  omap (fun item => (fun event => (event, aci_offset item))
                      <$> (contractEntry item ≫= createdEvent))
       response.

Lemma collect_contracts_from clock response : forall contracts,
  fold_left
    (fun contracts item =>
       match contractEntry item ≫= createdEvent with
       | Some event =>
           (contracts ++
              [eventToContract (clock (length contracts)) event (aci_offset item)])%list
       | None => contracts
       end)
    response contracts
  = (contracts
     ++ imap (fun k p => eventToContract (clock (length contracts + k)%nat) (fst p) (snd p))
          (created_items response))%list.
Proof.
  induction response as [|item response IH]; intros contracts; cbn [fold_left].
  { cbn. symmetry. apply app_nil_r. }
  rewrite IH. unfold created_items at 2. cbn [omap list_omap].
  fold (created_items response).
  destruct (contractEntry item ≫= createdEvent) as [event|]; cbn [fmap option_fmap option_map].
  - rewrite imap_cons, <- app_assoc. cbn [app fst snd].
    rewrite Nat.add_0_r. do 2 f_equal.
    apply imap_ext. intros k p _. cbn. do 2 f_equal.
    rewrite length_app. cbn. lia.
  - reflexivity.
Qed.

Lemma length_created_items response :
  (length (created_items response) <= length response)%nat.
Proof.
  induction response as [|item response IH]; [reflexivity|].
  unfold created_items in *. cbn [omap list_omap].
  destruct (_ <$> _); cbn; lia.
Qed.

(** [getActiveContracts] turns the created events of the response into
    contracts, one each, in response order and at the offset of their item;
    items without a created event are skipped, so there are never more
    contracts than items, and the contract ids do not depend on the clock. *)
Theorem collect_contracts_keeps_created_events (clock : nat -> string)
    (response : list ActiveContractsStreamItem) :
  collect_contracts clock response
  = imap (fun k p => eventToContract (clock k) (fst p) (snd p))
         (created_items response)
  /\ (length (collect_contracts clock response) <= length response)%nat
  /\ map (fun c => (contractId c, offset c)) (collect_contracts clock response)
     = map (fun p => (ev_contractId (created_base (fst p)), snd p))
           (created_items response).
Proof.
  assert (Heq : collect_contracts clock response
                = imap (fun k p => eventToContract (clock k) (fst p) (snd p))
                       (created_items response)).
  { unfold collect_contracts. rewrite collect_contracts_from. reflexivity. }
  split; [exact Heq|]. rewrite Heq. split.
  - rewrite length_imap. apply length_created_items.
  - generalize (created_items response) clock.
    induction l as [|p l IH]; intros clock'; [reflexivity|].
    rewrite imap_cons. cbn [map]. f_equal. apply (IH (clock' ∘ S)).
Qed.

(** ** Response streams *)

Section Streams.
Context `{!Engine} {Item : Type} `{!JsonType Item}.
Context (body : JsonValue -> outcome unit).

(** When the loop body throws on no element, the loop sees each of
    them, read at its type. *)
Lemma stream_elements_read (elements : list JsonValue) :
  (forall item, item ∈ elements -> body item = Return tt) ->
  mapM (fun item => _ ← body item; Return (of_json (T:=Item) item)) elements
  = Return (map of_json elements).
Proof.
  induction elements as [|item elements IH]; intros Hpass; [reflexivity|].
  cbn [mapM map]. rewrite (Hpass item) by left. cbn [mbind outcome_bind].
  rewrite IH; [reflexivity|]. intros item' Hin. apply Hpass. right. exact Hin.
Qed.

(** The loop ends with what the loop body throws on the first element
    on which it throws. *)
Lemma stream_elements_throw (before after : list JsonValue) (item : JsonValue) e :
  (forall item', item' ∈ before -> body item' = Return tt) ->
  body item = Throw e ->
  mapM (fun item => _ ← body item; Return (of_json (T:=Item) item))
       (before ++ item :: after)%list
  = Throw e.
Proof.
  induction before as [|first before IH]; intros Hpass Hthrow.
  - cbn [app mapM]. rewrite Hthrow. reflexivity.
  - cbn [app mapM]. rewrite (Hpass first) by left. cbn [mbind outcome_bind].
    rewrite IH; [reflexivity| |exact Hthrow].
    intros item' Hin. apply Hpass. right. exact Hin.
Qed.

End Streams.

(** The loop body of [getTransactions] throws on [null] items only. *)
Lemma transaction_item_cases `{!Engine} (item : JsonValue) :
  transaction_item item
  = match item with
    | JNull => Throw (TypeError (null_property_message "transaction"))
    | _ => Return tt
    end.
Proof. destruct item; reflexivity. Qed.

(** The loop body of [getActiveContracts] throws on [null] items, and
    on items whose created event has signatories or observers that cannot
    be iterated. *)
Lemma contract_item_cases `{!Engine} (item : JsonValue) :
  contract_item item
  = match item with
    | JNull => Throw (TypeError (null_property_message "contractEntry"))
    | _ =>
        match truthy_value
                (optional_property (optional_property (Some item) "contractEntry")
                   "createdEvent") with
        | None => Return tt
        | Some event =>
            if negb (ClientProofs.iterable (optional_property (Some event) "signatories"))
            then Throw (TypeError (not_iterable_message "event.signatories"))
            else if negb (ClientProofs.iterable
                            (optional_property (Some event) "observers"))
            then Throw (TypeError (not_iterable_message "event.observers"))
            else Return tt
        end
    end.
Proof.
  assert (Hspreads : forall v event,
            truthy_value v = Some event ->
            event_spreads event
            = if negb (ClientProofs.iterable (optional_property (Some event) "signatories"))
              then Throw (TypeError (not_iterable_message "event.signatories"))
              else if negb (ClientProofs.iterable
                              (optional_property (Some event) "observers"))
              then Throw (TypeError (not_iterable_message "event.observers"))
              else Return tt).
  { intros v event Hv. apply ClientProofs.event_spreads_cases. intros ->.
    destruct v as [[]|]; cbn in Hv; try discriminate;
      repeat match type of Hv with
             | (if ?b then _ else _) = _ => destruct b
             end; discriminate. }
  unfold contract_item.
  destruct item; cbn [get_property mbind outcome_bind optional_property];
    try reflexivity.
  destruct (truthy_value (optional_property (own_property fields "contractEntry")
                            "createdEvent")) as [event|] eqn:Hevent; [|reflexivity].
  exact (Hspreads _ _ Hevent).
Qed.

(** For a 2xx response, [getActiveContracts] reads the parsed document
    unchecked.  When the document can be iterated and the loop body
    throws on no element, it returns the contracts of the created events
    of its items, as the loop collects them.  Otherwise it throws a
    [TypeError]: that of the first element on which the loop body throws
    (a [null] element, or a created event whose signatories or observers
    cannot be iterated), or that of a document which is neither an array
    nor a string (so for [null], for an object, and for the [{}] of an
    empty body). *)
Theorem getActiveContracts_reads_the_stream
    `{!Engine} `{!JsonType ActiveContractsStreamItem}
    (parse_error_body : string -> io ErrorJson) (this : Client)
    (clock : nat -> string) (partyId : PartyId)
    (templateIds : option (list TemplateId)) (offset : option LedgerOffset)
    (verbose : option bool)
    (response : HttpResponse) (body : string) (document : JsonValue) :
  ok response = true -> text response = Ok body -> parse_body body = Ok document ->
  let call :=
    call_resume (getActiveContracts parse_error_body this clock partyId templateIds
                   offset verbose) (Ok response) in
  (forall elements, iterate "response" (Some document) = Return elements ->
     (forall item, item ∈ elements -> contract_item item = Return tt) ->
     call = Return (collect_contracts clock (map of_json elements)))
  /\ (forall before item after e,
        iterate "response" (Some document) = Return (before ++ item :: after)%list ->
        (forall item', item' ∈ before -> contract_item item' = Return tt) ->
        contract_item item = Throw e ->
        call = Throw e)
  /\ (forall elements, document = JArray elements ->
        iterate "response" (Some document) = Return elements)
  /\ match document with
     | JArray _ | JString _ => True
     | _ => call = Throw (TypeError (not_iterable_message "response"))
     end
  /\ (body = "" -> call = Throw (TypeError (not_iterable_message "response")))
  /\ (forall item,
        contract_item item
        = match item with
          | JNull => Throw (TypeError (null_property_message "contractEntry"))
          | _ =>
              match truthy_value
                      (optional_property
                         (optional_property (Some item) "contractEntry")
                         "createdEvent") with
              | None => Return tt
              | Some event =>
                  if negb (ClientProofs.iterable
                             (optional_property (Some event) "signatories"))
                  then Throw (TypeError (not_iterable_message "event.signatories"))
                  else if negb (ClientProofs.iterable
                                  (optional_property (Some event) "observers"))
                  then Throw (TypeError (not_iterable_message "event.observers"))
                  else Return tt
              end
          end).
Proof.
  intros Hok Htext Hparse call. subst call.
  unfold getActiveContracts, after, post, request. cbn [call_resume].
  rewrite (ClientProofs.request_resume_ok _ _ _ _ Hok Htext), Hparse.
  cbn [lift mbind outcome_bind]. unfold stream_items.
  split; [|split; [|split; [|split; [|split]]]].
  - intros elements -> Hpass. cbn [mbind outcome_bind].
    rewrite (stream_elements_read _ _ Hpass). reflexivity.
  - intros before item after e -> Hpass Hthrow. cbn [mbind outcome_bind].
    rewrite (stream_elements_throw _ _ _ _ _ Hpass Hthrow). reflexivity.
  - intros elements ->. reflexivity.
  - destruct document; try reflexivity; exact I.
  - intros ->. cbn in Hparse. injection Hparse as <-. reflexivity.
  - apply contract_item_cases.
Qed.

(** The item of a document, without its created event. *)
Definition sample_contract_item_type : JsonType ActiveContractsStreamItem :=
  {| of_json := fun v =>
       {| aci_offset := match v with
                        | JObject fields =>
                            match own_property fields "offset" with
                            | Some (JNumber n) => n
                            | _ => 0
                            end
                        | _ => 0
                        end;
          aci_workflowId := None;
          contractEntry := None |} |}.

Lemma getActiveContracts_reads_the_stream_witness :
  call_resume (@getActiveContracts ClientProofs.sample_engine
                 ClientProofs.sample_error_json ClientProofs.sample_client
                 sample_contract_item_type (fun _ => "2024-01-01T00:00:00.000Z")
                 "Alice::1220" None None None)
    (Ok {| status := 200; statusText := "OK"; text := Ok "[]" |})
  = Return []
  /\ call_resume (@getActiveContracts ClientProofs.sample_engine
                    ClientProofs.sample_error_json ClientProofs.sample_client
                    sample_contract_item_type (fun _ => "2024-01-01T00:00:00.000Z")
                    "Alice::1220" None None None)
       (Ok {| status := 200; statusText := "OK"; text := Ok "" |})
     = Throw (TypeError "response is not iterable").
Proof.
  split.
  - destruct (@getActiveContracts_reads_the_stream ClientProofs.sample_engine
                sample_contract_item_type
                ClientProofs.sample_error_json ClientProofs.sample_client
                (fun _ => "2024-01-01T00:00:00.000Z") "Alice::1220" None None None
                {| status := 200; statusText := "OK"; text := Ok "[]" |}
                "[]" (JArray []) eq_refl eq_refl eq_refl)
      as (Hread & _).
    apply (Hread [] eq_refl). intros item Hin. apply elem_of_nil in Hin. contradiction.
  - destruct (@getActiveContracts_reads_the_stream ClientProofs.sample_engine
                sample_contract_item_type
                ClientProofs.sample_error_json ClientProofs.sample_client
                (fun _ => "2024-01-01T00:00:00.000Z") "Alice::1220" None None None
                {| status := 200; statusText := "OK"; text := Ok "" |}
                "" (JObject []) eq_refl eq_refl eq_refl)
      as (_ & _ & _ & _ & Hempty & _).
    exact (Hempty eq_refl).
Defined.

Lemma transaction_items_read `{!Engine} (elements : list JsonValue) :
  JNull ∉ elements ->
  forall item, item ∈ elements -> transaction_item item = Return tt.
Proof.
  intros Hnot item Hin. rewrite transaction_item_cases.
  destruct item; try reflexivity. contradiction.
Qed.

(** For a 2xx response, [getTransactions] reads the parsed document
    unchecked.  When the document can be iterated and no element is
    [null], it returns a prefix of the transactions of the stream, in
    order: the first [limit] of them for a positive limit, all of them
    when no limit or the limit 0 is given, and all but the last [-limit]
    for a negative one.  When an element is [null], or when the document
    is neither an array nor a string (so for [null], for an object, and
    for the [{}] of an empty body), it throws a [TypeError]. *)
Theorem getTransactions_returns_prefix `{!Engine} `{!JsonType TransactionsStreamItem}
    (parse_error_body : string -> io ErrorJson) (this : Client)
    (partyId : PartyId) (templateIds : option (list TemplateId))
    (beginOffset endOffset : option LedgerOffset) (limit : option Z)
    (response : HttpResponse) (body : string) (document : JsonValue) :
  ok response = true -> text response = Ok body -> parse_body body = Ok document ->
  let call :=
    call_resume (getTransactions parse_error_body this partyId templateIds
                   beginOffset endOffset limit) (Ok response) in
  (forall elements, iterate "response" (Some document) = Return elements ->
     JNull ∉ elements ->
     let stream := omap tsi_transaction (map of_json elements) in
     exists result,
       call = Return result
       /\ result `prefix_of` stream
       /\ (forall n, limit = Some n -> 0 < n ->
             result = take (Z.to_nat n) stream /\ (Z.of_nat (length result) <= n))
       /\ (limit = None \/ limit = Some 0 -> result = stream)
       /\ (forall n, limit = Some n -> n < 0 ->
             length result = (length stream - Z.to_nat (- n))%nat))
  /\ (forall elements, iterate "response" (Some document) = Return elements ->
        JNull ∈ elements ->
        call = Throw (TypeError (null_property_message "transaction")))
  /\ (forall elements, document = JArray elements ->
        iterate "response" (Some document) = Return elements)
  /\ match document with
     | JArray _ | JString _ => True
     | _ => call = Throw (TypeError (not_iterable_message "response"))
     end
  /\ (body = "" -> call = Throw (TypeError (not_iterable_message "response"))).
Proof.
  intros Hok Htext Hparse call. subst call.
  unfold getTransactions, after, post, request. cbn [call_resume].
  rewrite (ClientProofs.request_resume_ok _ _ _ _ Hok Htext), Hparse.
  cbn [lift mbind outcome_bind]. unfold stream_items.
  split; [|split; [|split; [|split]]].
  - intros elements -> Hnot. cbn [mbind outcome_bind].
    rewrite (stream_elements_read _ _ (transaction_items_read _ Hnot)).
    cbn [mbind outcome_bind].
    set (stream := omap tsi_transaction (map of_json elements)).
    eexists. split; [reflexivity|].
    destruct limit as [n|].
    2: { split; [reflexivity|]. split; [intros ? [=]|].
         split; [reflexivity|intros ? [=]]. }
    destruct (Z.eqb_spec n 0) as [->|Hn].
    + split; [reflexivity|]. split; [intros ? [= <-]; lia|].
      split; [reflexivity|intros ? [= <-]; lia].
    + unfold slice0. destruct (Z.ltb_spec n 0) as [Hneg|Hpos].
      * split; [apply prefix_take|]. split; [intros ? [= <-]; lia|].
        split; [intros [|[= ?]]; congruence|].
        intros ? [= <-] _. rewrite length_take. lia.
      * split; [apply prefix_take|]. split.
        -- intros ? [= <-] _. split; [reflexivity|]. rewrite length_take. lia.
        -- split; [intros [|[= ?]]; congruence|]. intros ? [= <-]. lia.
  - intros elements -> Hin. cbn [mbind outcome_bind].
    assert (Hsplit : exists before after,
               elements = (before ++ JNull :: after)%list /\ JNull ∉ before).
    { clear -Hin. induction elements as [|item elements IH].
      - apply elem_of_nil in Hin. contradiction.
      - destruct item as [|b|n|str|items|members];
          [exists [], elements; split; [reflexivity|apply not_elem_of_nil]|..];
          (apply elem_of_cons in Hin as [Hin|Hin]; [discriminate Hin|];
           destruct (IH Hin) as (before & after & -> & Hnot);
           eexists (_ :: before), after; split; [reflexivity|];
           rewrite not_elem_of_cons; split; [discriminate|exact Hnot]). }
    destruct Hsplit as (before & after & -> & Hnot).
    rewrite (stream_elements_throw _ _ _ JNull _ (transaction_items_read _ Hnot)
               eq_refl).
    reflexivity.
  - intros elements ->. reflexivity.
  - destruct document; try reflexivity; exact I.
  - intros ->. cbn in Hparse. injection Hparse as <-. reflexivity.
Qed.

(** The item of a document: its [transaction] field, when truthy. *)
Definition sample_item_type : JsonType TransactionsStreamItem :=
  {| of_json := fun v =>
       {| tsi_transaction :=
            match v with
            | JObject fields =>
                @of_json _ ClientProofs.sample_transaction_type
                  <$> truthy_value (own_property fields "transaction")
            | _ => None
            end |} |}.

Definition response_stream : HttpResponse :=
  {| status := 200; statusText := "OK";
     text := Ok "[{transaction:{updateId:upd-1}},{},{transaction:{updateId:upd-1}}]" |}.

Lemma getTransactions_returns_prefix_witness :
  (exists result,
     call_resume (@getTransactions ClientProofs.sample_engine
                    ClientProofs.sample_error_json ClientProofs.sample_client
                    sample_item_type "Alice::1220" None (Some 0) None (Some 1))
       (Ok response_stream)
     = Return result
     /\ result = [ClientProofs.sample_transaction])
  /\ call_resume (@getTransactions ClientProofs.sample_engine
                    ClientProofs.sample_error_json ClientProofs.sample_client
                    sample_item_type "Alice::1220" None (Some 0) None (Some 1))
       (Ok {| status := 200; statusText := "OK"; text := Ok "" |})
     = Throw (TypeError "response is not iterable").
Proof.
  split.
  - destruct (@getTransactions_returns_prefix ClientProofs.sample_engine
                sample_item_type
                ClientProofs.sample_error_json ClientProofs.sample_client
                "Alice::1220" None (Some 0) None (Some 1)
                response_stream
                "[{transaction:{updateId:upd-1}},{},{transaction:{updateId:upd-1}}]"
                ClientProofs.sample_stream_document
                eq_refl eq_refl eq_refl)
      as (Hread & _).
    destruct (Hread _ eq_refl) as (result & Hcall & _ & Hpos & _).
    { intros Hin. repeat (apply elem_of_cons in Hin as [Hin|Hin]; [discriminate Hin|]).
      apply elem_of_nil in Hin. exact Hin. }
    exists result. split; [exact Hcall|].
    apply (Hpos 1 eq_refl). lia.
  - destruct (@getTransactions_returns_prefix ClientProofs.sample_engine
                sample_item_type
                ClientProofs.sample_error_json ClientProofs.sample_client
                "Alice::1220" None (Some 0) None (Some 1)
                {| status := 200; statusText := "OK"; text := Ok "" |}
                "" (JObject []) eq_refl eq_refl eq_refl)
      as (_ & _ & _ & _ & Hempty).
    exact (Hempty eq_refl).
Defined.

End ClientRestProofs.

(** * Further properties of the projection store *)

Module StoreRestProofs.
Import CantonClient Store StoreRest.

(** ** The contracts map *)

Lemma contractMap_from (contracts : list Contract) : forall (m : gmap string Contract) id,
  fold_left (fun m contract => <[contractId contract := contract]> m) contracts m !! id
  = match last (filter (fun c => contractId c = id) contracts) with
    | Some c => Some c
    | None => m !! id
    end.
Proof.
  induction contracts as [|c contracts IH]; intros m id; [reflexivity|].
  cbn [fold_left]. rewrite IH, filter_cons.
  destruct (decide (contractId c = id)) as [Hc|Hc].
  - rewrite last_cons.
    destruct (last (filter (fun c => contractId c = id) contracts)); [reflexivity|].
    rewrite <- Hc. apply lookup_insert_eq.
  - destruct (last (filter (fun c => contractId c = id) contracts)); [reflexivity|].
    apply lookup_insert_ne. exact Hc.
Qed.

(** After a successful [loadContracts], looking a contract id up in the
    store gives the last contract of the response with that id, and
    nothing when the response has none: the answer does not depend on
    what the store held before the load. *)
Theorem loaded_contracts_replace_the_map (s : State) (query : option ContractQuery)
    (loaded : list Contract) (id : ContractId) :
  client s <> None -> activeParty s <> None ->
  let s' := loadContracts query (Return loaded) s in
  getContract id s' = last (filter (fun c => contractId c = id) loaded)
  /\ (is_Some (getContract id s') <-> exists c, c ∈ loaded /\ contractId c = id)
  /\ (forall c, getContract id s' = Some c -> c ∈ loaded /\ contractId c = id).
Proof.
  intros Hclient Hparty s'.
  assert (Hget : getContract id s'
                 = last (filter (fun c => contractId c = id) loaded)).
  { subst s'. unfold getContract, loadContracts, loadContracts_begin.
    destruct (client s); [|congruence]. destruct (activeParty s); [|congruence].
    cbn. unfold contractMap. rewrite contractMap_from.
    destruct (last _); [reflexivity|apply lookup_empty]. }
  assert (Hin : forall c, getContract id s' = Some c -> c ∈ loaded /\ contractId c = id).
  { intros c Hc. rewrite Hget in Hc. apply last_Some_elem_of in Hc.
    apply list_elem_of_filter in Hc. tauto. }
  split; [exact Hget|]. split; [|exact Hin]. split.
  - intros [c Hc]. exists c. apply Hin, Hc.
  - intros (c & Hc & Hid). rewrite Hget.
    assert (Hf : c ∈ filter (fun c => contractId c = id) loaded)
      by (apply list_elem_of_filter; auto).
    destruct (filter (fun c => contractId c = id) loaded) as [|x l] eqn:Hl.
    + inversion Hf.
    + rewrite last_cons. destruct (last l); eauto.
Qed.

Lemma loaded_contracts_replace_the_map_witness :
  getContract "c-bob"
    (loadContracts None (Return [StoreProofs.contract_of "c-bob" "Bob::1220"])
       StoreProofs.loaded_store)
  = Some (StoreProofs.contract_of "c-bob" "Bob::1220")
  /\ ~ is_Some (getContract "c-alice"
                  (loadContracts None (Return [StoreProofs.contract_of "c-bob" "Bob::1220"])
                     StoreProofs.loaded_store)).
Proof.
  destruct (loaded_contracts_replace_the_map StoreProofs.loaded_store None
              [StoreProofs.contract_of "c-bob" "Bob::1220"] "c-bob")
    as (Hget & _); [discriminate|discriminate|].
  destruct (loaded_contracts_replace_the_map StoreProofs.loaded_store None
              [StoreProofs.contract_of "c-bob" "Bob::1220"] "c-alice")
    as (_ & Hsome & _); [discriminate|discriminate|].
  split.
  - rewrite Hget. reflexivity.
  - intros H. apply Hsome in H as (c & Hc & Hid).
    apply list_elem_of_singleton in Hc. subst c. discriminate Hid.
Defined.

(** ** The last offset *)

Lemma max_offset_spec first rest :
  max_offset first rest ∈ first :: rest
  /\ forall o, o ∈ first :: rest -> o <= max_offset first rest.
Proof.
  unfold max_offset. revert first.
  induction rest as [|x rest IH]; intros first; cbn [fold_left].
  - split; [left|]. intros o Ho. apply list_elem_of_singleton in Ho. lia.
  - destruct (IH (Z.max first x)) as [Hin Hmax]. split.
    + apply elem_of_cons in Hin as [Heq|Hin].
      * rewrite Heq. destruct (Z.max_spec first x) as [[_ ->]|[_ ->]].
        -- right; left.
        -- left.
      * right; right. exact Hin.
    + intros o Ho.
      assert (Z.max first x <= fold_left Z.max rest (Z.max first x))
        by (apply Hmax; left).
      apply elem_of_cons in Ho as [->|Ho]; [lia|].
      apply elem_of_cons in Ho as [->|Ho]; [lia|].
      apply Hmax. right. exact Ho.
Qed.

(** After a successful [loadTransactions] the last offset is the largest
    offset among the loaded transactions, whatever it was before (it can
    go down); an empty result leaves it as it was. *)
Theorem loaded_transactions_set_last_offset (s : State) (limit : option Z)
    (loaded : list Transaction) :
  client s <> None -> activeParty s <> None ->
  let s' := loadTransactions limit (Return loaded) s in
  transactions s' = loaded
  /\ (loaded = [] -> lastOffset s' = lastOffset s)
  /\ (loaded <> [] ->
      (exists t, t ∈ loaded /\ lastOffset s' = tx_offset t)
      /\ forall t, t ∈ loaded -> tx_offset t <= lastOffset s').
Proof.
  intros Hclient Hparty s'. subst s'.
  unfold loadTransactions, loadTransactions_begin.
  destruct (client s); [|congruence]. destruct (activeParty s); [|congruence].
  cbn. split; [reflexivity|]. split; [intros ->; reflexivity|].
  intros Hne. destruct loaded as [|t0 loaded]; [congruence|]. cbn [map].
  destruct (max_offset_spec (tx_offset t0) (map tx_offset loaded)) as [Hin Hmax].
  split.
  - change (tx_offset t0 :: map tx_offset loaded) with (map tx_offset (t0 :: loaded)) in Hin.
    apply list_elem_of_fmap in Hin as (t & Ht & Hin). exists t. auto.
  - intros t Ht. apply Hmax.
    change (tx_offset t0 :: map tx_offset loaded) with (map tx_offset (t0 :: loaded)).
    apply list_elem_of_fmap. eauto.
Qed.

Lemma loaded_transactions_set_last_offset_witness :
  lastOffset (loadTransactions None
                (Return [StoreProofs.transaction_of "upd-1" 3])
                StoreProofs.loaded_store)
  = 3
  /\ lastOffset StoreProofs.loaded_store = 9.
Proof.
  destruct (loaded_transactions_set_last_offset StoreProofs.loaded_store None
              [StoreProofs.transaction_of "upd-1" 3])
    as (_ & _ & Hlast); [discriminate|discriminate|].
  destruct Hlast as [(t & Ht & ->) _]; [discriminate|].
  apply list_elem_of_singleton in Ht. subst t. split; reflexivity.
Defined.

(** ** A store with two loads in flight *)

(** Bob selected in the idle store: his two loads are in flight. *)
Definition bob_selected : System :=
  step (SetActiveParty StoreProofs.bob) StoreProofs.idle_system.

Lemma bob_selected_sent :
  inflight bob_selected !! 0%nat = Some (AwaitActiveContracts "Bob::1220" None None).
Proof. vm_compute. reflexivity. Qed.

(** ** A refresh whose two loads fare differently *)

(** The two calls sent by [refreshData] in a store that has a client and
    an active party, and the state of the store once they are sent. *)
Lemma refreshData_sends sys party :
  client (store sys) <> None -> activeParty (store sys) = Some party ->
  inflight (refreshData sys) !! next_id sys
  = Some (AwaitActiveContracts (partyId party) None None)
  /\ inflight (refreshData sys) !! S (next_id sys)
     = Some (AwaitTransactions (partyId party) 100 (lastOffset (store sys)))
  /\ store (refreshData sys) = set_error None (set_isLoading true (store sys)).
Proof.
  intros Hclient Hparty.
  destruct (client (store sys)) as [c|] eqn:Hc; [|congruence].
  unfold refreshData, loadContracts_begin, loadTransactions_begin.
  rewrite Hparty, Hc. cbn. rewrite Hc, Hparty. cbn.
  split; [|split; [|reflexivity]].
  - rewrite lookup_insert_ne by lia. apply lookup_insert_eq.
  - apply lookup_insert_eq.
Qed.

(** The two settlements of a refresh, in one order or the other. *)
Definition settle_both (n : nat) (contracts_first : bool)
    (c : outcome (list Contract)) (t : outcome (list Transaction)) : list Trigger :=
  if contracts_first
  then [ContractsSettled n c; TransactionsSettled (S n) t]
  else [TransactionsSettled (S n) t; ContractsSettled n c].

Lemma refresh_then_settle_both sys party contracts_first c t :
  client (store sys) <> None -> activeParty (store sys) = Some party ->
  store (run_events (RefreshData :: settle_both (next_id sys) contracts_first c t) sys)
  = if contracts_first
    then loadTransactions_resume (lastOffset (store sys)) t
           (loadContracts_resume c (set_error None (set_isLoading true (store sys))))
    else loadContracts_resume c
           (loadTransactions_resume (lastOffset (store sys)) t
              (set_error None (set_isLoading true (store sys)))).
Proof.
  intros Hclient Hparty.
  destruct (refreshData_sends sys party Hclient Hparty) as (Hc & Ht & Hs).
  change (run_events (RefreshData :: ?evs) sys) with (run_events evs (refreshData sys)).
  unfold settle_both. destruct contracts_first; cbn [run_events fold_left].
  - rewrite (StoreProofs.settle_contracts _ _ _ _ _ _ Hc).
    erewrite StoreProofs.settle_transactions
      by (cbn [inflight]; rewrite lookup_delete_ne by lia; exact Ht).
    cbn [store]. rewrite Hs. reflexivity.
  - rewrite (StoreProofs.settle_transactions _ _ _ _ _ _ Ht).
    erewrite StoreProofs.settle_contracts
      by (cbn [inflight]; rewrite lookup_delete_ne by lia; exact Hc).
    cbn [store]. rewrite Hs. reflexivity.
Qed.

(** In a refresh, the failure of one load does not undo the other and is
    not hidden by it: whichever of the two calls settles first, the load
    that succeeded has committed its data, the error of the one that
    failed is on the store, the data of the failed load is what it was,
    and the loading flag is down. *)
Theorem refresh_commits_one_load_and_reports_the_other (sys : System) (party : Party)
    (failure : thrown) (loaded : list Contract) (history : list Transaction)
    (contracts_first : bool) :
  client (store sys) <> None -> activeParty (store sys) = Some party ->
  (let final :=
     store (run_events
              (RefreshData :: settle_both (next_id sys) contracts_first
                                (Throw failure) (Return history)) sys) in
   error final = Some (message_or "Failed to load contracts" failure)
   /\ transactions final = history
   /\ contracts final = contracts (store sys)
   /\ isLoading final = false)
  /\ (let final :=
        store (run_events
                 (RefreshData :: settle_both (next_id sys) contracts_first
                                   (Return loaded) (Throw failure)) sys) in
      error final = Some (message_or "Failed to load transactions" failure)
      /\ contracts final = contractMap loaded
      /\ transactions final = transactions (store sys)
      /\ lastOffset final = lastOffset (store sys)
      /\ isLoading final = false).
Proof.
  intros Hclient Hparty. split; cbv zeta;
    rewrite (refresh_then_settle_both _ _ _ _ _ Hclient Hparty);
    destruct contracts_first; cbn; repeat split.
Qed.

(** Alice selected and both her loads settled: a store at rest. *)
Definition alice_at_rest : System :=
  {| store := StoreProofs.loaded_store; inflight := ∅; next_id := 0 |}.

Lemma refresh_commits_one_load_and_reports_the_other_witness :
  error (store (run_events
                  (RefreshData :: settle_both (next_id alice_at_rest) false
                                    (Throw (Native (NativeError "Failed to fetch")))
                                    (Return []))
                  alice_at_rest))
  = Some "Failed to fetch".
Proof.
  assert (Hclient : client (store alice_at_rest) <> None) by discriminate.
  assert (Hparty : activeParty (store alice_at_rest) = Some StoreProofs.alice)
    by reflexivity.
  exact (proj1 (proj1 (refresh_commits_one_load_and_reports_the_other alice_at_rest
                         StoreProofs.alice (Native (NativeError "Failed to fetch"))
                         [] [] false Hclient Hparty))).
Defined.

(** The store has one loading flag for both loads: after a refresh, the
    first call to settle lowers the flag although the other call is still
    in flight. *)
Theorem loading_flag_drops_at_first_settlement (sys : System) (party : Party)
    (result : outcome (list Contract)) :
  client (store sys) <> None -> activeParty (store sys) = Some party ->
  let sys' := run_events [RefreshData; ContractsSettled (next_id sys) result] sys in
  isLoading (store sys') = false
  /\ inflight sys' !! S (next_id sys)
     = Some (AwaitTransactions (partyId party) 100 (lastOffset (store sys))).
Proof.
  intros Hclient Hparty sys'. subst sys'.
  destruct (refreshData_sends sys party Hclient Hparty) as (Hc & Ht & Hs).
  change (run_events [RefreshData; ContractsSettled (next_id sys) result] sys)
    with (step (ContractsSettled (next_id sys) result) (refreshData sys)).
  rewrite (StoreProofs.settle_contracts _ _ _ _ _ _ Hc). cbn [store inflight].
  split; [destruct result; reflexivity|].
  rewrite lookup_delete_ne by lia. exact Ht.
Qed.

Lemma loading_flag_drops_at_first_settlement_witness :
  isLoading (store (run_events
                      [RefreshData; ContractsSettled (next_id alice_at_rest) (Return [])]
                      alice_at_rest))
  = false.
Proof.
  assert (Hclient : client (store alice_at_rest) <> None) by discriminate.
  assert (Hparty : activeParty (store alice_at_rest) = Some StoreProofs.alice)
    by reflexivity.
  exact (proj1 (loading_flag_drops_at_first_settlement alice_at_rest
                  StoreProofs.alice (Return []) Hclient Hparty)).
Defined.

(** ** Disconnecting with calls in flight *)

(** [disconnect] clears the store but cancels nothing: a contracts call
    that settles afterwards commits its contracts into the disconnected
    store, which then has no client and no active party but holds data. *)
Theorem disconnect_does_not_cancel_loads (sys : System) (id : nat)
    (partyId0 : PartyId) (templateIds : option (list TemplateId))
    (offset0 : option LedgerOffset) (loaded : list Contract) :
  inflight sys !! id = Some (AwaitActiveContracts partyId0 templateIds offset0) ->
  let final := run_events [Disconnect; ContractsSettled id (Return loaded)] sys in
  client (store final) = None
  /\ activeParty (store final) = None
  /\ connected (status (store final)) = false
  /\ contracts (store final) = contractMap loaded
  /\ inflight final !! id = None.
Proof.
  intros Hid final. subst final.
  change (run_events [Disconnect; ContractsSettled id (Return loaded)] sys)
    with (step (ContractsSettled id (Return loaded))
            (with_store (disconnect (store sys)) sys)).
  erewrite StoreProofs.settle_contracts by (cbn [inflight with_store]; exact Hid).
  cbn. repeat split. apply lookup_delete_eq.
Qed.

Lemma disconnect_does_not_cancel_loads_witness :
  contracts (store (run_events
                      [Disconnect;
                       ContractsSettled 0
                         (Return [StoreProofs.contract_of "c-bob" "Bob::1220"])]
                      bob_selected))
  = contractMap [StoreProofs.contract_of "c-bob" "Bob::1220"].
Proof.
  exact (proj1 (proj2 (proj2 (proj2
           (disconnect_does_not_cancel_loads bob_selected 0 "Bob::1220" None None
              [StoreProofs.contract_of "c-bob" "Bob::1220"] bob_selected_sent))))).
Defined.

(** ** Connecting *)

(** [connect] never touches the party lens or the cached data: whether it
    succeeds or fails, the active party, contracts, transactions, last
    offset, UI and scan slices are those from before the call, so a store
    reconnected to another endpoint still shows the previous endpoint's
    party and data.  When it succeeds, the store holds the client built
    from the configuration, the configuration, a connected status, the
    fetched parties and no error. *)
Theorem connect_keeps_party_and_data (config : ConnectionConfig)
    (statusResult : outcome ConnectionStatus)
    (partiesResult : outcome (list Party)) (s : State) :
  let s' := fst (connect config statusResult partiesResult s) in
  (activeParty s' = activeParty s /\ viewAsObserver s' = viewAsObserver s
   /\ contracts s' = contracts s /\ transactions s' = transactions s
   /\ templates s' = templates s /\ lastOffset s' = lastOffset s
   /\ ui s' = ui s /\ scan s' = scan s /\ isLoading s' = false)
  /\ (snd (connect config statusResult partiesResult s) = true ->
      client s' = Some (createCantonClient config)
      /\ Store.config s' = Some config
      /\ statusResult = Return (status s')
      /\ connected (status s') = true
      /\ partiesResult = Return (availableParties s')
      /\ error s' = None).
Proof.
  unfold connect. destruct statusResult as [st|e]; cbn.
  - destruct (connected st) eqn:Hst; cbn.
    + destruct partiesResult as [parties|e]; cbn.
      * repeat split; auto.
      * split; [repeat split|discriminate].
    + split; [repeat split|discriminate].
  - split; [repeat split|discriminate].
Qed.

Lemma connect_keeps_party_and_data_witness :
  client (fst (connect StoreProofs.node_b (Return (StoreProofs.up StoreProofs.node_b))
                 (Return []) StoreProofs.loaded_store))
  = Some (createCantonClient StoreProofs.node_b)
  /\ activeParty (fst (connect StoreProofs.node_b
                         (Return (StoreProofs.up StoreProofs.node_b))
                         (Return []) StoreProofs.loaded_store))
     = activeParty StoreProofs.loaded_store.
Proof.
  destruct (connect_keeps_party_and_data StoreProofs.node_b
              (Return (StoreProofs.up StoreProofs.node_b)) (Return [])
              StoreProofs.loaded_store) as [Hframe Hok].
  split.
  - apply Hok. reflexivity.
  - apply Hframe.
Defined.

(** Over a network, [connect] succeeds exactly when the ledger-end request
    and the party-list request both return a document other than [null]:
    any failure of the first, a [null] document included, is turned into a
    disconnected status by the probe, and any failure of the second is
    caught by [connect] itself. *)
Theorem connect_over_succeeds_iff_both_requests_return
    `{!Engine} `{!JsonType LedgerOffset} `{!JsonType (list Party)}
    (parse_error_body : string -> io ErrorJson)
    (fetch : HttpRequest -> io HttpResponse)
    (config : ConnectionConfig) (s : State) :
  let client := createCantonClient config in
  snd (connect_over parse_error_body fetch config s) = true
  <-> (exists ledgerEnd',
         run fetch (ping parse_error_body client) = Return ledgerEnd'
         /\ ledgerEnd' <> JNull)
      /\ (exists response,
            run fetch (get parse_error_body client "/v2/parties") = Return response
            /\ response <> JNull).
Proof.
  intros client. unfold connect_over. rewrite StoreProofs.connect_succeeds_iff.
  fold client. unfold run, getConnectionStatus, getParties, after.
  cbn [call_resume call_request].
  set (pinged := call_resume (ping parse_error_body client)
                   (fetch (call_request (ping parse_error_body client)))).
  set (got := call_resume (get parse_error_body client "/v2/parties")
                (fetch (call_request (get parse_error_body client "/v2/parties")))).
  split.
  - intros (st & parties & Hst & Hconn & Hparties). split.
    + destruct pinged as [[]|e]; cbn in Hst; injection Hst as <-;
        try discriminate Hconn; eexists; (split; [reflexivity|discriminate]).
    + destruct got as [[]|e]; cbn in Hparties; try discriminate Hparties;
        eexists; (split; [reflexivity|discriminate]).
  - intros [(le & -> & Hle) (response & -> & Hresponse)].
    destruct le; try congruence; destruct response; try congruence;
      cbn; eexists _, _; (split; [reflexivity|]); split; reflexivity.
Qed.

(** ** Saved filters *)

Lemma set_ui_same (s : State) : set_ui (ui s) s = s.
Proof. destruct s; reflexivity. Qed.

Lemma set_savedFilters_same (u : UIState) : set_savedFilters (savedFilters u) u = u.
Proof. destruct u; reflexivity. Qed.

Lemma keep_other_ids_all (id : string) (filters : list SavedFilter) :
  Forall (fun f => sf_id f <> id) filters ->
  List.filter (fun f => negb (String.eqb (sf_id f) id)) filters = filters.
Proof.
  induction 1 as [|f filters Hf _ IH]; [reflexivity|].
  cbn. apply String.eqb_neq in Hf. rewrite Hf. cbn. rewrite IH. reflexivity.
Qed.

(** Deleting the filter that was just saved restores the store, provided
    its identifier was not already in use; in general [deleteFilter]
    removes every saved filter with the given identifier, keeps the others
    in order, and changes nothing else in the store. *)
Theorem deleteFilter_undoes_saveFilter (uuid now name : string)
    (query : ContractQuery) (s : State) :
  (Forall (fun f => sf_id f <> uuid) (savedFilters (ui s)) ->
   deleteFilter uuid (saveFilter uuid now name query s) = s)
  /\ Forall (fun f => sf_id f <> uuid)
       (savedFilters (ui (deleteFilter uuid (saveFilter uuid now name query s))))
  /\ savedFilters (ui (deleteFilter uuid (saveFilter uuid now name query s)))
     = savedFilters (ui (deleteFilter uuid s)).
Proof.
  assert (Hdel : savedFilters (ui (deleteFilter uuid (saveFilter uuid now name query s)))
                 = savedFilters (ui (deleteFilter uuid s))).
  { cbn. rewrite List.filter_app. cbn. rewrite String.eqb_refl. cbn.
    apply app_nil_r. }
  split; [|split; [|exact Hdel]].
  - intros Hfresh. unfold deleteFilter, saveFilter. cbn.
    rewrite List.filter_app. cbn. rewrite String.eqb_refl. cbn.
    rewrite app_nil_r, keep_other_ids_all by assumption.
    destruct s as [? ? ? ? ? ? ? ? ? ? ? ? u ?]. destruct u. reflexivity.
  - rewrite Hdel. cbn. apply Forall_forall. intros f Hf.
    apply list_elem_of_In, List.filter_In in Hf as [_ Hf].
    apply negb_true_iff, String.eqb_neq in Hf. exact Hf.
Qed.

Lemma deleteFilter_undoes_saveFilter_witness :
  deleteFilter "6f1c" (saveFilter "6f1c" "2024-01-01T00:00:00.000Z" "ious"
                         emptyQuery StoreProofs.loaded_store)
  = StoreProofs.loaded_store.
Proof.
  apply (deleteFilter_undoes_saveFilter "6f1c" "2024-01-01T00:00:00.000Z" "ious"
           emptyQuery StoreProofs.loaded_store).
  constructor.
Defined.

End StoreRestProofs.

(** * Further properties of the network explorer *)

Module ExplorerRestProofs.
Import ScanExplorer ExplorerRest.

(** ** Ages *)

(** The age printed for a record time depends only on the elapsed
    milliseconds [now - time]: whole seconds below a minute, whole minutes
    below an hour, whole hours below a day, whole days from there on; a
    record time in the future, or less than a second old, prints as
    "0s ago". *)
Theorem formatAge_by_elapsed_time (now time : Z) :
  let elapsed := now - time in
  (elapsed < 1000 -> formatAge now (Some time) = "0s ago")
  /\ (0 <= elapsed < 60000 ->
      formatAge now (Some time) = pretty (elapsed / 1000) +:+ "s ago")
  /\ (60000 <= elapsed < 3600000 ->
      formatAge now (Some time) = pretty (elapsed / 60000) +:+ "m ago")
  /\ (3600000 <= elapsed < 86400000 ->
      formatAge now (Some time) = pretty (elapsed / 3600000) +:+ "h ago")
  /\ (86400000 <= elapsed ->
      formatAge now (Some time) = pretty (elapsed / 86400000) +:+ "d ago").
Proof.
  intros elapsed. unfold formatAge. fold elapsed. cbn zeta.
  assert (Hm : elapsed / 1000 / 60 = elapsed / 60000)
    by (rewrite Zdiv.Zdiv_Zdiv by lia; reflexivity).
  assert (Hh : elapsed / 60000 / 60 = elapsed / 3600000)
    by (rewrite Zdiv.Zdiv_Zdiv by lia; reflexivity).
  assert (Hd : elapsed / 3600000 / 24 = elapsed / 86400000)
    by (rewrite Zdiv.Zdiv_Zdiv by lia; reflexivity).
  assert (Hs : forall k, 0 < k -> forall b, elapsed / k < b <-> elapsed < k * b).
  { intros k Hk b. split; intros H.
    - apply Z.nle_gt. intros Hle. apply Z.div_le_lower_bound in Hle; lia.
    - apply Z.div_lt_upper_bound; lia. }
  repeat split.
  - intros Hlt.
    assert (Z.max 0 (elapsed / 1000) = 0) as ->.
    { assert (elapsed / 1000 < 1) by (apply Hs; lia). lia. }
    reflexivity.
  - intros [H0 H1].
    assert (0 <= elapsed / 1000) by (apply Z.div_pos; lia).
    rewrite Z.max_r by assumption.
    assert (elapsed / 1000 < 60) by (apply Hs; lia).
    destruct (Z.ltb_spec (elapsed / 1000) 60); [reflexivity|lia].
  - intros [H0 H1].
    assert (0 <= elapsed / 1000) by (apply Z.div_pos; lia).
    rewrite Z.max_r by assumption.
    assert (~ elapsed / 1000 < 60) by (rewrite Hs by lia; lia).
    destruct (Z.ltb_spec (elapsed / 1000) 60); [lia|].
    rewrite Hm. assert (elapsed / 60000 < 60) by (apply Hs; lia).
    destruct (Z.ltb_spec (elapsed / 60000) 60); [reflexivity|lia].
  - intros [H0 H1].
    assert (0 <= elapsed / 1000) by (apply Z.div_pos; lia).
    rewrite Z.max_r by assumption.
    assert (~ elapsed / 1000 < 60) by (rewrite Hs by lia; lia).
    destruct (Z.ltb_spec (elapsed / 1000) 60); [lia|].
    rewrite Hm. assert (~ elapsed / 60000 < 60) by (rewrite Hs by lia; lia).
    destruct (Z.ltb_spec (elapsed / 60000) 60); [lia|].
    rewrite Hh. assert (elapsed / 3600000 < 24) by (apply Hs; lia).
    destruct (Z.ltb_spec (elapsed / 3600000) 24); [reflexivity|lia].
  - intros H0.
    assert (0 <= elapsed / 1000) by (apply Z.div_pos; lia).
    rewrite Z.max_r by assumption.
    assert (~ elapsed / 1000 < 60) by (rewrite Hs by lia; lia).
    destruct (Z.ltb_spec (elapsed / 1000) 60); [lia|].
    rewrite Hm. assert (~ elapsed / 60000 < 60) by (rewrite Hs by lia; lia).
    destruct (Z.ltb_spec (elapsed / 60000) 60); [lia|].
    rewrite Hh. assert (~ elapsed / 3600000 < 24) by (rewrite Hs by lia; lia).
    destruct (Z.ltb_spec (elapsed / 3600000) 24); [lia|].
    rewrite Hd. reflexivity.
Qed.

Lemma formatAge_by_elapsed_time_witness :
  formatAge 1000 (Some 5000) = "0s ago"
  /\ formatAge 59999 (Some 0) = pretty (59999 / 1000) +:+ "s ago"
  /\ formatAge 60000 (Some 0) = pretty (60000 / 60000) +:+ "m ago"
  /\ formatAge 7260000 (Some 0) = pretty (7260000 / 3600000) +:+ "h ago"
  /\ formatAge 86400000 (Some 0) = pretty (86400000 / 86400000) +:+ "d ago".
Proof.
  split; [|split; [|split; [|split]]].
  - apply (formatAge_by_elapsed_time 1000 5000). lia.
  - apply (formatAge_by_elapsed_time 59999 0). lia.
  - apply (formatAge_by_elapsed_time 60000 0). lia.
  - apply (formatAge_by_elapsed_time 7260000 0). lia.
  - apply (formatAge_by_elapsed_time 86400000 0). lia.
Defined.

(** ** Shortened identifiers *)

Lemma length_append (s1 s2 : string) :
  String.length (s1 +:+ s2) = (String.length s1 + String.length s2)%nat.
Proof.
  induction s1 as [|c s1 IH]; [reflexivity|].
  simpl. f_equal. exact IH.
Qed.

Lemma length_substring (s : string) : forall n m,
  (n + m <= String.length s)%nat -> String.length (String.substring n m s) = m.
Proof.
  induction s as [|c s IH]; intros n m Hle; cbn in *.
  - destruct n, m; cbn; lia.
  - destruct n as [|n].
    + destruct m as [|m]; cbn; [reflexivity|]. rewrite IH by lia. reflexivity.
    + apply IH. lia.
Qed.

(** An identifier of at most [head + tail] characters is shown whole.  A
    longer one is cut down to its first [head] and last [tail] characters
    around three dots, [head + tail + 3] characters in all, which for an
    identifier of [head + tail + 1] or [head + tail + 2] characters is more
    than it had.  With [tail = 0] nothing is cut at the end: the whole
    identifier follows the dots. *)
Theorem formatShortId_lengths (id : string) (head tail : nat) :
  ((String.length id <= head + tail)%nat -> formatShortId id head tail = id)
  /\ ((head + tail < String.length id)%nat -> (0 < tail)%nat ->
      formatShortId id head tail
      = String.substring 0 head id +:+ "..."
        +:+ String.substring (String.length id - tail) tail id
      /\ String.length (formatShortId id head tail) = (head + tail + 3)%nat)
  /\ ((head < String.length id)%nat ->
      formatShortId id head 0 = String.substring 0 head id +:+ "..." +:+ id).
Proof.
  unfold formatShortId, slice_from_end. split; [|split].
  - intros Hle. apply Nat.leb_le in Hle. rewrite Hle. reflexivity.
  - intros Hlt Htail.
    assert (Hgt : Nat.leb (String.length id) (head + tail) = false)
      by (apply Nat.leb_gt; exact Hlt).
    rewrite Hgt. destruct tail as [|tail]; [lia|]. cbn [Nat.eqb].
    split; [reflexivity|].
    rewrite !length_append, !length_substring by lia. cbn. lia.
  - intros Hlt. rewrite Nat.add_0_r.
    assert (Hgt : Nat.leb (String.length id) head = false)
      by (apply Nat.leb_gt; exact Hlt).
    rewrite Hgt. reflexivity.
Qed.

Lemma formatShortId_lengths_witness :
  formatShortId "1220abcdef" 10 8 = "1220abcdef"
  /\ String.length (formatShortId "1220abcdef0123456789" 10 8) = 21%nat
  /\ formatShortId "abc" 1 0 = "a...abc".
Proof.
  split; [|split].
  - apply (formatShortId_lengths "1220abcdef" 10 8). cbn. lia.
  - apply (formatShortId_lengths "1220abcdef0123456789" 10 8); cbn; lia.
  - apply (formatShortId_lengths "abc" 1 0). cbn. lia.
Defined.

(** ** Update digests *)

Lemma digest_label_nonempty event : digest_label event <> "".
Proof.
  unfold digest_label.
  do 2 apply ClientRestProofs.or_string_nonempty. discriminate.
Qed.

(** The digest of an update shows at most three labels, none of them
    empty, and counts the rest: the extra count is never negative, and
    labels and extra count together make up the number of events of the
    update whenever the labels shown are not more than its events.  An
    update without root events shows no label and counts every event as
    extra. *)
Theorem summarizeUpdate_bounds (update : ScanUpdateSummary) :
  let digest := summarizeUpdate update in
  (length (labels digest) <= 3)%nat
  /\ (length (labels digest) <= length (root_event_ids update))%nat
  /\ Forall (fun label => label <> "") (labels digest)
  /\ 0 <= extraCount digest
  /\ totalEvents digest = Z.of_nat (length (or_empty (events_by_id update)))
  /\ Z.of_nat (length (labels digest)) + extraCount digest
     = Z.max (Z.of_nat (length (labels digest))) (totalEvents digest)
  /\ (root_event_ids update = [] ->
      labels digest = [] /\ extraCount digest = totalEvents digest).
Proof.
  intros digest. subst digest. unfold summarizeUpdate. cbn [labels extraCount totalEvents].
  set (events := map digest_label (omap (event_at update) (root_event_ids update))).
  split; [rewrite length_take; lia|]. split.
  { rewrite length_take. subst events. rewrite length_map.
    assert (length (omap (event_at update) (root_event_ids update))
            <= length (root_event_ids update))%nat; [|lia].
    generalize (root_event_ids update). induction l as [|id l IH]; [reflexivity|].
    cbn. destruct (event_at update id); cbn; lia. }
  split.
  { apply Forall_forall. intros label Hin. apply subseteq_take in Hin.
    subst events. apply list_elem_of_fmap in Hin as (event & -> & _).
    apply digest_label_nonempty. }
  split; [lia|]. split; [reflexivity|]. split; [lia|].
  intros Hroot. subst events. rewrite Hroot. cbn. split; [reflexivity|lia].
Qed.

Lemma summarizeUpdate_bounds_witness :
  labels (summarizeUpdate
            {| update_id := "upd-1"; record_time := "0"; migration_id := 0;
               synchronizer_id := "global"; root_event_ids := [];
               events_by_id :=
                 Some [("#1:0", {| template_id := None; event_type := None;
                                   ev_choice := Some "Transfer" |})] |})
  = [].
Proof.
  apply (summarizeUpdate_bounds
           {| update_id := "upd-1"; record_time := "0"; migration_id := 0;
              synchronizer_id := "global"; root_event_ids := [];
              events_by_id :=
                Some [("#1:0", {| template_id := None; event_type := None;
                                  ev_choice := Some "Transfer" |})] |}).
  reflexivity.
Defined.

(** ** Aggregation *)

Section Refresh.
Context `{!Engine}.

(** What a run of [fetchExplorerData] leaves of the view before it.
    When no response that is read for its list is [null], every cell is
    overwritten: what the page shows afterwards is determined by the
    eight results alone, also for a facet whose call was rejected.  When
    one is [null], the setters before it have run and the others have
    not: the cells from that facet on are those of the view before. *)
Theorem fetchExplorerData_forgets_previous_view (results : Results) (v : View) :
  let v' := fetchExplorerData results v in
  (ExplorerProofs.null_facet results = None ->
     ExplorerProofs.cells v' = ExplorerProofs.facets results
     /\ forall w, fetchExplorerData results w = v')
  /\ (forall k p, ExplorerProofs.null_facet results = Some (k, p) ->
        ExplorerProofs.cells v'
        = (take k (ExplorerProofs.facets results)
           ++ drop k (ExplorerProofs.cells v))%list
        /\ error v' = Some (null_property_message p)
        /\ isLoading v' = false).
Proof.
  cbn zeta. unfold fetchExplorerData.
  pose proof (ExplorerProofs.fetchExplorerData_try_cells results
                (setError None (setIsLoading true v))) as Htry.
  destruct (fetchExplorerData_try results (setError None (setIsLoading true v)))
    as [v' attempt].
  destruct Htry as (Hload & Herr & Hcells). split.
  - intros Hnull. rewrite Hnull in Hcells. destruct Hcells as [Hcells ->].
    assert (Hv' : forall u, ExplorerProofs.cells u = ExplorerProofs.facets results ->
                    u = {| v_scans := ExplorerProofs.facet_list "scans" (r_scans results);
                           updates := ExplorerProofs.facet_list "transactions"
                                        (r_updates results);
                           stats := ExplorerProofs.facet_value (r_stats results);
                           price := ExplorerProofs.facet_value (r_price results);
                           cantonScanUpdates :=
                             ExplorerProofs.facet_value (r_publicUpdates results);
                           activityHistory :=
                             ExplorerProofs.facet_list "data" (r_activity results);
                           priceHistory :=
                             ExplorerProofs.facet_list "data" (r_priceHistory results);
                           validators :=
                             ExplorerProofs.facet_validators (r_validators results);
                           isLoading := isLoading u; error := error u |}).
    { intros [] [= -> -> -> -> -> -> -> ->]. reflexivity. }
    split.
    + destruct (_ && _)%bool; exact Hcells.
    + intros w.
      pose proof (ExplorerProofs.fetchExplorerData_try_cells results
                    (setError None (setIsLoading true w))) as Htry.
      destruct (fetchExplorerData_try results (setError None (setIsLoading true w)))
        as [w' attempt].
      destruct Htry as (_ & Herr' & Hcells'). rewrite Hnull in Hcells'.
      destruct Hcells' as [Hcells' ->].
      rewrite (Hv' _ Hcells), (Hv' _ Hcells'). cbn in Herr, Herr'.
      destruct (_ && _)%bool; cbn; rewrite ?Herr, ?Herr'; reflexivity.
  - intros k p Hnull. rewrite Hnull in Hcells. destruct Hcells as [Hcells ->].
    cbn. split; [exact Hcells|]. split; reflexivity.
Qed.

End Refresh.

(** The activity history was fulfilled with [null]: the five setters
    before it have run, the three from it on have not. *)
Definition null_activity : Results :=
  {| r_scans := Fulfilled (JObject [("scans", JArray [JString "sv-1"])]);
     r_updates := Rejected;
     r_stats := Fulfilled (JObject [("rounds", JNumber 7)]);
     r_price := Rejected;
     r_publicUpdates := Rejected;
     r_activity := Fulfilled JNull;
     r_priceHistory := Fulfilled (JObject [("data", JArray [JNumber 1])]);
     r_validators := Fulfilled (JArray [JString "validator-1"]) |}.

Definition earlier_view : View :=
  {| v_scans := JArray [JString "old"]; updates := JArray [JString "old"];
     stats := JString "old"; price := JString "old";
     cantonScanUpdates := JString "old"; activityHistory := JArray [JString "old"];
     priceHistory := JArray [JString "old"]; validators := JArray [JString "old"];
     isLoading := false; error := None |}.

Lemma fetchExplorerData_forgets_previous_view_witness :
  let v' := @fetchExplorerData ClientProofs.sample_engine
              null_activity earlier_view in
  ExplorerProofs.cells v'
  = [ JArray [JString "sv-1"]; JArray []; JObject [("rounds", JNumber 7)];
      JNull; JNull;
      JArray [JString "old"]; JArray [JString "old"]; JArray [JString "old"] ]
  /\ error v' = Some "Cannot read properties of null (reading 'data')"
  /\ (forall w,
        @fetchExplorerData ClientProofs.sample_engine ExplorerProofs.six_of_eight_fail w
        = @fetchExplorerData ClientProofs.sample_engine ExplorerProofs.six_of_eight_fail
            ExplorerProofs.empty_view).
Proof.
  intros v'.
  destruct (@fetchExplorerData_forgets_previous_view ClientProofs.sample_engine
              null_activity earlier_view)
    as [_ Hnull].
  destruct (Hnull 5%nat "data" eq_refl) as (Hcells & Herror & _).
  split; [exact Hcells|]. split; [exact Herror|].
  destruct (@fetchExplorerData_forgets_previous_view ClientProofs.sample_engine
              ExplorerProofs.six_of_eight_fail ExplorerProofs.empty_view)
    as [Hall _].
  exact (proj2 (Hall eq_refl)).
Defined.

End ExplorerRestProofs.

(** * Properties of the template statistics *)

Module TemplatesProofs.
Import TemplatesPage.
Local Open Scope list_scope.

(** ** Splitting template identifiers *)

Lemma append_cons c (s1 s2 : string) : String c s1 +:+ s2 = String c (s1 +:+ s2).
Proof. reflexivity. Qed.

Lemma append_assoc (s1 s2 s3 : string) : (s1 +:+ s2) +:+ s3 = s1 +:+ (s2 +:+ s3).
Proof.
  induction s1 as [|c s1 IH]; [reflexivity|].
  rewrite !append_cons, IH. reflexivity.
Qed.

Lemma append_empty_r (s : string) : s +:+ "" = s.
Proof.
  induction s as [|c s IH]; [reflexivity|]. rewrite append_cons, IH. reflexivity.
Qed.

Lemma rev_app_append (s : string) : forall acc,
  String.rev_app s acc = String.rev_app s "" +:+ acc.
Proof.
  induction s as [|c s IH]; intros acc; [reflexivity|].
  simpl. rewrite (IH (String c acc)), (IH (String c "")), append_assoc.
  reflexivity.
Qed.

Lemma rev_cons c (seg : string) : String.rev (String c seg) = String.rev seg +:+ String c "".
Proof. unfold String.rev. simpl. apply rev_app_append. Qed.

Lemma split_from_nonempty sep s : forall seg, split_from sep seg s <> [].
Proof.
  induction s as [|c s IH]; intros seg; simpl; [discriminate|].
  destruct (Ascii.eqb c sep); [discriminate|apply IH].
Qed.

Lemma concat_cons_nonempty (sep x : string) (rest : list string) :
  rest <> [] -> String.concat sep (x :: rest) = x +:+ sep +:+ String.concat sep rest.
Proof. destruct rest; [congruence|reflexivity]. Qed.

Lemma split_from_join sep s : forall seg,
  String.concat (String sep "") (split_from sep seg s) = String.rev seg +:+ s.
Proof.
  induction s as [|c s IH]; intros seg; simpl.
  - symmetry. apply append_empty_r.
  - destruct (Ascii.eqb_spec c sep) as [->|Hc].
    + rewrite concat_cons_nonempty by apply split_from_nonempty.
      rewrite IH. reflexivity.
    + rewrite IH, rev_cons, append_assoc. reflexivity.
Qed.

Lemma split_from_last sep s : forall seg,
  last (split_from sep seg s) = Some (split_pop_from sep seg s).
Proof.
  induction s as [|c s IH]; intros seg; simpl; [reflexivity|].
  destruct (Ascii.eqb c sep); [|apply IH].
  rewrite last_cons, IH. reflexivity.
Qed.

(** Splitting loses nothing: joining the segments with the separator
    gives the string back; there is always at least one segment, and the
    last one is what [split(sep).pop()] returns. *)
Theorem split_then_join (sep : ascii) (s : string) :
  String.concat (String sep "") (split sep s) = s
  /\ split sep s <> []
  /\ last (split sep s) = Some (split_pop sep s).
Proof.
  unfold split, split_pop. split; [|split].
  - apply (split_from_join sep s "").
  - apply split_from_nonempty.
  - apply split_from_last.
Qed.

(** Whether a string is free of the separator. *)
Fixpoint free_of (sep : ascii) (s : string) : bool :=
  match s with
  | EmptyString => true
  | String c rest => negb (Ascii.eqb c sep) && free_of sep rest
  end.

Lemma split_from_free sep s : forall seg,
  free_of sep s = true -> split_from sep seg s = [String.rev seg +:+ s].
Proof.
  induction s as [|c s IH]; intros seg Hfree; simpl in *.
  - rewrite append_empty_r. reflexivity.
  - apply andb_true_iff in Hfree as [Hc Hfree]. apply negb_true_iff in Hc.
    rewrite Hc, (IH _ Hfree), rev_cons, append_assoc. reflexivity.
Qed.

Lemma split_from_segment sep s : forall seg rest,
  free_of sep s = true ->
  split_from sep seg (s +:+ String sep rest)
  = (String.rev seg +:+ s) :: split_from sep "" rest.
Proof.
  induction s as [|c s IH]; intros seg rest Hfree; rewrite ?append_cons; simpl in *.
  - rewrite Ascii.eqb_refl, append_empty_r. reflexivity.
  - apply andb_true_iff in Hfree as [Hc Hfree]. apply negb_true_iff in Hc.
    rewrite Hc, (IH _ _ Hfree), rev_cons, append_assoc. reflexivity.
Qed.

(** The entry created for a template identifier of the form
    [package:module:name] names the three parts; an identifier without a
    colon is taken as package and as template name, with no module; and
    with more than three segments the template name is the third one, not
    the last. *)
Theorem first_seen_names_the_parts (contract : Contract) :
  (forall package module name,
     free_of ":" package = true -> free_of ":" module = true ->
     free_of ":" name = true ->
     package <> "" -> module <> "" -> name <> "" ->
     templateId contract = package +:+ ":" +:+ module +:+ ":" +:+ name ->
     ts_packageId (first_seen contract) = package
     /\ ts_moduleName (first_seen contract) = module
     /\ ts_templateName (first_seen contract) = name)
  /\ (free_of ":" (templateId contract) = true ->
      ts_packageId (first_seen contract) = templateId contract
      /\ ts_moduleName (first_seen contract) = ""
      /\ ts_templateName (first_seen contract) = templateId contract)
  /\ (forall package module name rest,
        free_of ":" package = true -> free_of ":" module = true ->
        free_of ":" name = true -> name <> "" ->
        templateId contract
        = package +:+ ":" +:+ module +:+ ":" +:+ name +:+ ":" +:+ rest ->
        ts_templateName (first_seen contract) = name).
Proof.
  assert (Hor : forall s b, s <> "" -> or_string (Some s) b = s).
  { intros [|c s] b Hs; [congruence|reflexivity]. }
  split; [|split].
  - intros package module name Hp Hm Hn Hpe Hme Hne Htid.
    unfold first_seen. cbn [ts_packageId ts_moduleName ts_templateName].
    change (templateId contract
            = package +:+ String ":" (module +:+ String ":" name)) in Htid.
    rewrite Htid. unfold split.
    rewrite (split_from_segment _ _ "" _ Hp), (split_from_segment _ _ "" _ Hm),
      (split_from_free _ _ "" Hn).
    cbn [lookup list_lookup String.rev String.rev_app String.append].
    rewrite !Hor by assumption. auto.
  - intros Hfree. unfold first_seen.
    cbn [ts_packageId ts_moduleName ts_templateName].
    unfold split. rewrite (split_from_free _ _ "" Hfree).
    cbn [lookup list_lookup String.rev String.rev_app String.append last].
    destruct (templateId contract); auto.
  - intros package module name rest Hp Hm Hn Hne Htid.
    unfold first_seen. cbn [ts_templateName].
    change (templateId contract
            = package +:+ String ":" (module +:+ String ":" (name +:+ String ":" rest)))
      in Htid.
    rewrite Htid. unfold split.
    rewrite (split_from_segment _ _ "" _ Hp), (split_from_segment _ _ "" _ Hm),
      (split_from_segment _ _ "" _ Hn).
    cbn [lookup list_lookup String.rev String.rev_app String.append].
    apply Hor. exact Hne.
Qed.

Definition contract_of_template (id templateId0 : string) (parties : list PartyId)
    : Contract :=
  {| contractId := id; templateId := templateId0; payload := JObject [];
     stakeholders := parties; observers := []; signatories := parties;
     createdAt := "2024-01-01T00:00:00.000Z"; offset := 1;
     contractKey := None; createdEventBlob := None |}.

Lemma first_seen_names_the_parts_witness :
  ts_packageId (first_seen (contract_of_template "c1" "pkg:Mod:A" [])) = "pkg"
  /\ ts_templateName (first_seen (contract_of_template "c1" "Iou" [])) = "Iou"
  /\ ts_templateName (first_seen (contract_of_template "c1" "pkg:Mod:A:B" [])) = "A".
Proof.
  destruct (first_seen_names_the_parts (contract_of_template "c1" "pkg:Mod:A" []))
    as (Hthree & _ & _).
  destruct (first_seen_names_the_parts (contract_of_template "c1" "Iou" []))
    as (_ & Hone & _).
  destruct (first_seen_names_the_parts (contract_of_template "c1" "pkg:Mod:A:B" []))
    as (_ & _ & Hfour).
  split; [|split].
  - apply (Hthree "pkg" "Mod" "A"); try reflexivity; discriminate.
  - apply Hone. reflexivity.
  - apply (Hfour "pkg" "Mod" "A" "B"); try reflexivity; discriminate.
Defined.

(** ** Counting contracts per template *)

Definition ids (stats : list TemplateStat) : list string := map ts_templateId stats.

Definition sum_counts (stats : list TemplateStat) : Z :=
  foldr (fun e total => count e + total) 0 stats.

(** The contracts of a template. *)
Definition of_template (id : string) (contracts : list Contract) : list Contract :=
  filter (fun c => templateId c = id) contracts.

(** What an entry must say about the contracts seen so far. *)
Definition entry_ok (contracts : list Contract) (e : TemplateStat) : Prop :=
  count e = Z.of_nat (length (of_template (ts_templateId e) contracts))
  /\ of_template (ts_templateId e) contracts <> []
  /\ forall party,
       party ∈ uniqueStakeholders e
       <-> exists c, c ∈ of_template (ts_templateId e) contracts
                     /\ party ∈ stakeholders c.

Lemma of_template_snoc id contracts c :
  of_template id (contracts ++ [c])
  = of_template id contracts ++ (if decide (templateId c = id) then [c] else []).
Proof.
  unfold of_template. rewrite filter_app, filter_cons, filter_nil. reflexivity.
Qed.

Lemma entry_ok_other contracts c e :
  ts_templateId e <> templateId c -> entry_ok contracts e ->
  entry_ok (contracts ++ [c]) e.
Proof.
  intros Hne (Hcount & Hsome & Hparties). unfold entry_ok.
  rewrite of_template_snoc.
  destruct (decide (templateId c = ts_templateId e)); [congruence|].
  rewrite app_nil_r. auto.
Qed.

Lemma entry_ok_seen_again contracts c e :
  ts_templateId e = templateId c -> entry_ok contracts e ->
  entry_ok (contracts ++ [c]) (seen_again c e).
Proof.
  intros Heq (Hcount & Hsome & Hparties). unfold entry_ok.
  cbn [seen_again ts_templateId count uniqueStakeholders].
  rewrite of_template_snoc.
  destruct (decide (templateId c = ts_templateId e)); [|congruence].
  split; [rewrite length_app, Hcount; cbn; lia|].
  split; [intros Happ; apply app_eq_nil in Happ as [_ [=]]|].
  intros party. rewrite elem_of_union, elem_of_list_to_set, Hparties. split.
  - intros [(c' & Hc' & Hp)|Hp].
    + exists c'. split; [apply elem_of_app; auto|exact Hp].
    + exists c. split; [apply elem_of_app; right; left|exact Hp].
  - intros (c' & Hc' & Hp). apply elem_of_app in Hc' as [Hc'|Hc'].
    + left. eauto.
    + apply list_elem_of_singleton in Hc'. subst c'. right. exact Hp.
Qed.

Lemma entry_ok_first_seen contracts c :
  of_template (templateId c) contracts = [] ->
  entry_ok (contracts ++ [c]) (first_seen c).
Proof.
  intros Hnone. unfold entry_ok.
  cbn [first_seen ts_templateId count uniqueStakeholders].
  rewrite of_template_snoc, Hnone.
  destruct (decide (templateId c = templateId c)); [|congruence]. cbn [app length].
  split; [reflexivity|]. split; [discriminate|].
  intros party. rewrite elem_of_list_to_set. split.
  - intros Hp. exists c. split; [left|exact Hp].
  - intros (c' & Hc' & Hp). apply list_elem_of_singleton in Hc'. subst c'. exact Hp.
Qed.

(** The state of the [stats] map after the contracts seen so far: one
    entry per template that has a contract, each correct, with a total
    count equal to the number of contracts. *)
Definition tally_ok (contracts : list Contract) (stats : list TemplateStat) : Prop :=
  NoDup (ids stats)
  /\ Forall (entry_ok contracts) stats
  /\ (forall id, id ∈ ids stats <-> of_template id contracts <> [])
  /\ sum_counts stats = Z.of_nat (length contracts).

Lemma record_contract_spec c stats :
  (templateId c ∈ ids stats ->
   ids (record_contract c stats) = ids stats
   /\ sum_counts (record_contract c stats) = sum_counts stats + 1)
  /\ (templateId c ∉ ids stats ->
      record_contract c stats = stats ++ [first_seen c]).
Proof.
  induction stats as [|e stats IH]; cbn [record_contract].
  - split; [intros Hin; inversion Hin|reflexivity].
  - destruct (String.eqb_spec (ts_templateId e) (templateId c)) as [Heq|Hne].
    + split.
      * intros _. cbn. split; [reflexivity|lia].
      * intros Hnot. exfalso. apply Hnot. cbn. rewrite Heq. left.
    + destruct IH as [IHin IHnot]. split.
      * intros Hin. apply elem_of_cons in Hin as [Hin|Hin]; [congruence|].
        destruct (IHin Hin) as [Hids Hsum]. cbn. unfold ids in Hids.
        rewrite Hids. unfold sum_counts in Hsum. rewrite Hsum.
        split; [reflexivity|lia].
      * intros Hnot. rewrite IHnot; [reflexivity|].
        intros Hin. apply Hnot. right. exact Hin.
Qed.

Lemma record_contract_entries contracts c stats :
  NoDup (ids stats) ->
  Forall (entry_ok contracts) stats ->
  (templateId c ∉ ids stats -> of_template (templateId c) contracts = []) ->
  Forall (entry_ok (contracts ++ [c])) (record_contract c stats).
Proof.
  induction stats as [|e stats IH]; intros Hnodup Hok Hnew; cbn [record_contract].
  - constructor; [|constructor]. apply entry_ok_first_seen, Hnew. intros Hin; inversion Hin.
  - apply Forall_cons in Hok as [He Hok].
    apply NoDup_cons in Hnodup as [Hfresh Hnodup].
    destruct (String.eqb_spec (ts_templateId e) (templateId c)) as [Heq|Hne].
    + constructor; [apply entry_ok_seen_again; assumption|].
      apply Forall_forall. intros e' Hin.
      apply entry_ok_other; [|eapply Forall_forall; eassumption].
      intros He'. apply Hfresh. rewrite Heq, <- He'.
      apply list_elem_of_fmap. eauto.
    + constructor; [apply entry_ok_other; assumption|].
      apply IH; [exact Hnodup|exact Hok|].
      intros Hnot. apply Hnew. intros Hin.
      apply elem_of_cons in Hin as [Hin|Hin]; [congruence|]. apply Hnot, Hin.
Qed.

Lemma sum_counts_app stats1 stats2 :
  sum_counts (stats1 ++ stats2) = sum_counts stats1 + sum_counts stats2.
Proof.
  unfold sum_counts.
  induction stats1 as [|e stats1 IH]; cbn [app foldr]; [reflexivity|].
  rewrite IH. lia.
Qed.

Lemma tally_ok_step contracts c stats :
  tally_ok contracts stats -> tally_ok (contracts ++ [c]) (record_contract c stats).
Proof.
  intros (Hnodup & Hok & Hids & Hsum).
  assert (Hnew : templateId c ∉ ids stats -> of_template (templateId c) contracts = []).
  { intros Hnot. destruct (of_template (templateId c) contracts) eqn:Hof; [reflexivity|].
    exfalso. apply Hnot, Hids. rewrite Hof. discriminate. }
  destruct (record_contract_spec c stats) as [Hin Hout].
  assert (Hids' : forall id, id ∈ ids (record_contract c stats)
                             <-> id ∈ ids stats \/ id = templateId c).
  { intros id. destruct (decide (templateId c ∈ ids stats)) as [Hc|Hc].
    - destruct (Hin Hc) as [-> _]. split; [auto|]. intros [H| ->]; assumption.
    - rewrite (Hout Hc). unfold ids. rewrite map_app. cbn.
      rewrite elem_of_app, list_elem_of_singleton. reflexivity. }
  split; [|split; [|split]].
  - destruct (decide (templateId c ∈ ids stats)) as [Hc|Hc].
    + destruct (Hin Hc) as [-> _]. exact Hnodup.
    + rewrite (Hout Hc). unfold ids. rewrite map_app. cbn.
      apply NoDup_app. split; [exact Hnodup|]. split; [|apply NoDup_singleton].
      intros id Hid Hid'. apply list_elem_of_singleton in Hid'. subst id. auto.
  - apply record_contract_entries; assumption.
  - intros id. rewrite Hids', Hids, of_template_snoc. split.
    + intros [Hsome| ->] Happ; apply app_eq_nil in Happ as [Hnil Hc].
      * auto.
      * destruct (decide (templateId c = templateId c)); [discriminate|congruence].
    + intros Happ. destruct (decide (templateId c = id)) as [<-|Hne]; [auto|].
      left. intros Hnil. apply Happ. rewrite Hnil. reflexivity.
  - rewrite length_app, Nat2Z.inj_add. cbn.
    destruct (decide (templateId c ∈ ids stats)) as [Hc|Hc].
    + destruct (Hin Hc) as [_ ->]. lia.
    + rewrite (Hout Hc), sum_counts_app. cbn. lia.
Qed.

Lemma tally_ok_fold contracts : forall seen stats,
  tally_ok seen stats ->
  tally_ok (seen ++ contracts)
    (fold_left (fun stats contract => record_contract contract stats) contracts stats).
Proof.
  induction contracts as [|c contracts IH]; intros seen stats Hok; cbn [fold_left].
  - rewrite app_nil_r. exact Hok.
  - replace (seen ++ c :: contracts) with ((seen ++ [c]) ++ contracts)
      by (rewrite <- app_assoc; reflexivity).
    apply IH, tally_ok_step, Hok.
Qed.

Lemma tally_is_ok contracts : tally_ok contracts (tally contracts).
Proof.
  apply (tally_ok_fold contracts [] []).
  repeat split; try constructor; cbn; try congruence.
  intros Hin. inversion Hin.
Qed.

(** ** Ordering by count *)

(** Every entry is followed only by entries that count no more. *)
Fixpoint descending (stats : list TemplateStat) : Prop :=
  match stats with
  | [] => True
  | e :: rest => Forall (fun e' => count e' <= count e) rest /\ descending rest
  end.

Lemma insert_by_count_perm x stats : insert_by_count x stats ≡ₚ x :: stats.
Proof.
  induction stats as [|y stats IH]; cbn [insert_by_count]; [reflexivity|].
  destruct (count x <? count y); [|reflexivity].
  rewrite IH. apply Permutation_swap.
Qed.

Lemma sort_by_count_perm stats : sort_by_count stats ≡ₚ stats.
Proof.
  induction stats as [|x stats IH]; [reflexivity|].
  cbn [sort_by_count foldr]. rewrite insert_by_count_perm.
  constructor. exact IH.
Qed.

Lemma insert_by_count_descending x stats :
  descending stats -> descending (insert_by_count x stats).
Proof.
  induction stats as [|y stats IH]; intros Hdesc; cbn [insert_by_count].
  - cbn. auto.
  - destruct Hdesc as [Hy Hdesc].
    destruct (Z.ltb_spec (count x) (count y)) as [Hlt|Hge].
    + cbn [descending]. split; [|apply IH, Hdesc].
      rewrite insert_by_count_perm. constructor; [lia|exact Hy].
    + cbn [descending]. split; [|split; assumption].
      constructor; [lia|].
      eapply Forall_impl; [exact Hy|]. cbn. intros e' He'. lia.
Qed.

Lemma sort_by_count_descending stats : descending (sort_by_count stats).
Proof.
  induction stats as [|x stats IH]; [exact I|].
  apply insert_by_count_descending, IH.
Qed.

Lemma descending_lookup stats : descending stats ->
  forall i j e1 e2, (i < j)%nat ->
    stats !! i = Some e1 -> stats !! j = Some e2 -> count e2 <= count e1.
Proof.
  induction stats as [|e stats IH]; intros Hdesc i j e1 e2 Hij Hi Hj;
    [rewrite lookup_nil in Hi; discriminate|].
  destruct Hdesc as [He Hdesc]. destruct j as [|j]; [lia|]. cbn in Hj.
  destruct i as [|i].
  - cbn in Hi. injection Hi as <-.
    eapply Forall_forall in He; [exact He|]. eapply list_elem_of_lookup_2, Hj.
  - cbn in Hi. apply (IH Hdesc i j); [lia|assumption|assumption].
Qed.

Lemma insert_by_count_stable k x stats :
  filter (fun e => count e = k) (insert_by_count x stats)
  = filter (fun e => count e = k) (x :: stats).
Proof.
  induction stats as [|y stats IH]; cbn [insert_by_count]; [reflexivity|].
  destruct (Z.ltb_spec (count x) (count y)) as [Hlt|Hge]; [|reflexivity].
  rewrite filter_cons, IH, !filter_cons.
  destruct (decide (count y = k)), (decide (count x = k)); try reflexivity. lia.
Qed.

Lemma sort_by_count_stable k stats :
  filter (fun e => count e = k) (sort_by_count stats)
  = filter (fun e => count e = k) stats.
Proof.
  induction stats as [|x stats IH]; [reflexivity|].
  cbn [sort_by_count foldr]. rewrite insert_by_count_stable, !filter_cons.
  fold (sort_by_count stats). rewrite IH. reflexivity.
Qed.

Lemma sum_counts_perm stats1 stats2 :
  stats1 ≡ₚ stats2 -> sum_counts stats1 = sum_counts stats2.
Proof.
  unfold sum_counts. induction 1; cbn; lia.
Qed.

Lemma length_le_sum_counts stats :
  Forall (fun e => 1 <= count e) stats ->
  Z.of_nat (length stats) <= sum_counts stats.
Proof.
  unfold sum_counts. induction 1 as [|e l He _ IH]; cbn [length foldr]; [lia|].
  rewrite Nat2Z.inj_succ. lia.
Qed.

(** ** The statistics shown *)

(** [templateStats] has exactly one entry per template that has a
    contract.  The count of an entry is the number of contracts of its
    template, its stakeholders are the parties that are stakeholders of
    some contract of its template, and the counts add up to the number of
    contracts. *)
Theorem templateStats_counts_every_contract_once (contracts : list Contract) :
  let stats := templateStats contracts in
  NoDup (ids stats)
  /\ (forall id, id ∈ ids stats <-> exists c, c ∈ contracts /\ templateId c = id)
  /\ (forall e, e ∈ stats ->
        count e = Z.of_nat (length (of_template (ts_templateId e) contracts))
        /\ 1 <= count e
        /\ forall party,
             party ∈ uniqueStakeholders e
             <-> exists c, c ∈ contracts /\ templateId c = ts_templateId e
                           /\ party ∈ stakeholders c)
  /\ sum_counts stats = Z.of_nat (length contracts)
  /\ (length stats <= length contracts)%nat.
Proof.
  intros stats. subst stats. unfold templateStats.
  destruct (tally_is_ok contracts) as (Hnodup & Hok & Hids & Hsum).
  pose proof (sort_by_count_perm (tally contracts)) as Hperm.
  assert (Hidsperm : ids (sort_by_count (tally contracts)) ≡ₚ ids (tally contracts))
    by (unfold ids; rewrite Hperm; reflexivity).
  assert (Hentries : forall e, e ∈ sort_by_count (tally contracts) ->
            count e = Z.of_nat (length (of_template (ts_templateId e) contracts))
            /\ 1 <= count e
            /\ forall party,
                 party ∈ uniqueStakeholders e
                 <-> exists c, c ∈ contracts /\ templateId c = ts_templateId e
                               /\ party ∈ stakeholders c).
  { intros e He. rewrite Hperm in He.
    eapply Forall_forall in Hok as (Hcount & Hsome & Hparties); [|exact He].
    split; [exact Hcount|]. split.
    - rewrite Hcount. destruct (of_template (ts_templateId e) contracts);
        [congruence|cbn; lia].
    - intros party. rewrite Hparties. unfold of_template. split.
      + intros (c & Hc & Hp). apply list_elem_of_filter in Hc as [Hid Hc]. eauto.
      + intros (c & Hc & Hid & Hp). exists c. split; [|exact Hp].
        apply list_elem_of_filter. auto. }
  split; [rewrite Hidsperm; exact Hnodup|]. split.
  { intros id. rewrite Hidsperm, Hids. unfold of_template. split.
    - intros Hsome. destruct (filter _ contracts) as [|c l] eqn:Hf; [congruence|].
      assert (Hc : c ∈ filter (fun c => templateId c = id) contracts)
        by (rewrite Hf; left).
      apply list_elem_of_filter in Hc as [Hid Hc]. eauto.
    - intros (c & Hc & Hid) Hnil.
      assert (Hin : c ∈ filter (fun c => templateId c = id) contracts)
        by (apply list_elem_of_filter; auto).
      rewrite Hnil in Hin. inversion Hin. }
  split; [exact Hentries|].
  split; [rewrite (sum_counts_perm _ _ Hperm); exact Hsum|].
  (* every entry counts at least one contract *)
  assert (Hlen : Z.of_nat (length (sort_by_count (tally contracts)))
                 <= sum_counts (sort_by_count (tally contracts))).
  { apply length_le_sum_counts, Forall_forall. intros e He. apply Hentries, He. }
  rewrite (sum_counts_perm _ _ Hperm), Hsum in Hlen. lia.
Qed.

(** [templateStats] lists the entries by decreasing count: no entry is
    followed by one with a larger count, entries with the same count stay
    in the order in which their templates were first seen, and the sort
    neither adds nor drops an entry. *)
Theorem templateStats_sorted_by_count (contracts : list Contract) :
  let stats := templateStats contracts in
  (forall i j e1 e2, (i < j)%nat ->
     stats !! i = Some e1 -> stats !! j = Some e2 -> count e2 <= count e1)
  /\ (forall k, filter (fun e => count e = k) stats
                = filter (fun e => count e = k) (tally contracts))
  /\ stats ≡ₚ tally contracts.
Proof.
  intros stats. subst stats. unfold templateStats. split; [|split].
  - apply descending_lookup, sort_by_count_descending.
  - intros k. apply sort_by_count_stable.
  - apply sort_by_count_perm.
Qed.

(** The example of a catalog with two contracts of one template and one
    of another. *)
Example templateStats_two_templates :
  map (fun e => (ts_packageId e, ts_templateName e, count e))
    (templateStats [contract_of_template "c1" "pkg:Mod:B" ["Alice"];
                    contract_of_template "c2" "pkg:Mod:A" ["Alice"];
                    contract_of_template "c3" "pkg:Mod:A" ["Bob"]])
  = [("pkg", "A", 2); ("pkg", "B", 1)].
Proof. vm_compute. reflexivity. Qed.

(** ** Grouping by package *)

Definition of_package (k : string) (stats : list TemplateStat) : list TemplateStat :=
  filter (fun t => ts_packageId t = k) stats.

Definition group_ok (seen : list TemplateStat) (g : string * list TemplateStat) : Prop :=
  snd g = of_package (fst g) seen /\ snd g <> [].

Definition groups_ok (seen : list TemplateStat)
    (groups : list (string * list TemplateStat)) : Prop :=
  NoDup (map fst groups)
  /\ Forall (group_ok seen) groups
  /\ (forall k, k ∈ map fst groups <-> of_package k seen <> [])
  /\ length (concat (map snd groups)) = length seen.

Lemma of_package_snoc k seen t :
  of_package k (seen ++ [t])
  = of_package k seen ++ (if decide (ts_packageId t = k) then [t] else []).
Proof. unfold of_package. rewrite filter_app, filter_cons, filter_nil. reflexivity. Qed.

Lemma add_to_group_spec t groups :
  length (concat (map snd (add_to_group t groups)))
  = S (length (concat (map snd groups)))
  /\ (ts_packageId t ∈ map fst groups ->
      map fst (add_to_group t groups) = map fst groups)
  /\ (ts_packageId t ∉ map fst groups ->
      add_to_group t groups = groups ++ [(ts_packageId t, [t])]).
Proof.
  induction groups as [|[k members] groups IH]; cbn [add_to_group].
  - split; [reflexivity|]. split; [intros Hin; inversion Hin|reflexivity].
  - destruct IH as (IHlen & IHin & IHnot).
    destruct (String.eqb_spec k (ts_packageId t)) as [Heq|Hne].
    + split; [cbn; rewrite !length_app; cbn; lia|].
      split; [reflexivity|].
      intros Hnot. exfalso. apply Hnot. cbn. rewrite Heq. left.
    + split; [cbn; rewrite !length_app, IHlen; lia|]. split.
      * intros Hin. cbn in Hin. apply elem_of_cons in Hin as [Hin|Hin]; [congruence|].
        cbn. rewrite (IHin Hin). reflexivity.
      * intros Hnot. rewrite IHnot; [reflexivity|].
        intros Hin. apply Hnot. right. exact Hin.
Qed.

Lemma group_ok_other seen t g :
  fst g <> ts_packageId t -> group_ok seen g -> group_ok (seen ++ [t]) g.
Proof.
  intros Hne [Hmembers Hsome]. unfold group_ok. rewrite of_package_snoc.
  destruct (decide (ts_packageId t = fst g)); [congruence|].
  rewrite app_nil_r. auto.
Qed.

Lemma add_to_group_entries seen t groups :
  NoDup (map fst groups) ->
  Forall (group_ok seen) groups ->
  (ts_packageId t ∉ map fst groups -> of_package (ts_packageId t) seen = []) ->
  Forall (group_ok (seen ++ [t])) (add_to_group t groups).
Proof.
  induction groups as [|[k members] groups IH]; intros Hnodup Hok Hnew;
    cbn [add_to_group].
  - constructor; [|constructor]. unfold group_ok. cbn [fst snd].
    rewrite of_package_snoc, Hnew by (intros Hin; inversion Hin).
    destruct (decide (ts_packageId t = ts_packageId t)); [|congruence].
    split; [reflexivity|discriminate].
  - apply Forall_cons in Hok as [[Hmembers Hsome] Hok]. cbn [fst snd] in *.
    change (NoDup (k :: map fst groups)) in Hnodup.
    apply NoDup_cons in Hnodup as [Hfresh Hnodup].
    destruct (String.eqb_spec k (ts_packageId t)) as [Heq|Hne].
    + constructor.
      * unfold group_ok. cbn [fst snd]. rewrite of_package_snoc, Hmembers.
        destruct (decide (ts_packageId t = k)); [|congruence].
        split; [reflexivity|]. intros Happ. apply app_eq_nil in Happ as [_ [=]].
      * apply Forall_forall. intros g Hin.
        apply group_ok_other; [|eapply Forall_forall; eassumption].
        intros Hg. apply Hfresh. rewrite Heq, <- Hg.
        apply list_elem_of_fmap. exists g. auto.
    + constructor.
      * apply group_ok_other; [exact Hne|split; assumption].
      * apply IH; [exact Hnodup|exact Hok|].
        intros Hnot. apply Hnew. intros Hin. cbn in Hin.
        apply elem_of_cons in Hin as [Hin|Hin]; [congruence|]. apply Hnot, Hin.
Qed.

Lemma groups_ok_step seen t groups :
  groups_ok seen groups -> groups_ok (seen ++ [t]) (add_to_group t groups).
Proof.
  intros (Hnodup & Hok & Hkeys & Hlen).
  assert (Hnew : ts_packageId t ∉ map fst groups -> of_package (ts_packageId t) seen = []).
  { intros Hnot. destruct (of_package (ts_packageId t) seen) eqn:Hof; [reflexivity|].
    exfalso. apply Hnot, Hkeys. rewrite Hof. discriminate. }
  destruct (add_to_group_spec t groups) as (Hlen' & Hin & Hout).
  assert (Hkeys' : forall k, k ∈ map fst (add_to_group t groups)
                             <-> k ∈ map fst groups \/ k = ts_packageId t).
  { intros k. destruct (decide (ts_packageId t ∈ map fst groups)) as [Ht|Ht].
    - rewrite (Hin Ht). split; [auto|]. intros [H| ->]; assumption.
    - rewrite (Hout Ht), map_app. cbn.
      rewrite elem_of_app, list_elem_of_singleton. reflexivity. }
  split; [|split; [|split]].
  - destruct (decide (ts_packageId t ∈ map fst groups)) as [Ht|Ht].
    + rewrite (Hin Ht). exact Hnodup.
    + rewrite (Hout Ht), map_app. cbn.
      apply NoDup_app. split; [exact Hnodup|]. split; [|apply NoDup_singleton].
      intros k Hk Hk'. apply list_elem_of_singleton in Hk'. subst k. auto.
  - apply add_to_group_entries; assumption.
  - intros k. rewrite Hkeys', Hkeys, of_package_snoc. split.
    + intros [Hsome| ->] Happ; apply app_eq_nil in Happ as [Hnil Hc].
      * auto.
      * destruct (decide (ts_packageId t = ts_packageId t)); [discriminate|congruence].
    + intros Happ. destruct (decide (ts_packageId t = k)) as [<-|Hne]; [auto|].
      left. intros Hnil. apply Happ. rewrite Hnil. reflexivity.
  - rewrite Hlen', Hlen, length_app. cbn. lia.
Qed.

Lemma groups_ok_fold stats : forall seen groups,
  groups_ok seen groups ->
  groups_ok (seen ++ stats)
    (fold_left (fun groups template => add_to_group template groups) stats groups).
Proof.
  induction stats as [|t stats IH]; intros seen groups Hok; cbn [fold_left].
  - rewrite app_nil_r. exact Hok.
  - replace (seen ++ t :: stats) with ((seen ++ [t]) ++ stats)
      by (rewrite <- app_assoc; reflexivity).
    apply IH, groups_ok_step, Hok.
Qed.

(** [packageGroups] partitions the entries by package: there is one group
    per package that has an entry, each group holds exactly the entries of
    its package, in the order of the list, every entry is in the group of
    its package, and the group sizes add up to the number of entries. *)
Theorem packageGroups_partition_by_package (stats : list TemplateStat) :
  let groups := packageGroups stats in
  NoDup (map fst groups)
  /\ (forall k members, (k, members) ∈ groups ->
        members = filter (fun t => ts_packageId t = k) stats /\ members <> [])
  /\ (forall t, t ∈ stats ->
        exists members, (ts_packageId t, members) ∈ groups /\ t ∈ members)
  /\ length (concat (map snd groups)) = length stats.
Proof.
  intros groups. subst groups. unfold packageGroups.
  assert (Hinit : groups_ok [] []).
  { repeat split; try constructor; cbn; try congruence. intros Hin. inversion Hin. }
  destruct (groups_ok_fold stats [] [] Hinit) as (Hnodup & Hok & Hkeys & Hlen).
  cbn [app] in *.
  split; [exact Hnodup|]. split; [|split; [|exact Hlen]].
  - intros k members Hin. eapply Forall_forall in Hok; [|exact Hin]. exact Hok.
  - intros t Ht.
    assert (Hk : ts_packageId t ∈
                 map fst (fold_left (fun groups template => add_to_group template groups)
                            stats [])).
    { apply Hkeys. intros Hnil.
      assert (Hin : t ∈ of_package (ts_packageId t) stats)
        by (apply list_elem_of_filter; auto).
      rewrite Hnil in Hin. inversion Hin. }
    apply list_elem_of_fmap in Hk as ([k members] & Hfst & Hin). cbn in Hfst. subst k.
    exists members. split; [exact Hin|].
    eapply Forall_forall in Hok as [Hmembers _]; [|exact Hin]. cbn in Hmembers.
    rewrite Hmembers. apply list_elem_of_filter. auto.
Qed.

Lemma packageGroups_partition_by_package_witness :
  exists members,
    ("pkg", members)
      ∈ packageGroups (templateStats [contract_of_template "c1" "pkg:Mod:A" []])
    /\ first_seen (contract_of_template "c1" "pkg:Mod:A" []) ∈ members.
Proof.
  destruct (packageGroups_partition_by_package
              (templateStats [contract_of_template "c1" "pkg:Mod:A" []]))
    as (_ & _ & Hall & _).
  apply (Hall (first_seen (contract_of_template "c1" "pkg:Mod:A" []))).
  vm_compute. left.
Defined.

Lemma templateStats_counts_every_contract_once_witness :
  count (first_seen (contract_of_template "c1" "pkg:Mod:A" []))
  = Z.of_nat (length (of_template "pkg:Mod:A" [contract_of_template "c1" "pkg:Mod:A" []])).
Proof.
  destruct (templateStats_counts_every_contract_once
              [contract_of_template "c1" "pkg:Mod:A" []]) as (_ & _ & Hentries & _).
  apply (Hentries (first_seen (contract_of_template "c1" "pkg:Mod:A" []))).
  vm_compute. left.
Defined.

Lemma templateStats_sorted_by_count_witness :
  count (seen_again (contract_of_template "c3" "pkg:Mod:A" [])
           (first_seen (contract_of_template "c2" "pkg:Mod:A" [])))
  >= count (first_seen (contract_of_template "c1" "pkg:Mod:B" [])).
Proof.
  destruct (templateStats_sorted_by_count
              [contract_of_template "c1" "pkg:Mod:B" [];
               contract_of_template "c2" "pkg:Mod:A" [];
               contract_of_template "c3" "pkg:Mod:A" []]) as (Hsorted & _).
  apply Z.le_ge.
  apply (Hsorted 0%nat 1%nat); [lia|vm_compute; reflexivity|vm_compute; reflexivity].
Defined.

End TemplatesProofs.

(** * Properties of the contract grid and of the transaction rows *)

Module PagesProofs.
Import ContractsBrowser TransactionsPage.
Local Open Scope list_scope.

(** ** Paging *)

Lemma paginatedContracts_chunk {A} (k : nat) (l : list A) :
  paginatedContracts (Z.of_nat (S k)) l = take 25 (drop (25 * k) l).
Proof.
  unfold paginatedContracts, slice, pageSize.
  replace ((Z.of_nat (S k) - 1) * 25) with (Z.of_nat (25 * k)) by lia.
  set (start := Z.of_nat (25 * k)). set (len := Z.of_nat (length l)).
  assert ((start <? 0) = false) as -> by (apply Z.ltb_ge; lia).
  assert ((start + 25 <? 0) = false) as -> by (apply Z.ltb_ge; lia).
  destruct (Z.le_gt_cases len start) as [Hout|Hin].
  - rewrite (Z.min_r start len), (Z.min_r (start + 25) len) by lia.
    rewrite Z.sub_diag. cbn [Z.to_nat]. rewrite take_0.
    rewrite drop_ge by lia. symmetry. apply take_nil.
  - rewrite (Z.min_l start len) by lia.
    replace (Z.to_nat start) with (25 * k)%nat by lia.
    destruct (Z.le_gt_cases (start + 25) len) as [Hfull|Hshort].
    + rewrite Z.min_l by lia. f_equal. lia.
    + rewrite Z.min_r by lia.
      rewrite !take_ge; [reflexivity| |]; rewrite length_drop; lia.
Qed.

Lemma chunks_concat {A} (m : nat) : forall l : list A,
  (length l <= 25 * m)%nat ->
  concat (map (fun k => take 25 (drop (25 * k) l)) (seq 0 m)) = l.
Proof.
  induction m as [|m IH]; intros l Hlen.
  - destruct l; [reflexivity|cbn in Hlen; lia].
  - cbn [seq map concat]. rewrite <- fmap_S_seq.
    change (map ?f (S <$> ?s)) with (map f (map S s)). rewrite map_map.
    rewrite (map_ext _ (fun k => take 25 (drop (25 * k) (drop 25 l)))).
    + rewrite IH by (rewrite length_drop; lia).
      rewrite Nat.mul_0_r. cbn [drop]. apply take_drop.
    + intros k. rewrite drop_drop. do 2 f_equal. lia.
Qed.

(** The pages of the grid partition the filtered contracts: pages
    1 to [totalPages] put one after the other are the whole list in order,
    every page has at most 25 rows, a page up to [totalPages] is not
    empty, and every page beyond it is. *)
Theorem pages_partition_the_contracts {A} (filteredContracts : list A) :
  concat (map (fun k => paginatedContracts (Z.of_nat (S k)) filteredContracts)
            (seq 0 (Z.to_nat (totalPages filteredContracts))))
  = filteredContracts
  /\ (forall page, 1 <= page ->
        (length (paginatedContracts page filteredContracts) <= 25)%nat
        /\ (page <= totalPages filteredContracts ->
            paginatedContracts page filteredContracts <> [])
        /\ (totalPages filteredContracts < page ->
            paginatedContracts page filteredContracts = [])).
Proof.
  assert (Htotal : 25 * (totalPages filteredContracts - 1)
                   < Z.of_nat (length filteredContracts)
                   /\ Z.of_nat (length filteredContracts)
                      <= 25 * totalPages filteredContracts).
  { unfold totalPages, pageSize.
    pose proof (Z.div_mod (Z.of_nat (length filteredContracts) + 25 - 1) 25 ltac:(lia)).
    pose proof (Z.mod_pos_bound (Z.of_nat (length filteredContracts) + 25 - 1) 25
                  ltac:(lia)).
    lia. }
  split.
  - rewrite (map_ext _ (fun k => take 25 (drop (25 * k) filteredContracts)))
      by (intros k; apply paginatedContracts_chunk).
    apply chunks_concat. lia.
  - intros page Hpage.
    replace page with (Z.of_nat (S (Z.to_nat (page - 1)))) by lia.
    rewrite paginatedContracts_chunk.
    split; [rewrite length_take; lia|]. split.
    + intros Hle Hnil. apply take_nil_inv in Hnil as [Hnil|Hnil]; [lia|].
      apply drop_nil_inv in Hnil. lia.
    + intros Hgt. rewrite drop_ge by lia. apply take_nil.
Qed.

Lemma pages_partition_the_contracts_witness :
  (length (paginatedContracts 2 (seq 0 30)) <= 25)%nat
  /\ paginatedContracts 2 (seq 0 30) <> []
  /\ paginatedContracts 3 (seq 0 30) = [].
Proof.
  destruct (pages_partition_the_contracts (seq 0 30)) as [_ Hpages].
  destruct (Hpages 2 ltac:(lia)) as (Hlen & Hfull & _).
  destruct (Hpages 3 ltac:(lia)) as (_ & _ & Hempty).
  split; [exact Hlen|]. split.
  - apply Hfull. vm_compute. discriminate.
  - apply Hempty. vm_compute. reflexivity.
Defined.

(** ** Event counts *)

Definition is_created (e : Event) : bool :=
  match e with Created _ => true | _ => false end.
Definition is_exercised (e : Event) : bool :=
  match e with Exercised _ => true | _ => false end.
Definition is_archived (e : Event) : bool :=
  match e with Archived _ => true | _ => false end.

Lemma eventSummary_from events : forall counts,
  let result := fold_left count_event events counts in
  n_created result = n_created counts + Z.of_nat (length (List.filter is_created events))
  /\ n_exercised result
     = n_exercised counts + Z.of_nat (length (List.filter is_exercised events))
  /\ n_archived result
     = n_archived counts + Z.of_nat (length (List.filter is_archived events)).
Proof.
  induction events as [|e events IH]; intros counts; cbn [fold_left].
  - cbn. lia.
  - cbn zeta in *. destruct (IH (count_event counts e)) as (Hc & Hx & Ha).
    rewrite Hc, Hx, Ha. destruct e; cbn; lia.
Qed.

(** The summary of a transaction row counts every event once: each of the
    three numbers is the number of events of its kind, and together they
    are the number of events of the transaction. *)
Theorem eventSummary_counts_every_event_once (events : list Event) :
  let counts := eventSummary events in
  n_created counts = Z.of_nat (length (List.filter is_created events))
  /\ n_exercised counts = Z.of_nat (length (List.filter is_exercised events))
  /\ n_archived counts = Z.of_nat (length (List.filter is_archived events))
  /\ n_created counts + n_exercised counts + n_archived counts
     = Z.of_nat (length events).
Proof.
  intros counts. subst counts. unfold eventSummary.
  destruct (eventSummary_from events
              {| n_created := 0; n_exercised := 0; n_archived := 0 |})
    as (Hc & Hx & Ha).
  cbn zeta in *. cbn [n_created n_exercised n_archived] in *.
  rewrite Hc, Hx, Ha. repeat split; try lia.
  clear. induction events as [|e events IH]; [reflexivity|].
  destruct e; cbn [List.filter is_created is_exercised is_archived length];
    rewrite ?Nat2Z.inj_succ; lia.
Qed.

(** ** Expanded events *)

(** Toggling an event flips its membership in the set of expanded events
    and leaves every other event as it was; toggling it twice restores the
    set. *)
Theorem toggleEvent_flips_one_event (eventId : string) (expanded : gset string) :
  (eventId ∈ toggleEvent eventId expanded <-> eventId ∉ expanded)
  /\ (forall other, other <> eventId ->
        (other ∈ toggleEvent eventId expanded <-> other ∈ expanded))
  /\ toggleEvent eventId (toggleEvent eventId expanded) = expanded.
Proof.
  assert (Hflip : forall s : gset string, eventId ∈ toggleEvent eventId s <-> eventId ∉ s).
  { intros s. unfold toggleEvent. destruct (decide (eventId ∈ s)).
    - rewrite elem_of_difference, elem_of_singleton. tauto.
    - rewrite elem_of_union, elem_of_singleton. tauto. }
  assert (Hother : forall (s : gset string) other, other <> eventId ->
            (other ∈ toggleEvent eventId s <-> other ∈ s)).
  { intros s other Hne. unfold toggleEvent. destruct (decide (eventId ∈ s)).
    - rewrite elem_of_difference, elem_of_singleton. tauto.
    - rewrite elem_of_union, elem_of_singleton. tauto. }
  split; [apply Hflip|]. split; [apply Hother|].
  apply set_eq. intros x. destruct (decide (x = eventId)) as [->|Hne].
  - rewrite Hflip, Hflip. destruct (decide (eventId ∈ expanded)); tauto.
  - rewrite !Hother by assumption. reflexivity.
Qed.

Lemma toggleEvent_flips_one_event_witness :
  "#1:1" ∈ toggleEvent "#1:0" {[ "#1:1" ]}.
Proof.
  apply (toggleEvent_flips_one_event "#1:0" {[ "#1:1" ]}).
  - discriminate.
  - apply elem_of_singleton. reflexivity.
Defined.

End PagesProofs.
